(** * Facebook Ad Success Explorer: scoring and pattern-mining core

    A shallow embedding of
      - [server/src/services/adSuccessScoreCalculator.js]
        (class [AdSuccessScoreCalculator]),
      - the full [adAnalysisEngine.js] (class [AdAnalysisEngine]),
      - the partial fix of [analyzeSuccessPatterns] and of
        [analyzeAdStructure] shipped next to it,
      - [utils/rateLimiter.js] ([calculateBackoff] and
        [rateLimiterMiddleware]),
      - [getClient] of [services/redis.js],
      - [controllers/adController.js] (the three request handlers), and
      - [searchAds] of [adapters/facebookAdLibraryAdapter.js] as
        rewritten in its partial fix, with [checkRateLimits],
    followed by the properties established about them.

    Numbers.  JavaScript numbers are binary64 floats.  The embedding keeps
    the one float behaviour the code actually branches on, [NaN], and
    computes finite values exactly, as rationals: [Num q].  Rounding error
    of binary64 arithmetic and the infinities are outside the model.

    Collaborators.  The score collection, the successful-ad collection,
    the Redis cache, the [natural] package, [Date] and the emoji regular
    expression are not part of the sources: their answers are
    parameters, and a call to a store or to the cache may reject.  The
    same holds for the Graph API, [Math.random] and the timers of the
    rate limiter and of the adapter.  A cache entry stays until it is
    overwritten: its expiry is outside the model. *)

From Stdlib Require Import QArith Qround Qpower Lqa ZArith Lia.
From Stdlib Require Import String Ascii List Bool Arith.
From Stdlib Require Import Sorted Permutation.
From Stdlib Require Floats.
Import ListNotations.

Set Implicit Arguments.

(* ================================================================== *)
(** * JavaScript values used by the code *)
(* ================================================================== *)

Module JS.

(** ** Numbers *)

Inductive num : Type :=
| NaN : num
| Num (q : Q) : num.

(** Equality of numbers up to the representation of a rational.  ([NaN]
    is related to itself here: the relation compares results of the
    model, it is not the [===] of the language.) *)
Definition num_eq (a b : num) : Prop :=
  match a, b with
  | NaN, NaN => True
  | Num x, Num y => x == y
  | _, _ => False
  end.

(** Order on finite numbers, false as soon as one side is [NaN]. *)
Definition num_le (a b : num) : Prop :=
  match a, b with
  | Num x, Num y => x <= y
  | _, _ => False
  end.

Definition lift2 (f : Q -> Q -> Q) (a b : num) : num :=
  match a, b with
  | Num x, Num y => Num (f x y)
  | _, _ => NaN
  end.

Definition add : num -> num -> num := lift2 Qplus.
Definition sub : num -> num -> num := lift2 Qminus.
Definition mul : num -> num -> num := lift2 Qmult.

(** [a / b].  Every divisor in the embedded code is a non-zero literal
    or is guarded ([impressions > 0], [durationDays >= 1]); a zero
    divisor, which would give an infinity or [NaN], is mapped to [NaN]. *)
Definition div (a b : num) : num :=
  match a, b with
  | Num x, Num y => if Qeq_bool y 0 then NaN else Num (x / y)
  | _, _ => NaN
  end.

(** [a >= b] and [a > b]: any comparison with [NaN] is false. *)
Definition ge (a b : num) : bool :=
  match a, b with
  | Num x, Num y => Qle_bool y x
  | _, _ => false
  end.

Definition gt (a b : num) : bool :=
  match a, b with
  | Num x, Num y => negb (Qle_bool x y)
  | _, _ => false
  end.

Definition Qmax' (x y : Q) : Q := if Qle_bool x y then y else x.
Definition Qmin' (x y : Q) : Q := if Qle_bool x y then x else y.

(** [Math.max], [Math.min]: [NaN] if either argument is. *)
Definition Math_max : num -> num -> num := lift2 Qmax'.
Definition Math_min : num -> num -> num := lift2 Qmin'.

(** [Math.round]: nearest integer, halves towards plus infinity. *)
Definition Math_round (a : num) : num :=
  match a with
  | NaN => NaN
  | Num x => Num (inject_Z (Qfloor (x + (1 # 2))))
  end.

Definition of_nat (n : nat) : num := Num (inject_Z (Z.of_nat n)).

(** ** Strings

    Strings are byte strings: lengths, lower-casing and white space
    agree with the language on ASCII text. *)

Definition is_digit (c : ascii) : bool :=
  let n := nat_of_ascii c in (48 <=? n)%nat && (n <=? 57)%nat.

(** [StrWhiteSpaceChar], ASCII part. *)
Definition is_space (c : ascii) : bool :=
  let n := nat_of_ascii c in
  ((9 <=? n)%nat && (n <=? 13)%nat) || (n =? 32)%nat.

Fixpoint starts_with (p s : string) : bool :=
  match p, s with
  | EmptyString, _ => true
  | String a p', String b s' => Ascii.eqb a b && starts_with p' s'
  | String _ _, EmptyString => false
  end.

(** [s.includes(p)] *)
Fixpoint includes (s p : string) : bool :=
  starts_with p s ||
  match s with
  | EmptyString => false
  | String _ s' => includes s' p
  end.

(** [s.split(c)] for a one-character separator: never empty, one more
    piece than there are separators. *)
Fixpoint split (c : ascii) (s : string) : list string :=
  match s with
  | EmptyString => [EmptyString]
  | String a s' =>
      if Ascii.eqb a c then EmptyString :: split c s'
      else match split c s' with
           | w :: ws => String a w :: ws
           | [] => [String a EmptyString]
           end
  end.

(** [s.replace(/[^\d]/g, '')]: drop every character but [0]..[9]. *)
Fixpoint strip_non_digits (s : string) : string :=
  match s with
  | EmptyString => EmptyString
  | String a s' =>
      if is_digit a then String a (strip_non_digits s')
      else strip_non_digits s'
  end.

Definition digit_val (c : ascii) : Z := Z.of_nat (nat_of_ascii c) - 48.

(** Longest prefix of decimal digits, as the value accumulated so far
    and whether a digit was seen. *)
Fixpoint digits_prefix (s : string) (acc : Z) (seen : bool) : Z * bool :=
  match s with
  | String a s' =>
      if is_digit a then digits_prefix s' (10 * acc + digit_val a) true
      else (acc, seen)
  | EmptyString => (acc, seen)
  end.

Fixpoint skip_spaces (s : string) : string :=
  match s with
  | String a s' => if is_space a then skip_spaces s' else s
  | EmptyString => EmptyString
  end.

(** [parseInt(s, 10)]: leading white space, an optional sign, then the
    longest run of digits; [NaN] when there is no digit. *)
Definition parseInt (s : string) : num :=
  let s1 := skip_spaces s in
  let '(neg, s2) :=
    match s1 with
    | String "-"%char r => (true, r)
    | String "+"%char r => (false, r)
    | _ => (false, s1)
    end in
  match digits_prefix s2 0 false with
  | (v, true) => Num (inject_Z (if neg then - v else v))
  | (_, false) => NaN
  end.

(** [a.join(' ')] *)
Fixpoint join (l : list string) : string :=
  match l with
  | [] => EmptyString
  | [x] => x
  | x :: rest => x ++ " " ++ join rest
  end.

(** [s.toLowerCase()] on the ASCII letters; strings are byte strings
    here, other scripts are left as they are. *)
Definition lower_char (c : ascii) : ascii :=
  let n := nat_of_ascii c in
  if (65 <=? n)%nat && (n <=? 90)%nat then ascii_of_nat (n + 32) else c.

Fixpoint toLowerCase (s : string) : string :=
  match s with
  | EmptyString => EmptyString
  | String a s' => String (lower_char a) (toLowerCase s')
  end.

(** [s.trim().length > 0]: some character is not white space.  The
    white space known is the one of the ASCII range; on text of that
    range this is the test of the language. *)
Fixpoint has_non_space (s : string) : bool :=
  match s with
  | EmptyString => false
  | String a s' => negb (is_space a) || has_non_space s'
  end.

(** ** Plain objects used as dictionaries

    A dictionary [{}] is its own properties in insertion order; a read
    [o[k]] that finds no own property falls through to
    [Object.prototype]. *)
Definition Object_prototype_keys : list string :=
  [ "constructor"; "__defineGetter__"; "__defineSetter__"; "hasOwnProperty";
    "__lookupGetter__"; "__lookupSetter__"; "isPrototypeOf";
    "propertyIsEnumerable"; "toString"; "valueOf"; "__proto__";
    "toLocaleString" ]%string.

Definition inherited (k : string) : bool :=
  existsb (String.eqb k) Object_prototype_keys.

Fixpoint all_digits (s : string) : bool :=
  match s with
  | EmptyString => true
  | String a s' => is_digit a && all_digits s'
  end.

(** Array-index keys: canonical decimal strings below [2^32 - 1]. *)
Definition is_array_index (k : string) : bool :=
  match k with
  | EmptyString => false
  | String "0"%char EmptyString => true
  | String "0"%char _ => false
  | _ => all_digits k && (fst (digits_prefix k 0 false) <? 4294967295)%Z
  end.

Definition index_of (k : string) : Z := fst (digits_prefix k 0 false).

(** ** Arrays *)

(** Stable insertion sort; [before a b] says that [a] may stay in front
    of [b]. *)
Fixpoint insert_sorted {A} (before : A -> A -> bool) (x : A) (l : list A)
  : list A :=
  match l with
  | [] => [x]
  | y :: l' =>
      if before x y then x :: l else y :: insert_sorted before x l'
  end.

Fixpoint stable_sort {A} (before : A -> A -> bool) (l : list A) : list A :=
  match l with
  | [] => []
  | x :: l' => insert_sorted before x (stable_sort before l')
  end.

(** [a.sort(compare)]: stable since ES2019; [compare a b <= 0] keeps [a]
    in front of [b].  (For a comparator that is not a consistent order
    the language leaves the result to the engine.) *)
Definition Array_sort {A} (compare : A -> A -> Q) (a : list A) : list A :=
  stable_sort (fun x y => Qle_bool (compare x y) 0) a.

(** [Object.values(o)]: array-index keys first, ascending, then the
    other keys in insertion order. *)
Definition Object_values {V} (o : list (string * V)) : list V :=
  map snd
    (stable_sort (fun a b => (index_of (fst a) <=? index_of (fst b))%Z)
                 (filter (fun kv => is_array_index (fst kv)) o)
     ++ filter (fun kv => negb (is_array_index (fst kv))) o).

(** ** Exceptions and completion of a call *)

Inductive exn : Type :=
| RangeError          (* Maximum call stack size exceeded *)
| TypeError           (* member access on a value that lacks it *)
| ExternalError.      (* rejected promise of a collaborator (store, cache) *)

Inductive result (A : Type) : Type :=
| Ok (a : A) : result A
| Throw (e : exn) : result A.
Arguments Throw {A} e.

Definition bind {A B} (r : result A) (k : A -> result B) : result B :=
  match r with
  | Ok a => k a
  | Throw e => Throw e
  end.

(** [try { body } catch (error) { handler }] *)
Definition try_catch {A} (body : result A) (handler : exn -> result A)
  : result A :=
  match body with
  | Ok a => Ok a
  | Throw e => handler e
  end.

(** [try { body } catch (error) { return handler }] in a function whose
    handler completes normally. *)
Definition catch {A} (body : result A) (handler : exn -> A) : A :=
  match body with
  | Ok a => a
  | Throw e => handler e
  end.

(** [await Promise.all(promises)]: all the values, or the rejection. *)
Fixpoint Promise_all {A} (promises : list (result A)) : result (list A) :=
  match promises with
  | [] => Ok []
  | p :: rest =>
      match p, Promise_all rest with
      | Ok a, Ok l => Ok (a :: l)
      | Throw e, _ => Throw e
      | Ok _, Throw e => Throw e
      end
  end.

End JS.

Import JS.
Open Scope Q_scope.

Declare Scope js_scope.
Delimit Scope js_scope with js.
Bind Scope js_scope with num.
Infix "+" := add : js_scope.
Infix "-" := sub : js_scope.
Infix "*" := mul : js_scope.
Infix "/" := div : js_scope.
Infix ">=?" := ge (at level 70) : js_scope.
Infix "==n" := num_eq (at level 70).
Notation "x <- r ;; k" := (bind r (fun x => k))
  (at level 61, r at next level, right associativity).

(** Numeric literal of the source, as a number of the model. *)
Definition lit (q : Q) : num := Num q.
Coercion lit : Q >-> num.

(* ================================================================== *)
(** * adSuccessScoreCalculator.js *)
(* ================================================================== *)

Module Calculator.

(** ** Data *)

(** A range field of the raw ad ([spend], [impressions]).  The API
    documents a string; [Undefined] stands for a missing (or otherwise
    falsy) field and [Other] for a truthy value that is not a string,
    on which [includes] or [replace] is not a function. *)
Inductive field : Type :=
| Undefined : field
| Str (s : string) : field
| Other : field.

Record RawAd : Type := {
  id : string;
  ad_delivery_start_time : option string;
  ad_delivery_stop_time : option string;
  spend : field;
  impressions : field;
  (* entries are opaque to the scorer, only their number is read *)
  demographic_distribution : option (list string);
  ad_creative_bodies : option (list string);
  ad_creative_link_titles : option (list string);
  ad_creative_link_descriptions : option (list string)
}.

Record Metrics : Type := {
  durationDays : num;
  spendAmount : num;
  m_impressions : num;
  estimatedEngagement : num;
  dailySpend : num;
  dailyImpressions : num
}.

Record ComponentScores : Type := {
  durationScore : num;
  spendScore : num;
  impressionsScore : num;
  engagementScore : num
}.

(** [{...adData, successScore, componentScores}] *)
Record ScoredAd : Type := {
  raw : RawAd;
  successScore : num;
  componentScores : ComponentScores
}.

(** Document of the score collection ([AdScoreModel]). *)
Record ScoreDoc : Type := {
  totalScore : num;
  doc_componentScores : ComponentScores;
  updatedAt : num
}.

(** The score collection as the calculator sees it: the outcome of each
    awaited call.  The model of the collection itself is not part of
    the repository's sources. *)
Record ScoreStore : Type := {
  findOne : string -> result (option ScoreDoc);
  findOneAndUpdate : string -> num -> ComponentScores -> Metrics -> result unit
}.

(** ** parseSpendRange *)

(** Body of the [try] block. *)
Definition parseSpendRange_try (spendRange : field) : result num :=
  match spendRange with
  | Str spendRange =>
      if includes spendRange "-" then
        match map (fun val => parseInt (strip_non_digits val))
                  (split "-" spendRange) with
        | min :: max :: _ => Ok ((min + max) / 2)%js
        | _ => Ok NaN          (* a missing element is [undefined] *)
        end
      else if includes spendRange "<" then
        Ok (parseInt (strip_non_digits spendRange) / 2)%js
      else if includes spendRange ">" then
        Ok (parseInt (strip_non_digits spendRange) * 1.5)%js
      else
        Ok (parseInt (strip_non_digits spendRange))
  | _ => Throw TypeError       (* spendRange.includes is not a function *)
  end.

Definition falsy (f : field) : bool :=
  match f with
  | Undefined | Str EmptyString => true
  | _ => false
  end.

Definition parseSpendRange (spendRange : field) : num :=
  if falsy spendRange then 0
  else catch (parseSpendRange_try spendRange)
             (fun error => 0).   (* logger.warn(...); return 0 *)

(** Similar logic to [parseSpendRange]. *)
Definition parseImpressionRange (impressionRange : field) : num :=
  parseSpendRange impressionRange.

Section Scoring.

(** Built-ins read by the scorer: the time value (milliseconds) of
    [new Date(s)], [NaN] for an invalid date, and the reading of the
    clock, [new Date()], taken as constant during one scoring. *)
Variable Date_parse : string -> num.
Variable now : num.

(** ** extractMetrics and estimateEngagement

    The two methods call each other.  [stack] is the number of frames
    the engine can still push: a call made with none left throws
    [RangeError], as the engine does. *)
Fixpoint extractMetrics (stack : nat) (adData : RawAd) : result Metrics :=
  match stack with
  | O => Throw RangeError
  | S stack =>
      let startTime :=
        match ad_delivery_start_time adData with
        | Some s => Date_parse s
        | None => NaN                         (* new Date(undefined) *)
        end in
      let endTime :=
        match ad_delivery_stop_time adData with
        | None | Some EmptyString => now
        | Some s => Date_parse s
        end in
      let durationDays :=
        Math_max 1 (Math_round ((endTime - startTime) / (1000 * 60 * 60 * 24))) in
      let spendAmount := parseSpendRange (spend adData) in
      let impressions := parseImpressionRange (impressions adData) in
      estimatedEngagement <- estimateEngagement stack adData impressions ;;
      Ok {| durationDays := durationDays;
            spendAmount := spendAmount;
            m_impressions := impressions;
            estimatedEngagement := estimatedEngagement;
            dailySpend := spendAmount / durationDays;
            dailyImpressions := impressions / durationDays |}
  end

with estimateEngagement (stack : nat) (adData : RawAd) (impressions : num)
  : result num :=
  match stack with
  | O => Throw RangeError
  | S stack =>
      metrics <- extractMetrics stack adData ;;
      let durationFactor :=
        Math_min 1.5 (1 + (durationDays metrics / 30) * 0.5) in
      let demographicFactor :=
        match demographic_distribution adData with
        | Some d => Math_min 1.2 (1 + (of_nat (List.length d) / 10) * 0.2)
        | None => lit 1
        end in
      let contentFactor :=
        match ad_creative_bodies adData with
        | Some b =>
            Math_min 1.3 (1 + (of_nat (String.length (join b)) / 500) * 0.3)
        | None => lit 1
        end in
      let avgCTR : num := 0.01 in
      let estimatedClicks :=
        (impressions * avgCTR * durationFactor * demographicFactor
         * contentFactor)%js in
      let postEngagementRatio : num := 2.5 in
      let estimatedPostEngagements :=
        (estimatedClicks * postEngagementRatio)%js in
      Ok (estimatedClicks + estimatedPostEngagements)%js
  end.

(** ** Component scores (0-25) *)

Definition calculateDurationScore (durationDays : num) : num :=
  (if durationDays >=? 60 then 25
   else if durationDays >=? 30 then 15 + ((durationDays - 30) / 30) * 10
   else if durationDays >=? 14 then 10 + ((durationDays - 14) / 16) * 5
   else if durationDays >=? 7 then 5 + ((durationDays - 7) / 7) * 5
   else Math_max 0 ((durationDays / 7) * 5))%js.

Definition calculateSpendScore (spendAmount : num) : num :=
  (if spendAmount >=? 5000 then 25
   else if spendAmount >=? 1000 then 15 + ((spendAmount - 1000) / 4000) * 10
   else if spendAmount >=? 500 then 10 + ((spendAmount - 500) / 500) * 5
   else if spendAmount >=? 100 then 5 + ((spendAmount - 100) / 400) * 5
   else Math_max 0 ((spendAmount / 100) * 5))%js.

Definition calculateImpressionsScore (impressions : num) : num :=
  (if impressions >=? 500000 then 25
   else if impressions >=? 100000 then
     15 + ((impressions - 100000) / 400000) * 10
   else if impressions >=? 50000 then 10 + ((impressions - 50000) / 50000) * 5
   else if impressions >=? 10000 then 5 + ((impressions - 10000) / 40000) * 5
   else Math_max 0 ((impressions / 10000) * 5))%js.

Definition calculateEngagementScore (metrics : Metrics) : num :=
  (let engagementRate :=
     if gt (m_impressions metrics) 0
     then estimatedEngagement metrics / m_impressions metrics
     else lit 0 in
   if engagementRate >=? 0.10 then 25
   else if engagementRate >=? 0.05 then
     15 + ((engagementRate - 0.05) / 0.05) * 10
   else if engagementRate >=? 0.03 then 10 + ((engagementRate - 0.03) / 0.02) * 5
   else if engagementRate >=? 0.01 then 5 + ((engagementRate - 0.01) / 0.02) * 5
   else Math_max 0 ((engagementRate / 0.01) * 5))%js.

(** ** Total score *)

Definition calculateTotalScore (componentScores : ComponentScores) : num :=
  let weightedScore :=
    (durationScore componentScores * 1.2
     + spendScore componentScores * 0.8
     + impressionsScore componentScores * 0.8
     + engagementScore componentScores * 1.2)%js in
  Math_round weightedScore.

(** ** calculateScore *)

Variable store : ScoreStore.

(** The [try] block after the cache check: extract, score, persist. *)
Definition calculateScore_compute (stack : nat) (adData : RawAd)
  : result ScoredAd :=
  metrics <- extractMetrics stack adData ;;
  let componentScores :=
    {| durationScore := calculateDurationScore (durationDays metrics);
       spendScore := calculateSpendScore (spendAmount metrics);
       impressionsScore := calculateImpressionsScore (m_impressions metrics);
       engagementScore := calculateEngagementScore metrics |} in
  let totalScore := calculateTotalScore componentScores in
  _ <- findOneAndUpdate store (id adData) totalScore componentScores metrics ;;
  Ok {| raw := adData;
        successScore := totalScore;
        componentScores := componentScores |}.

(** The whole [try] block. *)
Definition calculateScore_try (stack : nat) (adData : RawAd)
  : result ScoredAd :=
  existingScore <- findOne store (id adData) ;;
  match existingScore with
  | Some existingScore =>
      if gt (updatedAt existingScore) (now - 24 * 60 * 60 * 1000) then
        (* 'Using cached score for ad ...' *)
        Ok {| raw := adData;
              successScore := totalScore existingScore;
              componentScores := doc_componentScores existingScore |}
      else calculateScore_compute stack adData
  | None => calculateScore_compute stack adData
  end.

(** An [async] method: [Ok] is the fulfilled promise, [Throw] the
    rejected one. *)
Definition calculateScore (stack : nat) (adData : RawAd) : result ScoredAd :=
  try_catch
    (calculateScore_try stack adData)
    (fun error =>
       (* logger.error(...); return original data with default score *)
       Ok {| raw := adData;
             successScore := 0;
             componentScores :=
               {| durationScore := 0;
                  spendScore := 0;
                  impressionsScore := 0;
                  engagementScore := 0 |} |}).

End Scoring.

End Calculator.
Import Calculator.

(* ================================================================== *)
(** * adAnalysisEngine.js (the full class) *)
(* ================================================================== *)

Module Engine.

(** ** Data *)

(** Element of [tfidf.listTerms(i)]. *)
Record Item : Type := { term : string; tfidf : Q }.

(** Value of [terms[term]] while the dictionary is built. *)
Record Entry : Type := { e_term : string; e_count : nat; tfidfSum : Q }.

(** Element of [commonTerms]. *)
Record CommonTerm : Type := {
  ct_term : string;
  count : nat;
  averageTfidf : Q
}.

Record StructurePatterns : Type := {
  averageTextLength : num;
  ctaPresenceRate : num;
  questionPresenceRate : num;
  emojiPresenceRate : num
}.

Record VisualPatterns : Type := {
  imagePresenceRate : num;
  videoPresenceRate : num;
  carouselPresenceRate : num;
  note : string
}.

(** The pattern report; [None] is the empty object [{}]. *)
Record Patterns : Type := {
  commonTerms : list CommonTerm;
  structurePatterns : option StructurePatterns;
  visualPatterns : option VisualPatterns;
  p_updatedAt : num
}.

(** Document of the successful-ad collection ([SuccessfulAdModel]). *)
Record SuccessfulDoc : Type := {
  adId : string;
  sd_successScore : num;
  sd_componentScores : ComponentScores;
  adData : ScoredAd;
  sd_updatedAt : num
}.

(** ** The state and the collaborators

    The successful-ad collection; the cached report (the key
    [ad_success_patterns]; [JSON.stringify] and [JSON.parse] are taken
    as inverse of each other, the 24 hours expiry is not modelled); the
    documents of the engine's own [this.tfidf]; and [calls], the number
    of collaborator calls made so far. *)
Record World : Type := {
  successfulAds : list SuccessfulDoc;
  cache : option Patterns;
  tfidf_documents : list string;
  calls : nat
}.

Inductive call : Type := BulkWrite | Find | CacheGet | CacheSet.

(** What a field meant to hold the Redis client holds: the client
    ([Client]), or a value that has neither [get] nor [set]
    ([Pending]): the promise of the client, which a [getClient] that is
    an [async] method returns, or [null]. *)
Inductive client_ref : Type :=
| Pending : client_ref
| Client : client_ref.

(** ** services/redis.js

    [this.client], set or [null], and [this.isConnected]. *)
Record RedisService : Type := {
  client : bool;
  isConnected : bool
}.

(** [constructor() { this.client = null; this.isConnected = false; }] *)
Definition new_RedisService : RedisService :=
  {| client := false; isConnected := false |}.

(** [connect()] up to its first [await]: the client is created and
    stored, its handlers are registered, and the connection is started.
    [createClient] is taken to return a client. *)
Definition connect (service : RedisService) : RedisService :=
  if isConnected service then service
  else {| client := true; isConnected := isConnected service |}.

(** [getClient()], a synchronous method: it starts [connect()] without
    awaiting it and returns [this.client] ([None] is [null]). *)
Definition getClient (service : RedisService)
  : option client_ref * RedisService :=
  let service :=
    if negb (client service) || negb (isConnected service)
    then connect service else service in
  ((if client service then Some Client else None), service).

(** [constructor() { this.redisClient = redis.getClient(); ... }], run
    when the module is loaded, on the service as [redis.js] exports
    it. *)
Definition constructed_redisClient : client_ref :=
  match fst (getClient new_RedisService) with
  | Some redisClient => redisClient
  | None => Pending
  end.

(** An [async] method of the engine: a completion and the world left
    behind. *)
Definition M (A : Type) : Type := World -> result A * World.

Definition ret {A} (a : A) : M A := fun w => (Ok a, w).

Definition throw {A} (e : exn) : M A := fun w => (Throw e, w).

Definition lift {A} (r : result A) : M A := fun w => (r, w).

Definition bindM {A B} (m : M A) (k : A -> M B) : M B :=
  fun w =>
    match m w with
    | (Ok a, w') => k a w'
    | (Throw e, w') => (Throw e, w')
    end.

Definition try_catchM {A} (body : M A) (handler : exn -> M A) : M A :=
  fun w =>
    match body w with
    | (Ok a, w') => (Ok a, w')
    | (Throw e, w') => handler e w'
    end.

Notation "x <-- m ;;; k" := (bindM m (fun x => k))
  (at level 61, m at next level, right associativity).

Definition MIN_SUCCESS_SCORE : num := 70.

Section Engine.

Variable Date_parse : string -> num.
Variable now : num.
Variable store : ScoreStore.

(** Frames left on the stack when [calculateScore] is entered. *)
Variable stack : nat.

(** The field [this.redisClient]. *)
Variable redisClient : client_ref.

(** [rejects c n]: the collaborator call number [n] of the run, of kind
    [c], rejects (store or cache unreachable). *)
Variable rejects : call -> nat -> bool.

(** The [natural] package: its stop-word list, and
    [tfidf.listTerms(i)] after the given texts were added as documents,
    most salient term first. *)
Variable stopwords : list string.
Variable listTerms : list string -> nat -> list Item.

(** [emojiRegex.test(text)] from [lastIndex]: the answer and the new
    [lastIndex] (the expression carries the [g] flag). *)
Variable emojiRegex_test : nat -> string -> bool * nat.

Definition tick (w : World) : World :=
  {| successfulAds := successfulAds w;
     cache := cache w;
     tfidf_documents := tfidf_documents w;
     calls := S (calls w) |}.

(** [await] of a collaborator call: it rejects, leaving the world as it
    was, or takes effect. *)
Definition await {A} (c : call) (effect : World -> A * World) : M A :=
  fun w =>
    if rejects c (calls w) then (Throw ExternalError, tick w)
    else let '(a, w') := effect (tick w) in (Ok a, w').

(** [updateOne] with [upsert: true], by [adId]. *)
Fixpoint upsert (d : SuccessfulDoc) (coll : list SuccessfulDoc)
  : list SuccessfulDoc :=
  match coll with
  | [] => [d]
  | d' :: rest =>
      if String.eqb (adId d') (adId d) then d :: rest
      else d' :: upsert d rest
  end.

Definition bulkWrite (operations : list SuccessfulDoc) : M unit :=
  await BulkWrite (fun w =>
    (tt, {| successfulAds := fold_left (fun c d => upsert d c) operations
                                       (successfulAds w);
            cache := cache w;
            tfidf_documents := tfidf_documents w;
            calls := calls w |})).

(** Order of [sort({ successScore: -1 })]: descending, [NaN] last. *)
Definition score_before (a b : SuccessfulDoc) : bool :=
  match sd_successScore a, sd_successScore b with
  | Num x, Num y => Qle_bool y x
  | Num _, NaN => true
  | NaN, Num _ => false
  | NaN, NaN => true
  end.

(** [find({}).sort({ successScore: -1 }).limit(100)] *)
Definition find_top : M (list SuccessfulDoc) :=
  await Find (fun w =>
    (firstn 100 (stable_sort score_before (successfulAds w)), w)).

(** [await ref.get('ad_success_patterns')].  A promise has no [get]
    member, nor has [null]: the call throws before any command is
    sent. *)
Definition client_get (ref : client_ref) : M (option Patterns) :=
  match ref with
  | Pending => throw TypeError
  | Client => await CacheGet (fun w => (cache w, w))
  end.

(** [await ref.set('ad_success_patterns', JSON.stringify(patterns),
    'EX', 86400)] *)
Definition client_set (ref : client_ref) (patterns : Patterns) : M unit :=
  match ref with
  | Pending => throw TypeError
  | Client =>
      await CacheSet (fun w =>
        (tt, {| successfulAds := successfulAds w;
                cache := Some patterns;
                tfidf_documents := tfidf_documents w;
                calls := calls w |}))
  end.

(** [this.tfidf = new natural.TfIdf()] followed by [addDocument] of each
    text. *)
Definition new_TfIdf (texts : list string) : M unit :=
  fun w =>
    (Ok tt, {| successfulAds := successfulAds w;
               cache := cache w;
               tfidf_documents := texts;
               calls := calls w |}).

(** ** storeSuccessfulAds *)

Definition storeSuccessfulAds (successfulAds : list ScoredAd) : M unit :=
  try_catchM
    (let operations :=
       map (fun ad => {| adId := id (raw ad);
                         sd_successScore := successScore ad;
                         sd_componentScores := componentScores ad;
                         adData := ad;
                         sd_updatedAt := now |}) successfulAds in
     if (0 <? List.length operations)%nat then bulkWrite operations
     else ret tt)
    (fun error => ret tt).          (* logger.error(...) *)

(** ** extractCommonTerms *)

Definition Terms : Type := list (string * Entry).

Fixpoint own (terms : Terms) (k : string) : option Entry :=
  match terms with
  | [] => None
  | (k', e) :: rest => if String.eqb k' k then Some e else own rest k
  end.

Fixpoint set_own (terms : Terms) (k : string) (e : Entry) : Terms :=
  match terms with
  | [] => [(k, e)]
  | (k', e') :: rest =>
      if String.eqb k' k then (k', e) :: rest
      else (k', e') :: set_own rest k e
  end.

(** Body of the [forEach] callback.  [term.length] is the number of
    bytes, which is the length of the language on terms of the ASCII
    range. *)
Definition add_term (terms : Terms) (item : Item) : Terms :=
  let term := toLowerCase (term item) in
  if existsb (String.eqb term) stopwords || (String.length term <? 3)%nat
  then terms
  else
    match own terms term with
    | Some e =>
        set_own terms term
          {| e_term := e_term e;
             e_count := e_count e + 1;
             tfidfSum := tfidfSum e + tfidf item |}
    | None =>
        if inherited term then
          (* [terms[term]] is the inherited member: truthy, so the
             [else] branch runs and writes [count] and [tfidfSum] on
             that object; [terms] gets no own property *)
          terms
        else
          set_own terms term
            {| e_term := term; e_count := 1; tfidfSum := tfidf item |}
    end.

Definition compare_terms (a b : CommonTerm) : Q :=
  if negb (count b =? count a)%nat then
    inject_Z (Z.of_nat (count b)) - inject_Z (Z.of_nat (count a))
  else averageTfidf b - averageTfidf a.

Definition extractCommonTerms (documents : list string) : list CommonTerm :=
  let terms :=
    fold_left
      (fun terms i => fold_left add_term (firstn 10 (listTerms documents i)) terms)
      (seq 0 (List.length documents)) [] in
  firstn 20
    (Array_sort compare_terms
       (filter (fun item => (1 <? count item)%nat)
          (map (fun item =>
                  {| ct_term := e_term item;
                     count := e_count item;
                     averageTfidf :=
                       tfidfSum item / inject_Z (Z.of_nat (e_count item)) |})
               (Object_values terms)))).

(** ** analyzeAdStructure, analyzeVisualElements *)

Definition bodies_text (ad : ScoredAd) : string :=
  join (match ad_creative_bodies (raw ad) with
        | Some bodies => bodies
        | None => []
        end).

Definition ctaWords : list string :=
  [ "shop"; "buy"; "get"; "sign up"; "learn"; "discover"; "try"; "click";
    "visit"; "join"; "order"; "call" ]%string.

(** [ads.filter(ad => emojiRegex.test(text))], threading [lastIndex]. *)
Fixpoint emoji_filter (lastIndex : nat) (ads : list ScoredAd)
  : list ScoredAd :=
  match ads with
  | [] => []
  | ad :: rest =>
      let '(found, lastIndex') := emojiRegex_test lastIndex (bodies_text ad) in
      if found then ad :: emoji_filter lastIndex' rest
      else emoji_filter lastIndex' rest
  end.

Definition analyzeAdStructure (ads : list ScoredAd) : StructurePatterns :=
  let textLengths :=
    map (fun ad => of_nat (String.length (bodies_text ad))) ads in
  let avgTextLength :=
    (fold_left (fun sum len => sum + len) textLengths (lit 0)
     / of_nat (List.length textLengths))%js in
  let ctaPresence :=
    (of_nat (List.length
       (filter (fun ad =>
                  let text := toLowerCase (bodies_text ad) in
                  existsb (fun cta => includes text cta) ctaWords) ads))
     / of_nat (List.length ads))%js in
  let questionPresence :=
    (of_nat (List.length
       (filter (fun ad => includes (bodies_text ad) "?") ads))
     / of_nat (List.length ads))%js in
  let emojiPresence :=
    (of_nat (List.length (emoji_filter 0 ads))
     / of_nat (List.length ads))%js in
  {| averageTextLength := Math_round avgTextLength;
     ctaPresenceRate := Math_round (ctaPresence * 100);
     questionPresenceRate := Math_round (questionPresence * 100);
     emojiPresenceRate := Math_round (emojiPresence * 100) |}.

(** Placeholder data of the source. *)
Definition analyzeVisualElements (ads : list ScoredAd) : VisualPatterns :=
  {| imagePresenceRate := 95;
     videoPresenceRate := 60;
     carouselPresenceRate := 40;
     note := "Visual analysis requires additional implementation" |}.

(** ** analyzeSuccessPatterns *)

Definition or_empty (a : option (list string)) : list string :=
  match a with
  | Some l => l
  | None => []
  end.

(** [text] of an element of [adContents]. *)
Definition content_text (ad : ScoredAd) : string :=
  join (or_empty (ad_creative_bodies (raw ad))
        ++ or_empty (ad_creative_link_titles (raw ad))
        ++ or_empty (ad_creative_link_descriptions (raw ad))).

Definition analyzeSuccessPatterns (successfulAds : list ScoredAd) : M unit :=
  try_catchM
    (if (List.length successfulAds <? 5)%nat then
       ret tt                  (* 'Not enough successful ads ...'; return *)
     else
       let adContents := map content_text successfulAds in
       _ <-- new_TfIdf adContents ;;;
       let commonTerms := extractCommonTerms adContents in
       let structurePatterns := analyzeAdStructure successfulAds in
       let visualPatterns := analyzeVisualElements successfulAds in
       let patterns :=
         {| commonTerms := commonTerms;
            structurePatterns := Some structurePatterns;
            visualPatterns := Some visualPatterns;
            p_updatedAt := now |} in
       client_set redisClient patterns)
    (fun error => ret tt).     (* logger.error(...) *)

(** ** getSuccessPatterns *)

Definition getSuccessPatterns : M Patterns :=
  try_catchM
    (cachedPatterns <-- client_get redisClient ;;;
     match cachedPatterns with
     | Some cachedPatterns => ret cachedPatterns
     | None =>
         recentSuccessfulAds <-- find_top ;;;
         let empty :=
           {| commonTerms := [];
              structurePatterns := None;
              visualPatterns := None;
              p_updatedAt := now |} in
         if (0 <? List.length recentSuccessfulAds)%nat then
           let ads := map adData recentSuccessfulAds in
           _ <-- analyzeSuccessPatterns ads ;;;
           newlyCachedPatterns <-- client_get redisClient ;;;
           match newlyCachedPatterns with
           | Some newlyCachedPatterns => ret newlyCachedPatterns
           | None => ret empty
           end
         else ret empty
     end)
    (fun error => throw error).   (* logger.error(...); throw error *)

(** ** processAds *)

(** [promise.catch(err => ...)] on a call that is not awaited.  The
    detached task is run to its end before the method returns, which is
    one of the schedules the event loop allows; the value returned by
    [processAds] does not depend on it. *)
Definition detached (task : M unit) : M unit :=
  try_catchM task (fun err => ret tt).

Definition processAds (ads : list RawAd) : M (list ScoredAd) :=
  try_catchM
    (scoredAds <--
       lift (Promise_all
               (map (fun ad => calculateScore Date_parse now store stack ad)
                    ads)) ;;;
     let successfulAds :=
       filter (fun ad => (successScore ad >=? MIN_SUCCESS_SCORE)%js)
              scoredAds in
     _ <-- storeSuccessfulAds successfulAds ;;;
     _ <-- detached (analyzeSuccessPatterns successfulAds) ;;;
     ret successfulAds)
    (fun error => throw error).   (* logger.error(...); throw error *)

End Engine.

End Engine.

(* ================================================================== *)
(** * The partial fix of adAnalysisEngine.js

    [server/src/services/adAnalysisEngine.js] holds two methods only,
    rewritten: [analyzeSuccessPatterns] and [analyzeAdStructure].  They
    use the other methods of the class as they are. *)
(* ================================================================== *)

Module EngineFix.

Import Engine.

Section EngineFix.

Variable now : num.
Variable rejects : call -> nat -> bool.
Variable stopwords : list string.
Variable listTerms : list string -> nat -> list Item.

(** The emoji expression of the fix, as in [Engine]. *)
Variable emojiRegex_test : nat -> string -> bool * nat.

Fixpoint emoji_filter (lastIndex : nat) (ads : list ScoredAd)
  : list ScoredAd :=
  match ads with
  | [] => []
  | ad :: rest =>
      let '(found, lastIndex') := emojiRegex_test lastIndex (bodies_text ad) in
      if found then ad :: emoji_filter lastIndex' rest
      else emoji_filter lastIndex' rest
  end.

Definition analyzeAdStructure (ads : list ScoredAd) : StructurePatterns :=
  if (List.length ads =? 0)%nat then
    {| averageTextLength := 0;
       ctaPresenceRate := 0;
       questionPresenceRate := 0;
       emojiPresenceRate := 0 |}
  else
    let textLengths :=
      filter (fun length => (0 <? length)%nat)
             (map (fun ad => String.length (bodies_text ad)) ads) in
    let avgTextLength :=
      if (0 <? List.length textLengths)%nat then
        (fold_left (fun sum len => sum + of_nat len) textLengths (lit 0)
         / of_nat (List.length textLengths))%js
      else lit 0 in
    let ctaPresence :=
      (of_nat (List.length
         (filter (fun ad =>
                    let text := toLowerCase (bodies_text ad) in
                    existsb (fun cta => includes text cta) ctaWords) ads))
       / Math_max 1 (of_nat (List.length ads)))%js in
    let questionPresence :=
      (of_nat (List.length
         (filter (fun ad => includes (bodies_text ad) "?") ads))
       / Math_max 1 (of_nat (List.length ads)))%js in
    let emojiPresence :=
      (of_nat (List.length (emoji_filter 0 ads))
       / Math_max 1 (of_nat (List.length ads)))%js in
    {| averageTextLength := Math_round avgTextLength;
       ctaPresenceRate := Math_round (ctaPresence * 100);
       questionPresenceRate := Math_round (questionPresence * 100);
       emojiPresenceRate := Math_round (emojiPresence * 100) |}.

(** [.filter(Boolean)] on strings: the empty ones go. *)
Definition filter_Boolean (l : list string) : list string :=
  filter (fun s => negb (String.eqb s "")) l.

(** [text] of an element of [adContents]. *)
Definition content_text (ad : ScoredAd) : string :=
  join (filter_Boolean
          (or_empty (ad_creative_bodies (raw ad))
           ++ or_empty (ad_creative_link_titles (raw ad))
           ++ or_empty (ad_creative_link_descriptions (raw ad)))).

(** Returns the report, or nothing ([None], a bare [return]). *)
Definition analyzeSuccessPatterns (successfulAds : list ScoredAd)
  : M (option Patterns) :=
  try_catchM
    (if (List.length successfulAds <? 5)%nat then
       ret None                (* 'Not enough successful ads ...' *)
     else
       let adContents :=
         filter has_non_space (map content_text successfulAds) in
       if (List.length adContents <? 5)%nat then
         ret None              (* 'Not enough ad content ...' *)
       else
         _ <-- new_TfIdf adContents ;;;
         let commonTerms :=
           extractCommonTerms stopwords listTerms adContents in
         let structurePatterns := analyzeAdStructure successfulAds in
         let visualPatterns := analyzeVisualElements successfulAds in
         let patterns :=
           {| commonTerms := commonTerms;
              structurePatterns := Some structurePatterns;
              visualPatterns := Some visualPatterns;
              p_updatedAt := now |} in
         (* const redisClient = await this.redisClient;
            await redisClient.set(...) *)
         _ <-- try_catchM (client_set rejects Client patterns)
                          (fun redisError => ret tt) ;;;  (* logger.warn *)
         ret (Some patterns))
    (fun error => throw error).   (* logger.error(...); throw error *)

End EngineFix.

End EngineFix.

Import Engine.

(* ================================================================== *)
(** * Vocabulary of the statements *)
(* ================================================================== *)

(** [f] as a function of a non-negative real input [x], with Lipschitz
    constant [L]: finite, within [0, 25], non-decreasing, and moving by
    at most [L] per unit. *)
Definition tier_bounds (f : num -> num) (L : Q) : Prop :=
  forall x y : Q, 0 <= x -> x <= y ->
    exists fx fy : Q,
      f (Num x) = Num fx /\ f (Num y) = Num fy /\
      0 <= fx /\ fx <= fy /\ fy <= 25 /\ fy - fx <= L * (y - x).

Definition non_decreasing (f : num -> num) : Prop :=
  forall x y : Q, 0 <= x -> x <= y -> num_le (f (Num x)) (f (Num y)).

Definition within_0_25 (f : num -> num) : Prop :=
  forall x : Q, 0 <= x -> num_le (Num 0) (f (Num x)) /\ num_le (f (Num x)) (Num 25).

(** Continuity at [b], on the non-negative inputs. *)
Definition continuous_at (f : num -> num) (b : Q) : Prop :=
  forall eps : Q, 0 < eps ->
    exists delta : Q, 0 < delta /\
      forall x : Q, 0 <= x -> - delta < x - b -> x - b < delta ->
        exists fx fb : Q,
          f (Num x) = Num fx /\ f (Num b) = Num fb /\
          - eps < fx - fb /\ fx - fb < eps.

Definition saturated_from (f : num -> num) (t : Q) : Prop :=
  forall x : Q, t <= x -> f (Num x) = Num 25.

(** The engagement tier as a function of the engagement rate: the score
    of metrics whose rate is [rate] (one impression, [rate] engagements). *)
Definition engagementScore_at (rate : num) : num :=
  calculateEngagementScore
    {| durationDays := 1; spendAmount := 0; m_impressions := 1;
       estimatedEngagement := rate; dailySpend := 0; dailyImpressions := 1 |}.

(** Value of a string of decimal digits, and the strings that are one. *)
Definition decimal (s : string) : Z := fst (digits_prefix s 0 false).

Definition is_number (s : string) : bool :=
  all_digits s && negb (String.eqb s "").

(** What the specification asks of one tier function with boundaries
    [b1 < b2 < b3 < b4]. *)
Definition tier_contract (f : num -> num) (b1 b2 b3 b4 : Q) : Prop :=
  non_decreasing f /\
  within_0_25 f /\
  (continuous_at f b1 /\ continuous_at f b2 /\
   continuous_at f b3 /\ continuous_at f b4) /\
  saturated_from f b4 /\
  f (Num 0) ==n Num 0.


(** The ad enriched with the default score. *)
Definition zero_scored (adData : RawAd) : ScoredAd :=
  {| raw := adData;
     successScore := Num 0;
     componentScores :=
       {| durationScore := Num 0; spendScore := Num 0;
          impressionsScore := Num 0; engagementScore := Num 0 |} |}.


(** The operations of a successful-ad write. *)
Definition operations_of (now : num) (successful : list ScoredAd)
  : list SuccessfulDoc :=
  map (fun ad => {| adId := id (raw ad);
                    sd_successScore := successScore ad;
                    sd_componentScores := componentScores ad;
                    adData := ad;
                    sd_updatedAt := now |}) successful.


(** ** Vocabulary of the term extraction *)

(** Key under which an item is counted. *)
Definition key (item : Item) : string := toLowerCase (term item).

(** The items of [items] counted under [k]. *)
Definition occurrences (k : string) (items : list Item) : list Item :=
  filter (fun item => String.eqb (key item) k) items.

Definition Qsum (l : list Q) : Q := fold_right Qplus 0 l.

Fixpoint nodupb (l : list string) : bool :=
  match l with
  | [] => true
  | x :: rest => negb (existsb (String.eqb x) rest) && nodupb rest
  end.

(** Ranking of [commonTerms]: more documents first, then higher
    average TF-IDF. *)
Definition ranks_before (a b : CommonTerm) : Prop :=
  (count b < count a)%nat \/
  (count a = count b /\ averageTfidf b <= averageTfidf a).

Section TermVocabulary.

Variable listTerms : list string -> nat -> list Item.
Variable documents : list string.

(** The ten most salient items of document [i]. *)
Definition top10 (i : nat) : list Item := firstn 10 (listTerms documents i).

(** All of them, document after document. *)
Definition salient_items : list Item :=
  flat_map top10 (seq 0 (List.length documents)).

(** No document lists a term twice among its ten (the package keeps the
    terms of a document as the keys of an object). *)
Definition distinct_per_document : bool :=
  forallb (fun i => nodupb (map key (top10 i))) (seq 0 (List.length documents)).

End TermVocabulary.

(** The test of the callback, negated: the term is kept. *)
Definition accepted (stopwords : list string) (k : string) : bool :=
  negb (existsb (String.eqb k) stopwords || (String.length k <? 3)%nat).

(** State of [terms] after [items] went through the callback. *)
Record table_inv (stopwords : list string) (items : list Item)
       (terms : Terms) : Prop := {
  inv_nodup : NoDup (map fst terms);
  inv_entry : forall k e, In (k, e) terms ->
    e_term e = k /\ accepted stopwords k = true /\
    e_count e = List.length (occurrences k items) /\
    tfidfSum e == Qsum (map tfidf (occurrences k items));
  inv_cover : forall item, In item items ->
    accepted stopwords (key item) = true -> inherited (key item) = false ->
    In (key item) (map fst terms)
}.


(** [a] may stay in front of [b] under [compare_terms]. *)
Definition ranked_first (a b : CommonTerm) : bool :=
  Qle_bool (compare_terms a b) 0.


(** ** Sample data *)

Module Samples.

Definition Date_parse (s : string) : num := Num 1699000000000.
Definition now : num := Num 1700000000000.

Definition ad (name : string) (bodies : option (list string)) : RawAd :=
  {| id := name;
     ad_delivery_start_time := Some "2023-11-03T08:26:40.000Z"%string;
     ad_delivery_stop_time := None;
     spend := Str "100-500";
     impressions := Str "1000-5000";
     demographic_distribution := None;
     ad_creative_bodies := bodies;
     ad_creative_link_titles := None;
     ad_creative_link_descriptions := None |}.

(** The same ad with an unparsable spend string. *)
Definition malformed (name : string) : RawAd :=
  {| id := name;
     ad_delivery_start_time := Some "2023-11-03T08:26:40.000Z"%string;
     ad_delivery_stop_time := None;
     spend := Str "N/A";
     impressions := Str "1000-5000";
     demographic_distribution := None;
     ad_creative_bodies := None;
     ad_creative_link_titles := None;
     ad_creative_link_descriptions := None |}.

Definition scores (d s i e : Q) : ComponentScores :=
  {| durationScore := Num d; spendScore := Num s;
     impressionsScore := Num i; engagementScore := Num e |}.

(** A score computed less than a day before [now]. *)
Definition fresh_doc : ScoreDoc :=
  {| totalScore := Num 85;
     doc_componentScores := scores 25 20 20 20;
     updatedAt := Num 1699990000000 |}.

(** A score collection that fails on the ad ["bad"], has nothing for
    the ad ["new"] and a fresh score of 85 for any other. *)
Definition store : ScoreStore :=
  {| findOne := fun k =>
       if String.eqb k "bad" then Throw ExternalError
       else if String.eqb k "new" then Ok None
       else Ok (Some fresh_doc);
     findOneAndUpdate := fun _ _ _ _ => Ok tt |}.

Definition no_faults (c : call) (n : nat) : bool := false.

(** The cache is unreachable: every read and write of it rejects. *)
Definition cache_down (c : call) (n : nat) : bool :=
  match c with
  | CacheGet | CacheSet => true
  | _ => false
  end.

Definition no_terms (documents : list string) (i : nat) : list Item := [].
Definition no_emoji (lastIndex : nat) (text : string) : bool * nat := (false, 0%nat).

Definition w0 : World :=
  {| successfulAds := []; cache := None; tfidf_documents := []; calls := 0 |}.

Definition scored (name : string) : ScoredAd :=
  {| raw := ad name None;
     successScore := Num 85;
     componentScores := scores 25 20 20 20 |}.

(** Five successful ads without any creative text. *)
Definition textless : list ScoredAd :=
  [scored "a1"; scored "a2"; scored "a3"; scored "a4"; scored "a5"].

End Samples.

Module TermSamples.

Definition stopwords : list string := ["the"; "and"; "you"; "when"; "now"]%string.

Definition documents : list string :=
  [ "Shop now and save"; "Shop the sale"; "Free shipping when you shop" ]%string.

(** A term model for [documents]: salient terms first. *)
Definition listTerms (docs : list string) (i : nat) : list Item :=
  nth i
    [ [ {| term := "save"; tfidf := 1.9 |}; {| term := "shop"; tfidf := 0.7 |};
        {| term := "now"; tfidf := 0.5 |} ];
      [ {| term := "sale"; tfidf := 1.9 |}; {| term := "shop"; tfidf := 0.7 |};
        {| term := "the"; tfidf := 0.3 |} ];
      [ {| term := "shipping"; tfidf := 1.9 |}; {| term := "free"; tfidf := 1.4 |};
        {| term := "shop"; tfidf := 0.7 |}; {| term := "Sale"; tfidf := 0.6 |} ] ]%string
    [].

Definition first_term : CommonTerm :=
  Eval vm_compute in
    hd {| ct_term := ""; count := 0; averageTfidf := 0 |}
       (extractCommonTerms stopwords listTerms documents).

End TermSamples.

(* ================================================================== *)
(** * Further vocabulary *)
(* ================================================================== *)

(** A number that is [NaN] or not negative. *)
Definition nonneg_or_NaN (a : num) : Prop :=
  match a with
  | NaN => True
  | Num q => 0 <= q
  end.

(** A number that is [NaN] or an integer. *)
Definition integer_or_NaN (a : num) : Prop :=
  match a with
  | NaN => True
  | Num q => exists z : Z, q = inject_Z z
  end.

Definition is_NaN (a : num) : bool :=
  match a with
  | NaN => true
  | Num _ => false
  end.

(** A number that is [NaN] or of a magnitude of at most [bound]. *)
Definition NaN_or_within (bound : Q) (a : num) : Prop :=
  match a with
  | NaN => True
  | Num q => - bound <= q /\ q <= bound
  end.

(** A magnitude far from the overflow of binary64: the weighted sum of
    four numbers within it is finite. *)
Definition moderate : Q := inject_Z (10 ^ 300).

(** Text of the ASCII range, where the bytes of the embedding are the
    characters of the language: lengths, lower case and white space
    are the same. *)
Fixpoint ascii_text (s : string) : bool :=
  match s with
  | EmptyString => true
  | String c s' => (nat_of_ascii c <? 128)%nat && ascii_text s'
  end.

(** An ad whose creative texts are of the ASCII range. *)
Definition ascii_ad (ad : ScoredAd) : bool :=
  forallb ascii_text
    (or_empty (ad_creative_bodies (raw ad))
     ++ or_empty (ad_creative_link_titles (raw ad))
     ++ or_empty (ad_creative_link_descriptions (raw ad))).

(** The score [calculateScore] hands out for an ad: the stored one when
    it is fresher than 24 hours, the default otherwise. *)
Definition stored_score (now : num) (store : ScoreStore) (adData : RawAd)
  : ScoredAd :=
  match findOne store (id adData) with
  | Ok (Some doc) =>
      if gt (updatedAt doc) (now - 24 * 60 * 60 * 1000)
      then {| raw := adData;
              successScore := totalScore doc;
              componentScores := doc_componentScores doc |}
      else zero_scored adData
  | _ => zero_scored adData
  end.

(** First document of the collection with the given [adId]. *)
Definition find_by_id (k : string) (coll : list SuccessfulDoc)
  : option SuccessfulDoc :=
  find (fun d => String.eqb (adId d) k) coll.

(** Structure patterns made of whole numbers: a text length that is not
    negative and three rates within 0 and 100. *)
Definition whole_percentages (p : StructurePatterns) : Prop :=
  exists a c q e : Z,
    p = {| averageTextLength := Num (inject_Z a);
           ctaPresenceRate := Num (inject_Z c);
           questionPresenceRate := Num (inject_Z q);
           emojiPresenceRate := Num (inject_Z e) |} /\
    (0 <= a)%Z /\ (0 <= c <= 100)%Z /\ (0 <= q <= 100)%Z /\ (0 <= e <= 100)%Z.

(** The ads [processAds] resolves with: those of the batch whose stored
    score reaches the threshold. *)
Definition successes (now : num) (store : ScoreStore) (ads : list RawAd)
  : list ScoredAd :=
  filter (fun ad => ge (successScore ad) MIN_SUCCESS_SCORE)
         (map (stored_score now store) ads).

(** Five successful ads with a text each. *)
Definition texted : list ScoredAd :=
  map (fun name =>
         {| raw := Samples.ad name (Some ["Shop the sale"%string]);
            successScore := Num 85;
            componentScores := Samples.scores 25 20 20 20 |})
      ["t1"; "t2"; "t3"; "t4"; "t5"]%string.

(** The report [getSuccessPatterns] answers when nothing is available. *)
Definition empty_patterns (now : num) : Patterns :=
  {| commonTerms := [];
     structurePatterns := None;
     visualPatterns := None;
     p_updatedAt := now |}.

(** The ads [getSuccessPatterns] has analysed: [adData] of the best
    stored documents, a hundred at most. *)
Definition recent_ads (w : World) : list ScoredAd :=
  map adData (firstn 100 (stable_sort score_before (successfulAds w))).

(** The report the full class builds from [ads]. *)
Definition report_of (now : num) (stopwords : list string)
    (listTerms : list string -> nat -> list Item)
    (emojiRegex_test : nat -> string -> bool * nat) (ads : list ScoredAd)
  : Patterns :=
  {| commonTerms :=
       extractCommonTerms stopwords listTerms (map Engine.content_text ads);
     structurePatterns := Some (Engine.analyzeAdStructure emojiRegex_test ads);
     visualPatterns := Some (analyzeVisualElements ads);
     p_updatedAt := now |}.

(** The world after the term model was rebuilt from [texts], [n]
    collaborator calls were made and the cache was left holding [c]. *)
Definition analysed (w : World) (texts : list string) (c : option Patterns)
    (n : nat) : World :=
  {| successfulAds := successfulAds w;
     cache := c;
     tfidf_documents := texts;
     calls := n + calls w |}.

(** No key of the table is the name of a member of [Object.prototype]. *)
Definition own_keys_only (terms : Terms) : Prop :=
  forall k, In k (map fst terms) -> inherited k = false.

(** The table [extractCommonTerms] has built when its loop ends. *)
Definition term_table (stopwords : list string)
    (listTerms : list string -> nat -> list Item) (documents : list string)
  : Terms :=
  fold_left
    (fun terms i =>
       fold_left (add_term stopwords) (firstn 10 (listTerms documents i)) terms)
    (seq 0 (List.length documents)) [].

(** The entry of the result made from an entry of the table. *)
Definition common_term (item : Entry) : CommonTerm :=
  {| ct_term := e_term item;
     count := e_count item;
     averageTfidf := tfidfSum item / inject_Z (Z.of_nat (e_count item)) |}.

(* ================================================================== *)
(** * utils/rateLimiter.js *)
(* ================================================================== *)

Module RateLimiter.

(** ** calculateBackoff

    [random] is the value [Math.random()] gives, a number of [0, 1); an
    argument left out ([None]) takes its default.  For a whole number of
    seconds and an attempt between 1 and 1024 every intermediate value
    is a whole number or beyond the cap, and the result is the one of
    the language.  From attempt 1025 on [Math.pow] gives an infinity,
    which is outside the model. *)
Definition calculateBackoff (random : Q) (retryAfter : option num)
    (attempt : option Z) : num :=
  let retryAfter := match retryAfter with Some r => r | None => lit 30 end in
  let attempt := match attempt with Some a => a | None => 1%Z end in
  let baseBackoff := (retryAfter * 1000)%js in
  let exponentialBackoff := (baseBackoff * Num (2 ^ (attempt - 1)))%js in
  let jitter := Num (inject_Z (Qfloor (random * 1000))) in
  let finalBackoff := (exponentialBackoff + jitter)%js in
  Math_min finalBackoff 300000.

(** ** rateLimiterMiddleware *)

(** Entry of [requestCounts].  Times, [windowMs] and [maxRequests] are
    whole numbers, times in milliseconds. *)
Record RequestData : Type := {
  count : Z;
  timestamp : Z
}.

(** [requestCounts], a [Map]: keys in insertion order. *)
Definition RequestCounts : Type := list (string * RequestData).

Fixpoint Map_get (m : RequestCounts) (k : string) : option RequestData :=
  match m with
  | [] => None
  | (k', d) :: rest => if String.eqb k' k then Some d else Map_get rest k
  end.

Fixpoint Map_set (m : RequestCounts) (k : string) (d : RequestData)
  : RequestCounts :=
  match m with
  | [] => [(k, d)]
  | (k', d') :: rest =>
      if String.eqb k' k then (k', d) :: rest
      else (k', d') :: Map_set rest k d
  end.

(** What the middleware does with the response. *)
Inductive Outcome : Type :=
| Skipped                      (* next(), nothing set *)
| Passed (X_RateLimit_Limit X_RateLimit_Remaining X_RateLimit_Reset : Z)
                               (* the three headers, then next() *)
| Rejected (status : Z) (error : string) (retryAfter : Z).
                               (* res.status(...).json({error, retryAfter}) *)

Section Middleware.

(** The request, as far as [keyGenerator] and [skip] look at it. *)
Variable Req : Type.

(** [options], defaults filled in. *)
Variable windowMs : Z.
Variable maxRequests : Z.
Variable message : string.
Variable statusCode : Z.
Variable keyGenerator : Req -> string.
Variable skip : Req -> bool.

(** [Math.ceil(ms / 1000)] *)
Definition ceil_seconds (ms : Z) : Z := Qceiling (inject_Z ms / 1000).

(** The function returned; [now] is the value of [Date.now()]. *)
Definition middleware (req : Req) (now : Z) (requestCounts : RequestCounts)
  : Outcome * RequestCounts :=
  if skip req then (Skipped, requestCounts)
  else
    let key := keyGenerator req in
    let requestData :=
      match Map_get requestCounts key with
      | Some d => d
      | None => {| count := 0; timestamp := now |}
      end in
    let requestData :=
      if (windowMs <? now - timestamp requestData)%Z
      then {| count := 0; timestamp := now |}
      else requestData in
    let requestData :=
      {| count := count requestData + 1;
         timestamp := timestamp requestData |} in
    let requestCounts := Map_set requestCounts key requestData in
    if (maxRequests <? count requestData)%Z then
      (Rejected statusCode message
         (ceil_seconds (timestamp requestData + windowMs - now)),
       requestCounts)
    else
      (Passed maxRequests (maxRequests - count requestData)
              (ceil_seconds (timestamp requestData + windowMs)),
       requestCounts).

(** The callback of [setInterval]. *)
Definition cleanup (now : Z) (requestCounts : RequestCounts)
  : RequestCounts :=
  filter (fun kv => negb (windowMs <? now - timestamp (snd kv))%Z)
         requestCounts.

(** Requests served one after the other. *)
Fixpoint serve (requests : list (Req * Z)) (requestCounts : RequestCounts)
  : list Outcome * RequestCounts :=
  match requests with
  | [] => ([], requestCounts)
  | (req, now) :: rest =>
      let '(o, requestCounts') := middleware req now requestCounts in
      let '(os, requestCounts'') := serve rest requestCounts' in
      (o :: os, requestCounts'')
  end.

(** What a request at [now] does to the entry of its key. *)
Definition count_request (now : Z) (entry : option RequestData)
  : RequestData :=
  let d := match entry with
           | Some d => d
           | None => {| count := 0; timestamp := now |}
           end in
  let d := if (windowMs <? now - timestamp d)%Z
           then {| count := 0; timestamp := now |} else d in
  {| count := count d + 1; timestamp := timestamp d |}.

(** The answer to a request at [now] whose entry has become [d]. *)
Definition respond (now : Z) (d : RequestData) : Outcome :=
  if (maxRequests <? count d)%Z then
    Rejected statusCode message (ceil_seconds (timestamp d + windowMs - now))
  else
    Passed maxRequests (maxRequests - count d)
           (ceil_seconds (timestamp d + windowMs)).

(** The requests of [requests] that count for the key [k]. *)
Definition requests_of (k : string) (requests : list (Req * Z))
  : list (Req * Z) :=
  filter (fun r => negb (skip (fst r)) && String.eqb (keyGenerator (fst r)) k)
         requests.

(** The outcomes among [outcomes] that belong to them. *)
Fixpoint outcomes_of (k : string) (requests : list (Req * Z))
    (outcomes : list Outcome) : list Outcome :=
  match requests, outcomes with
  | (req, _) :: rest, o :: os =>
      if negb (skip req) && String.eqb (keyGenerator req) k
      then o :: outcomes_of k rest os
      else outcomes_of k rest os
  | _, _ => []
  end.

Definition passed (o : Outcome) : bool :=
  match o with
  | Rejected _ _ _ => false
  | _ => true
  end.

(** No entry is dated later than [now]. *)
Definition dated_before (now : Z) (requestCounts : RequestCounts) : Prop :=
  forall k d, Map_get requestCounts k = Some d -> (timestamp d <= now)%Z.

(** Two tables that differ only by entries whose window was over at
    [now]. *)
Definition same_live_entries (now : Z) (a b : RequestCounts) : Prop :=
  forall k,
    match Map_get a k, Map_get b k with
    | Some d, Some d' => d = d'
    | Some d, None | None, Some d => (windowMs < now - timestamp d)%Z
    | None, None => True
    end.

End Middleware.

End RateLimiter.

(** A limiter of three requests a minute, keyed by the address of the
    client. *)
Module LimiterSamples.

Definition handle : string -> Z -> RateLimiter.RequestCounts
                    -> RateLimiter.Outcome * RateLimiter.RequestCounts :=
  RateLimiter.middleware 60000 3 "Too many requests, please try again later."
                         429 (fun ip : string => ip) (fun _ => false).

Definition run : list (string * Z) -> RateLimiter.RequestCounts
                 -> list RateLimiter.Outcome * RateLimiter.RequestCounts :=
  RateLimiter.serve 60000 3 "Too many requests, please try again later."
                    429 (fun ip : string => ip) (fun _ => false).

(** Five requests of one client within a minute, one of another client
    in between. *)
Definition burst : list (string * Z) :=
  [ ("10.0.0.1", 1000); ("10.0.0.1", 2000); ("10.0.0.2", 2500);
    ("10.0.0.1", 3000); ("10.0.0.1", 4000); ("10.0.0.1", 61000) ]%string%Z.

(** A table with an entry whose window is over at 100000 and one whose
    window is not. *)
Definition table : RateLimiter.RequestCounts :=
  [ ("10.0.0.1"%string, {| RateLimiter.count := 4; RateLimiter.timestamp := 1000 |});
    ("10.0.0.2"%string, {| RateLimiter.count := 3; RateLimiter.timestamp := 90000 |}) ]%Z.

End LimiterSamples.

(* ================================================================== *)
(** * controllers/adController.js *)
(* ================================================================== *)

Module Controller.

(** [req.query] of the search, after [parseInt]: [minScore], [limit]
    and [page] are the values of [parseInt(minScore)], [parseInt(limit)]
    and [parseInt(page)], whole numbers or [NaN]; left out of the query
    they are 70, 25 and 1. *)
Record Query : Type := {
  keywords : option string;
  minScore : num;
  limit : num;
  page : num
}.

(** What the adapter answers: the awaited value, or a rejection with
    [error.response?.status]. *)
Inductive Fetched (A : Type) : Type :=
| Rejects (status : option Z)
| Answers (a : A).

Arguments Rejects {A} status.
Arguments Answers {A} a.

(** [scoredAd[0] || adDetails] *)
Inductive AdData : Type :=
| Scored (ad : ScoredAd)
| Details (ad : RawAd).

(** The response sent; [pagination.pages] is left out. *)
Inductive Response : Type :=
| Ads (data : list ScoredAd) (total : nat) (page limit : num)
| Ad (data : AdData) (source : string)
| SuccessPatterns (data : Patterns) (timestamp : num)
| Error (status : Z) (error : string).

(** [a.slice(0, end)] for a numeric [end]. *)
Definition slice_0 {A} (a : list A) (end_ : num) : list A :=
  match end_ with
  | NaN => []
  | Num q =>
      let relativeEnd := Z.quot (Qnum q) (Zpos (Qden q)) in
      if (relativeEnd <? 0)%Z
      then firstn (List.length a - Z.to_nat (- relativeEnd)) a
      else firstn (Z.to_nat relativeEnd) a
  end.

Section Controller.

Variable Date_parse : string -> num.
Variable now : num.
Variable store : ScoreStore.
Variable stack : nat.
Variable redisClient : client_ref.
Variable rejects : call -> nat -> bool.
Variable stopwords : list string.
Variable listTerms : list string -> nat -> list Item.
Variable emojiRegex_test : nat -> string -> bool * nat.

(** [fbAdapter.searchAds({keywords, limit, page})]: the array [data] of
    the answer, if the answer has one. *)
Variable searchAds : string -> num -> num -> Fetched (option (list RawAd)).

(** [fbAdapter.getAdDetails(adId)]: the answer, if it is an object. *)
Variable fb_getAdDetails : string -> Fetched (option RawAd).

Definition searchSuccessfulAds (query : Query) : World -> Response * World :=
  fun w =>
    match keywords query with
    | None | Some EmptyString =>
        (Error 400 "Keywords are required for search", w)
    | Some kw =>
        match searchAds kw (Math_min 100 (limit query * 2)) (page query) with
        | Rejects _ => (Error 500 "Error searching for ads", w)
        | Answers None =>
            (Error 502 "Invalid response from Facebook Ad API", w)
        | Answers (Some data) =>
            match processAds Date_parse now store stack redisClient rejects
                             stopwords listTerms emojiRegex_test data w with
            | (Throw _, w') => (Error 500 "Error searching for ads", w')
            | (Ok successfulAds, w') =>
                let filteredAds :=
                  filter (fun ad => (successScore ad >=? minScore query)%js)
                         successfulAds in
                let paginatedAds := slice_0 filteredAds (limit query) in
                (Ads paginatedAds (List.length filteredAds)
                     (page query) (limit query), w')
            end
        end
    end.

Definition getAdDetails (adId : option string) : World -> Response * World :=
  fun w =>
    match adId with
    | None | Some EmptyString => (Error 400 "Ad ID is required", w)
    | Some adId =>
        (* SuccessfulAdModel.findOne({ adId }) *)
        match await rejects Find
                (fun w => (find_by_id adId (successfulAds w), w)) w with
        | (Throw _, w') => (Error 500 "Error fetching ad details", w')
        | (Ok (Some storedAd), w') =>
            (Ad (Scored (adData storedAd)) "database", w')
        | (Ok None, w') =>
            match fb_getAdDetails adId with
            | Rejects status =>
                (Error (match status with
                        | Some s => if (s =? 0)%Z then 500 else s
                        | None => 500
                        end) "Error fetching ad details", w')
            | Answers None => (Error 404 "Ad not found", w')
            | Answers (Some adDetails) =>
                if String.eqb (id adDetails) "" then
                  (Error 404 "Ad not found", w')
                else
                  match processAds Date_parse now store stack redisClient
                                   rejects stopwords listTerms emojiRegex_test
                                   [adDetails] w' with
                  | (Throw _, w'') =>
                      (Error 500 "Error fetching ad details", w'')
                  | (Ok scoredAd, w'') =>
                      (Ad (match scoredAd with
                           | ad :: _ => Scored ad
                           | [] => Details adDetails
                           end) "api", w'')
                  end
            end
        end
    end.

Definition getSuccessPatterns : World -> Response * World :=
  fun w =>
    match Engine.getSuccessPatterns now redisClient rejects stopwords
                                    listTerms emojiRegex_test w with
    | (Ok patterns, w') => (SuccessPatterns patterns now, w')
    | (Throw _, w') => (Error 500 "Error fetching success patterns", w')
    end.

End Controller.

End Controller.

Module ControllerSamples.

(** An adapter that answers two ads to every search and the ad asked
    for to every request for details. *)
Definition searchAds (keywords : string) (limit page : num)
  : Controller.Fetched (option (list RawAd)) :=
  Controller.Answers (Some [Samples.ad "good" None; Samples.ad "new" None]).

Definition fb_getAdDetails (adId : string)
  : Controller.Fetched (option RawAd) :=
  Controller.Answers (Some (Samples.ad adId None)).

Definition query (minScore : num) : Controller.Query :=
  {| Controller.keywords := Some "shoes"%string;
     Controller.minScore := minScore;
     Controller.limit := 25;
     Controller.page := 1 |}.

Definition search : Controller.Query -> World -> Controller.Response * World :=
  Controller.searchSuccessfulAds Samples.Date_parse Samples.now Samples.store
    50 Client Samples.no_faults [] Samples.no_terms Samples.no_emoji searchAds.

Definition details : option string -> World -> Controller.Response * World :=
  Controller.getAdDetails Samples.Date_parse Samples.now Samples.store
    50 Client Samples.no_faults [] Samples.no_terms Samples.no_emoji
    fb_getAdDetails.

End ControllerSamples.

(* ================================================================== *)
(** * adapters/facebookAdLibraryAdapter.js

    [searchAds] as rewritten in the partial fix, with [checkRateLimits]
    of the class.  The Graph API, Redis, the clock and [Math.random]
    are collaborators: their answers are parameters, indexed by the
    number of calls made before. *)
(* ================================================================== *)

Module Adapter.

(** [params], as far as [searchAds] looks into it. *)
Record Params : Type := {
  keywords : option string;
  limit : option num
}.

(** Outcome of [axios.get]: a response, with the array
    [response.data.data] if there is one, or an error with
    [error.response?.status] and the number its [retry-after] header
    stands for, if the header is there and not empty. *)
Inductive ApiAnswer : Type :=
| Responds (data : option (list RawAd))
| Fails (status : option Z) (retry_after : option num).

(** Outcome of [redisClient.get]. *)
Inductive CacheAnswer : Type :=
| Hit (data : list RawAd)
| Miss
| Unreachable.

Inductive Failure : Type :=
| Keywords_required       (* 'Keywords are required for ad search' *)
| Authentication_failed   (* 'Authentication failed with Facebook Ad API' *)
| Api_failure (status : option Z).  (* throw error *)

Inductive Settled : Type :=
| Resolved (data : list RawAd)
| Rejected (failure : Failure).

(** [rateLimitWindow] and what the adapter has done so far: the entries
    it wrote to Redis, the delays of the timers it awaited in
    [checkRateLimits] and after a 429, and the numbers of calls of
    [axios.get], of Redis commands and of [Date.now()]. *)
Record State : Type := {
  requests : Z;
  resetTime : Z;
  entries : list (string * list RawAd);
  waits : list Z;
  backoffs : list num;
  gets : nat;
  commands : nat;
  reads : nat
}.

Section Adapter.

(** The field [this.redisClient]. *)
Variable redisClient : client_ref.

Variable cacheKey : Params -> string.
Variable axios_get : string -> num -> nat -> ApiAnswer.
Variable redis_get : string -> nat -> CacheAnswer.
Variable redis_set_rejects : nat -> bool.
Variable Date_now : nat -> Z.
Variable Math_random : nat -> Q.

(** ** checkRateLimits *)

Definition checkRateLimits (s : State) : State :=
  let s :=
    if (resetTime s <? Date_now (reads s))%Z then
      {| requests := 0;
         resetTime := Date_now (S (reads s)) + 3600000;
         entries := entries s; waits := waits s; backoffs := backoffs s;
         gets := gets s; commands := commands s;
         reads := S (S (reads s)) |}
    else
      {| requests := requests s; resetTime := resetTime s;
         entries := entries s; waits := waits s; backoffs := backoffs s;
         gets := gets s; commands := commands s;
         reads := S (reads s) |} in
  (* maxRequests * 0.9, with maxRequests = 1000 *)
  if (900 <=? requests s)%Z then
    let timeToWait := (resetTime s - Date_now (reads s))%Z in
    {| requests := requests s; resetTime := resetTime s;
       entries := entries s;
       waits := Z.min timeToWait 30000 :: waits s;
       backoffs := backoffs s;
       gets := gets s; commands := commands s;
       reads := S (reads s) |}
  else s.

(** ** searchAds *)

(** The first [try] block: the awaited field gives the client whatever
    the field holds; a miss and a failure both go on to the API. *)
Definition cache_read (key : string) (s : State)
  : option (list RawAd) * State :=
  let s' :=
    {| requests := requests s; resetTime := resetTime s;
       entries := entries s; waits := waits s; backoffs := backoffs s;
       gets := gets s; commands := S (commands s); reads := reads s |} in
  match redis_get key (commands s) with
  | Hit data => (Some data, s')
  | Miss | Unreachable => (None, s')
  end.

(** The inner [try] block: [this.redisClient.set(...)] on the field as
    it is.  A promise has no [set]: the call throws, and the [catch]
    swallows it like a rejection. *)
Definition cache_write (key : string) (data : list RawAd) (s : State)
  : State :=
  match redisClient with
  | Pending => s
  | Client =>
      {| requests := requests s; resetTime := resetTime s;
         entries := if redis_set_rejects (commands s) then entries s
                    else (key, data) :: entries s;
         waits := waits s; backoffs := backoffs s;
         gets := gets s; commands := S (commands s); reads := reads s |}
  end.

Definition no_keywords (params : Params) : bool :=
  match keywords params with
  | None | Some EmptyString => true
  | Some _ => false
  end.

(** [Math.min(1000, params.limit || 25)] *)
Definition request_limit (params : Params) : num :=
  Math_min 1000
    (match limit params with
     | Some (Num q) => if Qeq_bool q 0 then lit 25 else Num q
     | Some NaN | None => lit 25
     end).

Definition search_terms (params : Params) : string :=
  match keywords params with
  | Some k => k
  | None => EmptyString
  end.

(** A call that has not settled within [fuel] rounds gives [None]. *)
Fixpoint searchAds (fuel : nat) (params : option Params) (s : State)
  : option (Settled * State) :=
  match fuel with
  | O => None
  | S fuel =>
      match params with
      | None => Some (Rejected Keywords_required, s)
      | Some p =>
          if no_keywords p then Some (Rejected Keywords_required, s)
          else
            let key := cacheKey p in
            let '(cachedData, s) := cache_read key s in
            match cachedData with
            | Some data => Some (Resolved data, s)
            | None =>
                let s := checkRateLimits s in
                let s' :=
                  {| requests := requests s; resetTime := resetTime s;
                     entries := entries s; waits := waits s;
                     backoffs := backoffs s;
                     gets := S (gets s); commands := commands s;
                     reads := reads s |} in
                match axios_get (search_terms p) (request_limit p) (gets s)
                with
                | Responds None => Some (Resolved [], s')
                | Responds (Some data) =>
                    let s' :=
                      {| requests := requests s + 1;
                         resetTime := resetTime s;
                         entries := entries s; waits := waits s;
                         backoffs := backoffs s;
                         gets := S (gets s); commands := commands s;
                         reads := reads s |} in
                    Some (Resolved data, cache_write key data s')
                | Fails (Some 429%Z) retry_after =>
                    let retryAfter :=
                      match retry_after with
                      | Some r => r
                      | None => lit 30
                      end in
                    let backoffTime :=
                      RateLimiter.calculateBackoff (Math_random (gets s))
                                                   (Some retryAfter) None in
                    searchAds fuel params
                      {| requests := requests s; resetTime := resetTime s;
                         entries := entries s; waits := waits s;
                         backoffs := backoffTime :: backoffs s;
                         gets := S (gets s); commands := commands s;
                         reads := reads s |}
                | Fails (Some 401%Z) _ => Some (Rejected Authentication_failed, s')
                | Fails status _ => Some (Rejected (Api_failure status), s')
                end
            end
      end
  end.

End Adapter.

End Adapter.

Module AdapterSamples.

Definition params : Adapter.Params :=
  {| Adapter.keywords := Some "shoes"%string; Adapter.limit := None |}.

Definition cacheKey (p : Adapter.Params) : string :=
  ("fb_ads_" ++ Adapter.search_terms p)%string.

(** The API answers 429 twice, the second time without the header, and
    then one ad; later calls fail with a 500. *)
Definition axios_get (search_terms : string) (limit : num) (n : nat)
  : Adapter.ApiAnswer :=
  match n with
  | 0%nat => Adapter.Fails (Some 429%Z) (Some (Num 2))
  | 1%nat => Adapter.Fails (Some 429%Z) None
  | 2%nat => Adapter.Responds (Some [Samples.ad "good" None])
  | _ => Adapter.Fails (Some 500%Z) None
  end.

Definition redis_get (key : string) (n : nat) : Adapter.CacheAnswer :=
  Adapter.Miss.

Definition s0 : Adapter.State :=
  {| Adapter.requests := 0; Adapter.resetTime := 3600000;
     Adapter.entries := []; Adapter.waits := []; Adapter.backoffs := [];
     Adapter.gets := 0; Adapter.commands := 0; Adapter.reads := 0 |}.

Definition search (redisClient : client_ref)
  : nat -> option Adapter.Params -> Adapter.State
    -> option (Adapter.Settled * Adapter.State) :=
  Adapter.searchAds redisClient cacheKey axios_get redis_get
    (fun _ => false) (fun n => 1000 + Z.of_nat n)%Z (fun _ => 1 # 2).

End AdapterSamples.

(* ================================================================== *)
(** * Properties *)
(* ================================================================== *)

(** ** Arithmetic of the number model *)

Lemma Qle_bool_false (x y : Q) : Qle_bool x y = false -> y < x.
Proof.
  intros H. destruct (Qlt_le_dec y x) as [Hlt | Hle]; [exact Hlt |].
  apply Qle_bool_iff in Hle. congruence.
Qed.

Lemma div_Num (x c : Q) :
  Qeq_bool c 0 = false -> div (Num x) (Num c) = Num (x / c).
Proof. intros H. unfold div. now rewrite H. Qed.

(** Unfold the arithmetic of [num] down to [Q], leaving the rationals
    alone. *)
Ltac js_simpl :=
  unfold lit in *;
  repeat (progress (cbn [add sub mul lift2 ge gt Math_max Math_min];
                    repeat (rewrite div_Num by reflexivity)));
  unfold Qmax', Qmin'.

Ltac split_Qle_bool :=
  repeat match goal with
         | |- context [Qle_bool ?a ?b] =>
             let E := fresh "E" in destruct (Qle_bool a b) eqn:E
         end;
  repeat match goal with
         | H : Qle_bool _ _ = true |- _ => apply Qle_bool_iff in H
         | H : Qle_bool _ _ = false |- _ => apply Qle_bool_false in H
         end.

(** Division by a literal is multiplication by its inverse, computed. *)
Ltac inv_literals :=
  unfold Qdiv in *;
  repeat match goal with
         | |- context [Qinv (Qmake ?n ?d)] =>
             let r := eval cbv in (Qinv (Qmake n d)) in
             change (Qinv (Qmake n d)) with r
         | H : context [Qinv (Qmake ?n ?d)] |- _ =>
             let r := eval cbv in (Qinv (Qmake n d)) in
             change (Qinv (Qmake n d)) with r in H
         end.

Ltac tier_case :=
  js_simpl; split_Qle_bool; try lra;
  eexists; eexists; (split; [reflexivity | split; [reflexivity |]]);
  inv_literals; repeat split; lra.

Lemma calculateDurationScore_bounds : tier_bounds calculateDurationScore (5 # 7).
Proof. intros x y Hx Hxy. unfold calculateDurationScore. tier_case. Qed.

Lemma calculateSpendScore_bounds : tier_bounds calculateSpendScore (1 # 20).
Proof. intros x y Hx Hxy. unfold calculateSpendScore. tier_case. Qed.

Lemma calculateImpressionsScore_bounds :
  tier_bounds calculateImpressionsScore (1 # 2000).
Proof. intros x y Hx Hxy. unfold calculateImpressionsScore. tier_case. Qed.

Lemma engagementScore_at_bounds : tier_bounds engagementScore_at 500.
Proof.
  intros x y Hx Hxy.
  unfold engagementScore_at, calculateEngagementScore.
  cbn [m_impressions estimatedEngagement].
  change (gt (lit 1) (lit 0)) with true. cbv iota.
  tier_case.
Qed.

Section TierBounds.

Variable f : num -> num.
Variable L : Q.
Hypothesis L_pos : 0 < L.
Hypothesis f_bounds : tier_bounds f L.

Lemma tier_non_decreasing : non_decreasing f.
Proof.
  intros x y Hx Hxy.
  destruct (f_bounds Hx Hxy) as (fx & fy & -> & -> & _ & Hle & _).
  exact Hle.
Qed.

Lemma tier_within_0_25 : within_0_25 f.
Proof.
  intros x Hx.
  destruct (f_bounds Hx (Qle_refl x)) as (fx & fy & Ex & Ey & H0 & Hle & H25 & _).
  rewrite Ex in Ey. injection Ey as <-.
  rewrite Ex. cbn. split; assumption.
Qed.

Lemma scale_below (d eps : Q) : d < eps / L -> L * d < eps.
Proof.
  intros H.
  assert (E : L * (eps / L) == eps) by (field; lra).
  rewrite <- E. apply Qmult_lt_l; assumption.
Qed.

Lemma tier_continuous (b : Q) : 0 <= b -> continuous_at f b.
Proof.
  intros Hb eps Heps.
  exists (eps / L). split.
  - apply Qlt_shift_div_l; lra.
  - intros x Hx Hlo Hhi.
    destruct (Qlt_le_dec x b) as [Hlt | Hge].
    + assert (Hxb : x <= b) by lra.
      destruct (f_bounds Hx Hxb) as (fx & fb & Ex & Eb & _ & Hle & _ & Hlip).
      exists fx, fb. repeat split; try assumption; [| lra].
      assert (Hd : b - x < eps / L) by lra.
      apply scale_below in Hd. lra.
    + destruct (f_bounds Hb Hge) as (fb & fx & Eb & Ex & _ & Hle & _ & Hlip).
      exists fx, fb. repeat split; try assumption; [lra |].
      assert (Hd : x - b < eps / L) by lra.
      apply scale_below in Hd. lra.
Qed.

End TierBounds.

Lemma tier_contract_intro (f : num -> num) (L b1 b2 b3 b4 : Q) :
  0 < L -> tier_bounds f L ->
  0 <= b1 -> 0 <= b2 -> 0 <= b3 -> 0 <= b4 ->
  saturated_from f b4 -> f (Num 0) ==n Num 0 ->
  tier_contract f b1 b2 b3 b4.
Proof.
  intros HL Hf H1 H2 H3 H4 Hsat H0.
  unfold tier_contract.
  split; [exact (tier_non_decreasing Hf) |].
  split; [exact (tier_within_0_25 Hf) |].
  split; [| split; assumption].
  repeat split; apply (tier_continuous HL Hf); assumption.
Qed.

Ltac saturation :=
  let x := fresh "x" in let H := fresh "H" in
  intros x H; js_simpl;
  match goal with
  | |- context [Qle_bool ?a ?b] =>
      let E := fresh "E" in
      destruct (Qle_bool a b) eqn:E;
      [reflexivity | apply Qle_bool_false in E; lra]
  end.

(** The tier of [calculateEngagementScore] depends on the metrics only
    through the rate [estimatedEngagement / impressions]. *)
Lemma calculateEngagementScore_rate (m : Metrics) (e i : Q) :
  estimatedEngagement m = Num e -> m_impressions m = Num i -> 0 < i ->
  calculateEngagementScore m ==n engagementScore_at (Num (e / i)).
Proof.
  intros He Hi Hpos.
  unfold engagementScore_at, calculateEngagementScore.
  cbn [m_impressions estimatedEngagement]. rewrite He, Hi.
  change (gt (lit 1) (lit 0)) with true. cbv iota.
  assert (Hgt : gt (Num i) (lit 0) = true).
  { unfold gt, lit. destruct (Qle_bool i 0) eqn:E; [| reflexivity].
    apply Qle_bool_iff in E. lra. }
  rewrite Hgt.
  assert (Hdiv : div (Num e) (Num i) = Num (e / i)).
  { apply div_Num. destruct (Qeq_bool i 0) eqn:E; [| reflexivity].
    apply Qeq_bool_iff in E. lra. }
  rewrite Hdiv. generalize (e / i). intros r.
  js_simpl. split_Qle_bool; inv_literals; cbn [num_eq]; lra.
Qed.

(** C5.  Each of the four tier functions, on the non-negative reals
    (here rationals), is non-decreasing, stays within [0, 25], is
    continuous at each of its four tier boundaries, equals 25 from its
    last boundary on, and equals 0 at 0.  The engagement tier is taken
    as a function of the engagement rate, which is all that
    [calculateEngagementScore] reads of its metrics. *)
Theorem C5_tier_functions :
  tier_contract calculateDurationScore 7 14 30 60 /\
  tier_contract calculateSpendScore 100 500 1000 5000 /\
  tier_contract calculateImpressionsScore 10000 50000 100000 500000 /\
  tier_contract engagementScore_at 0.01 0.03 0.05 0.10 /\
  (forall (m : Metrics) (e i : Q),
      estimatedEngagement m = Num e -> m_impressions m = Num i -> 0 < i ->
      calculateEngagementScore m ==n engagementScore_at (Num (e / i))).
Proof.
  split; [| split; [| split; [| split]]];
    [| | | | exact calculateEngagementScore_rate].
  - apply tier_contract_intro with (L := 5 # 7);
      try lra; try exact calculateDurationScore_bounds.
    + unfold saturated_from, calculateDurationScore. saturation.
    + vm_compute. reflexivity.
  - apply tier_contract_intro with (L := 1 # 20);
      try lra; try exact calculateSpendScore_bounds.
    + unfold saturated_from, calculateSpendScore. saturation.
    + vm_compute. reflexivity.
  - apply tier_contract_intro with (L := 1 # 2000);
      try lra; try exact calculateImpressionsScore_bounds.
    + unfold saturated_from, calculateImpressionsScore. saturation.
    + vm_compute. reflexivity.
  - apply tier_contract_intro with (L := 500);
      try lra; try exact engagementScore_at_bounds.
    + unfold saturated_from, engagementScore_at, calculateEngagementScore.
      cbn [m_impressions estimatedEngagement].
      change (gt (lit 1) (lit 0)) with true. cbv iota.
      intros x H. js_simpl. inv_literals.
      destruct (Qle_bool _ _) eqn:E;
        [reflexivity | apply Qle_bool_false in E; lra].
    + vm_compute. reflexivity.
Qed.

Lemma C5_witness :
  num_le (calculateSpendScore (Num 100)) (calculateSpendScore (Num 500)).
Proof.
  destruct C5_tier_functions as (_ & (Hmono & _) & _).
  apply Hmono; unfold Qle; cbn; lia.
Defined.

(** ** calculateTotalScore *)

Lemma Math_round_between (x : Q) (lo hi : Z) :
  inject_Z lo <= x -> x <= inject_Z hi ->
  exists z : Z, Math_round (Num x) = Num (inject_Z z) /\ (lo <= z <= hi)%Z.
Proof.
  intros Hlo Hhi. exists (Qfloor (x + (1 # 2))). split; [reflexivity |].
  split.
  - rewrite <- (Qfloor_Z lo). apply Qfloor_resp_le. lra.
  - assert (H : inject_Z (Qfloor (x + (1 # 2))) < inject_Z (hi + 1)).
    { apply Qle_lt_trans with (x + (1 # 2)); [apply Qfloor_le |].
      rewrite inject_Z_plus. change (inject_Z 1) with 1. lra. }
    rewrite <- Zlt_Qlt in H. lia.
Qed.

(** C4.  For component scores within [0, 25], the total score is an
    integer within [0, 100]; the weighted sum of the four maxima is
    exactly 100. *)
Theorem C4_calculateTotalScore_range (d s i e : Q) :
  0 <= d <= 25 -> 0 <= s <= 25 -> 0 <= i <= 25 -> 0 <= e <= 25 ->
  (exists z : Z,
      calculateTotalScore
        {| durationScore := Num d; spendScore := Num s;
           impressionsScore := Num i; engagementScore := Num e |}
      = Num (inject_Z z) /\
      (0 <= z <= 100)%Z /\
      calculateTotalScore
        {| durationScore := Num d; spendScore := Num s;
           impressionsScore := Num i; engagementScore := Num e |}
      = Math_round (Num (d * 1.2 + s * 0.8 + i * 0.8 + e * 1.2))) /\
  25 * 1.2 + 25 * 0.8 + 25 * 0.8 + 25 * 1.2 == 100 /\
  calculateTotalScore
    {| durationScore := 25; spendScore := 25;
       impressionsScore := 25; engagementScore := 25 |} = Num 100.
Proof.
  intros Hd Hs Hi He. split; [| split; reflexivity].
  unfold calculateTotalScore.
  cbn [durationScore spendScore impressionsScore engagementScore].
  js_simpl.
  destruct (@Math_round_between (d * 1.2 + s * 0.8 + i * 0.8 + e * 1.2) 0 100)
    as (z & Ez & Hz).
  - change (inject_Z 0) with 0. lra.
  - change (inject_Z 100) with 100. lra.
  - exists z. repeat split; try assumption; lia.
Qed.

Lemma C4_witness :
  exists z : Z,
    calculateTotalScore
      {| durationScore := Num 20; spendScore := Num 17.5;
         impressionsScore := Num 12.5; engagementScore := Num 5 |}
    = Num (inject_Z z) /\ (0 <= z <= 100)%Z.
Proof.
  destruct (@C4_calculateTotalScore_range 20 17.5 12.5 5) as [(z & E & H & _) _];
    try (split; unfold Qle; simpl; lia).
  exists z. split; assumption.
Defined.

(** ** parseSpendRange *)

(** C6.  The range parser on the six inputs of the specification. *)
Theorem C6_parseSpendRange_examples :
  parseSpendRange (Str "100-500") ==n Num 300 /\
  parseSpendRange (Str "<100") ==n Num 50 /\
  parseSpendRange (Str ">1000") ==n Num 1500 /\
  parseSpendRange (Str "250") ==n Num 250 /\
  parseSpendRange (Str "") ==n Num 0 /\
  parseSpendRange Undefined ==n Num 0.
Proof. vm_compute. repeat split. Qed.

(** A value that is not a string reaches the [catch] block, which
    answers 0. *)
Lemma parseSpendRange_not_a_string : parseSpendRange Other = Num 0.
Proof. reflexivity. Qed.

(** [parseInt] does not throw on a string without digits: it answers
    [NaN], and the [catch] block is not entered. *)
Lemma parseSpendRange_no_digit (s : string) :
  s <> EmptyString ->
  includes s "-" = false ->
  strip_non_digits s = EmptyString ->
  parseSpendRange (Str s) = NaN.
Proof.
  intros Hne Hdash Hstrip.
  unfold parseSpendRange, falsy.
  destruct s as [| a s']; [congruence |].
  unfold catch, parseSpendRange_try.
  rewrite Hdash, Hstrip.
  destruct (includes _ "<"); [reflexivity |].
  destruct (includes _ ">"); reflexivity.
Qed.

(** *** The four shapes, for any digit strings *)

Lemma digit_not_space (c : ascii) : is_digit c = true -> is_space c = false.
Proof.
  destruct c as [[] [] [] [] [] [] [] []]; vm_compute; congruence.
Qed.

Lemma all_digits_no_char (c : ascii) (a : string) :
  is_digit c = false -> all_digits a = true ->
  includes a (String c EmptyString) = false.
Proof.
  intros Hc. induction a as [| x a IH]; cbn; [reflexivity |].
  intros H. apply andb_prop in H. destruct H as [Hx Ha].
  destruct (Ascii.eqb_spec c x) as [-> | _]; [congruence |].
  cbn. exact (IH Ha).
Qed.

Lemma includes_separator (c : ascii) (a b : string) :
  includes (a ++ String c b) (String c EmptyString) = true.
Proof.
  induction a as [| x a IH]; cbn.
  - now rewrite Ascii.eqb_refl.
  - rewrite IH. apply orb_true_r.
Qed.

Lemma split_all_digits (c : ascii) (b : string) :
  is_digit c = false -> all_digits b = true -> split c b = [b].
Proof.
  intros Hc. induction b as [| x b IH]; cbn; [reflexivity |].
  intros H. apply andb_prop in H. destruct H as [Hx Hb].
  destruct (Ascii.eqb_spec x c) as [-> | _]; [congruence |].
  now rewrite (IH Hb).
Qed.

Lemma split_at_separator (c : ascii) (a b : string) :
  is_digit c = false -> all_digits a = true ->
  split c (a ++ String c b) = a :: split c b.
Proof.
  intros Hc. induction a as [| x a IH]; cbn.
  - now rewrite Ascii.eqb_refl.
  - intros H. apply andb_prop in H. destruct H as [Hx Ha].
    destruct (Ascii.eqb_spec x c) as [-> | _]; [congruence |].
    now rewrite (IH Ha).
Qed.

Lemma strip_all_digits (a : string) :
  all_digits a = true -> strip_non_digits a = a.
Proof.
  induction a as [| x a IH]; cbn; [reflexivity |].
  intros H. apply andb_prop in H. destruct H as [Hx Ha].
  now rewrite Hx, (IH Ha).
Qed.

Lemma digits_prefix_seen (s : string) (acc : Z) :
  snd (digits_prefix s acc true) = true.
Proof.
  revert acc. induction s as [| x s IH]; cbn; intros acc; [reflexivity |].
  destruct (is_digit x); [apply IH | reflexivity].
Qed.

Lemma parseInt_number (n : string) :
  is_number n = true -> parseInt n = Num (inject_Z (decimal n)).
Proof.
  unfold is_number. intros H. apply andb_prop in H. destruct H as [Hd Hne].
  destruct n as [| x n]; [discriminate |].
  cbn [all_digits] in Hd. apply andb_prop in Hd. destruct Hd as [Hx Hn].
  unfold parseInt, decimal. cbn [skip_spaces].
  rewrite (digit_not_space x Hx).
  assert (Hsign : (let '(neg, s2) :=
                     match String x n with
                     | String "-"%char r => (true, r)
                     | String "+"%char r => (false, r)
                     | _ => (false, String x n)
                     end in (neg, s2)) = (false, String x n)).
  { destruct x as [[] [] [] [] [] [] [] []]; try discriminate; reflexivity. }
  destruct x as [[] [] [] [] [] [] [] []]; try discriminate;
    cbn [digits_prefix is_digit]; cbn -[digits_prefix Z.mul Z.add inject_Z];
    match goal with
    | |- context [digits_prefix n ?acc true] =>
        pose proof (digits_prefix_seen n acc) as Hs;
        destruct (digits_prefix n acc true) as [v seen];
        cbn in Hs; subst seen; reflexivity
    end.
Qed.

Section Shapes.

Variables a b : string.
Hypothesis a_number : is_number a = true.
Hypothesis b_number : is_number b = true.

Lemma parseSpendRange_between :
  parseSpendRange (Str (a ++ "-" ++ b))
  = Num ((inject_Z (decimal a) + inject_Z (decimal b)) / 2).
Proof.
  destruct (andb_prop _ _ a_number) as [Ha _].
  destruct (andb_prop _ _ b_number) as [Hb _].
  unfold parseSpendRange, catch, parseSpendRange_try.
  assert (Hfalsy : falsy (Str (a ++ "-" ++ b)) = false).
  { destruct a; reflexivity. }
  rewrite Hfalsy.
  change (a ++ "-" ++ b)%string with (a ++ String "-" b)%string.
  rewrite includes_separator.
  rewrite split_at_separator, split_all_digits by (reflexivity || assumption).
  cbn [map]. rewrite !strip_all_digits by assumption.
  rewrite !parseInt_number by assumption.
  reflexivity.
Qed.

(** ["<N"], [">N"] and ["N"]. *)
Lemma number_no_char (c : ascii) :
  is_digit c = false -> includes a (String c EmptyString) = false.
Proof.
  intros Hc. destruct (andb_prop _ _ a_number) as [Ha _].
  now apply all_digits_no_char.
Qed.

Lemma parseSpendRange_below :
  parseSpendRange (Str ("<" ++ a)) = Num (inject_Z (decimal a) / 2).
Proof.
  destruct (andb_prop _ _ a_number) as [Ha _].
  unfold parseSpendRange, catch, parseSpendRange_try, falsy.
  cbn [append includes starts_with strip_non_digits is_digit].
  rewrite (number_no_char "-") by reflexivity.
  cbn. rewrite strip_all_digits, parseInt_number by assumption.
  reflexivity.
Qed.

Lemma parseSpendRange_above :
  parseSpendRange (Str (">" ++ a)) = Num (inject_Z (decimal a) * 1.5).
Proof.
  destruct (andb_prop _ _ a_number) as [Ha _].
  unfold parseSpendRange, catch, parseSpendRange_try, falsy.
  cbn [append includes starts_with strip_non_digits is_digit].
  rewrite (number_no_char "-"), (number_no_char "<") by reflexivity.
  cbn. rewrite strip_all_digits, parseInt_number by assumption.
  reflexivity.
Qed.

Lemma parseSpendRange_plain :
  parseSpendRange (Str a) = Num (inject_Z (decimal a)).
Proof.
  destruct (andb_prop _ _ a_number) as [Ha Hne].
  unfold parseSpendRange, catch, parseSpendRange_try.
  assert (Hfalsy : falsy (Str a) = false).
  { destruct a; [discriminate | reflexivity]. }
  rewrite Hfalsy.
  rewrite (number_no_char "-"), (number_no_char "<"), (number_no_char ">")
    by reflexivity.
  rewrite strip_all_digits, parseInt_number by assumption.
  reflexivity.
Qed.

End Shapes.

(** C3, as the code has it.  On the unparsable string ["N/A"] the parser
    answers [NaN], not 0, and the spend score derived from it is [NaN];
    only a non-string value is turned into 0 by the [catch] block. *)
Theorem C3_unparsable_spend_is_NaN :
  parseSpendRange (Str "N/A") = NaN /\
  calculateSpendScore (parseSpendRange (Str "N/A")) = NaN /\
  parseSpendRange (Str "unknown") = NaN /\
  parseSpendRange (Str "-") = NaN /\
  parseSpendRange Other = Num 0.
Proof. vm_compute. repeat split. Qed.

(** ** extractMetrics and estimateEngagement *)

Section Recursion.

Variable Date_parse : string -> num.
Variable now : num.

Lemma mutual_recursion_overflows (stack : nat) :
  (forall adData, extractMetrics Date_parse now stack adData = Throw RangeError) /\
  (forall adData impressions,
      estimateEngagement Date_parse now stack adData impressions
      = Throw RangeError).
Proof.
  induction stack as [| stack [IHx IHe]].
  - split; reflexivity.
  - split.
    + intros adData. cbn [extractMetrics]. rewrite IHe. reflexivity.
    + intros adData impressions. cbn [estimateEngagement].
      rewrite IHx. reflexivity.
Qed.

End Recursion.

(** C1, as the code has it.  [extractMetrics] calls [estimateEngagement],
    which calls [extractMetrics] on the same ad before it computes
    anything: whatever the ad and however deep the stack, the call ends
    in [RangeError] and no [estimatedEngagement] is returned. *)
Theorem C1_extractMetrics_never_returns
  (Date_parse : string -> num) (now : num) (stack : nat) (adData : RawAd) :
  extractMetrics Date_parse now stack adData = Throw RangeError /\
  forall impressions,
    estimateEngagement Date_parse now stack adData impressions
    = Throw RangeError.
Proof.
  destruct (mutual_recursion_overflows Date_parse now stack) as [Hx He].
  split; [apply Hx | intros; apply He].
Qed.

(** ** calculateScore and processAds *)

Section ScoreProperties.

Variable Date_parse : string -> num.
Variable now : num.
Variable store : ScoreStore.
Variable stack : nat.

Let score := calculateScore Date_parse now store stack.

Lemma calculateScore_compute_throws (adData : RawAd) :
  calculateScore_compute Date_parse now store stack adData = Throw RangeError.
Proof.
  unfold calculateScore_compute.
  destruct (mutual_recursion_overflows Date_parse now stack) as [-> _].
  reflexivity.
Qed.

Lemma calculateScore_failure (adData : RawAd) (e : exn) :
  calculateScore_try Date_parse now store stack adData = Throw e ->
  score adData = Ok (zero_scored adData).
Proof. intros H. unfold score, calculateScore. rewrite H. reflexivity. Qed.

Lemma calculateScore_success (adData : RawAd) (scored : ScoredAd) :
  calculateScore_try Date_parse now store stack adData = Ok scored ->
  score adData = Ok scored.
Proof. intros H. unfold score, calculateScore. rewrite H. reflexivity. Qed.

Lemma calculateScore_total (adData : RawAd) :
  exists scored, score adData = Ok scored /\ raw scored = adData.
Proof.
  unfold score, calculateScore.
  destruct (calculateScore_try Date_parse now store stack adData) as [sc | e] eqn:E.
  - exists sc. split; [reflexivity |].
    unfold calculateScore_try in E.
    destruct (findOne store (id adData)) as [[doc |] | e]; cbn in E.
    + destruct (gt _ _).
      * injection E as <-. reflexivity.
      * rewrite calculateScore_compute_throws in E. discriminate.
    + rewrite calculateScore_compute_throws in E. discriminate.
    + discriminate.
  - eexists. split; reflexivity.
Qed.

(** Every step that can fail, and what comes out. *)
Lemma calculateScore_cases (adData : RawAd) :
  match findOne store (id adData) with
  | Ok (Some doc) =>
      if gt (updatedAt doc) (now - 24 * 60 * 60 * 1000) then
        score adData =
        Ok {| raw := adData; successScore := totalScore doc;
              componentScores := doc_componentScores doc |}
      else score adData = Ok (zero_scored adData)
  | Ok None => score adData = Ok (zero_scored adData)
  | Throw _ => score adData = Ok (zero_scored adData)
  end.
Proof.
  unfold score, calculateScore, calculateScore_try.
  destruct (findOne store (id adData)) as [[doc |] | e]; cbn [bind].
  - destruct (gt _ _); [reflexivity |].
    rewrite calculateScore_compute_throws. reflexivity.
  - rewrite calculateScore_compute_throws. reflexivity.
  - reflexivity.
Qed.

Lemma Promise_all_scores (ads : list RawAd) :
  exists scoredAds,
    Promise_all (map score ads) = Ok scoredAds /\
    Forall2 (fun ad scored => score ad = Ok scored /\ raw scored = ad)
            ads scoredAds.
Proof.
  induction ads as [| ad ads (l & El & Hl)].
  - exists []. split; [reflexivity | constructor].
  - destruct (calculateScore_total ad) as (sc & Esc & Hraw).
    exists (sc :: l). cbn [map Promise_all]. rewrite Esc, El.
    split; [reflexivity |]. constructor; [split; assumption | exact Hl].
Qed.

End ScoreProperties.

Lemma ge_num_le (x y : num) : ge x y = true -> num_le y x.
Proof.
  destruct x as [| a], y as [| b]; cbn; try discriminate.
  apply Qle_bool_iff.
Qed.

Lemma In_upsert (d x : SuccessfulDoc) (coll : list SuccessfulDoc) :
  In d (upsert x coll) -> d = x \/ In d coll.
Proof.
  induction coll as [| d' rest IH]; cbn.
  - intros [<- | []]. now left.
  - destruct (String.eqb (adId d') (adId x)); cbn.
    + intros [<- | H]; [now left | right; now right].
    + intros [<- | H]; [right; now left |].
      destruct (IH H) as [-> | H']; [now left | right; now right].
Qed.

Lemma In_bulk_upsert (d : SuccessfulDoc) (ops coll : list SuccessfulDoc) :
  In d (fold_left (fun c x => upsert x c) ops coll) -> In d ops \/ In d coll.
Proof.
  revert coll. induction ops as [| x ops IH]; cbn; intros coll H.
  - now right.
  - destruct (IH _ H) as [H' | H'].
    + left. now right.
    + destruct (In_upsert _ _ _ H') as [-> | H'']; [left; now left | now right].
Qed.

Section EngineProperties.

Variable Date_parse : string -> num.
Variable now : num.
Variable store : ScoreStore.
Variable stack : nat.
Variable redisClient : client_ref.
Variable rejects : call -> nat -> bool.
Variable stopwords : list string.
Variable listTerms : list string -> nat -> list Item.
Variable emojiRegex_test : nat -> string -> bool * nat.

Let score := calculateScore Date_parse now store stack.
Let process := processAds Date_parse now store stack redisClient rejects
                          stopwords listTerms emojiRegex_test.
Let analyze := Engine.analyzeSuccessPatterns now redisClient rejects stopwords
                                             listTerms emojiRegex_test.

(** [storeSuccessfulAds] swallows a failed write. *)
Lemma storeSuccessfulAds_spec (successful : list ScoredAd) (w : World) :
  exists w',
    storeSuccessfulAds now rejects successful w = (Ok tt, w') /\
    cache w' = cache w /\
    (successfulAds w' = successfulAds w \/
     successfulAds w' =
       fold_left (fun c x => upsert x c) (operations_of now successful)
                 (successfulAds w)).
Proof.
  unfold storeSuccessfulAds, try_catchM, bulkWrite, await, ret.
  fold (operations_of now successful).
  destruct (0 <? List.length (operations_of now successful))%nat.
  - destruct (rejects BulkWrite (calls w)); cbn.
    + eexists. split; [reflexivity |]. split; [reflexivity | now left].
    + eexists. split; [reflexivity |]. split; [reflexivity | now right].
  - eexists. split; [reflexivity |]. split; [reflexivity | now left].
Qed.

(** [analyzeSuccessPatterns] of the full class swallows every failure,
    the cache write included, and leaves the collection alone. *)
Lemma analyzeSuccessPatterns_spec (ads : list ScoredAd) (w : World) :
  exists w',
    analyze ads w = (Ok tt, w') /\ successfulAds w' = successfulAds w.
Proof.
  unfold analyze, Engine.analyzeSuccessPatterns, try_catchM, bindM, new_TfIdf,
    client_set, await, throw, ret.
  destruct (List.length ads <? 5)%nat.
  - eexists. split; reflexivity.
  - generalize redisClient. intros [|].
    + eexists. split; reflexivity.
    + cbn [calls]. destruct (rejects CacheSet (calls w)); cbn;
        eexists; split; reflexivity.
Qed.

Lemma processAds_spec (ads : list RawAd) (w : World) :
  exists scoredAds w',
    Forall2 (fun ad scored => score ad = Ok scored /\ raw scored = ad)
            ads scoredAds /\
    process ads w =
      (Ok (filter (fun ad => ge (successScore ad) MIN_SUCCESS_SCORE) scoredAds),
       w') /\
    (successfulAds w' = successfulAds w \/
     successfulAds w' =
       fold_left (fun c x => upsert x c)
         (operations_of now
            (filter (fun ad => ge (successScore ad) MIN_SUCCESS_SCORE)
                    scoredAds))
         (successfulAds w)).
Proof.
  destruct (Promise_all_scores Date_parse now store stack ads) as (l & El & Hl).
  exists l.
  unfold process, processAds, try_catchM, bindM, lift, detached.
  change (map (fun ad => calculateScore Date_parse now store stack ad) ads)
    with (map (calculateScore Date_parse now store stack) ads).
  rewrite El.
  set (ok := filter _ l).
  destruct (storeSuccessfulAds_spec ok w) as (w1 & -> & _ & Hcoll).
  destruct (analyzeSuccessPatterns_spec ok w1) as (w2 & E2 & Hsame).
  unfold analyze in E2. unfold try_catchM at 1. rewrite E2. cbn.
  exists w2. split; [exact Hl |]. split; [reflexivity |].
  rewrite Hsame. exact Hcoll.
Qed.

End EngineProperties.

(** C2.  A failure inside the scoring of one ad is turned into the ad
    enriched with score 0 and four zero components; an ad whose [try]
    block comes to its end is answered with the result of that block;
    [calculateScore] never rejects; [processAds] therefore resolves,
    with the successful ones among the ads scored one by one, each as
    it is scored alone. *)
Theorem C2_scoring_failure_stays_local
  (Date_parse : string -> num) (now : num) (store : ScoreStore) (stack : nat)
  (redisClient : client_ref)
  (rejects : call -> nat -> bool) (stopwords : list string)
  (listTerms : list string -> nat -> list Item)
  (emojiRegex_test : nat -> string -> bool * nat)
  (ads : list RawAd) (w : World) :
  (forall adData e,
      calculateScore_try Date_parse now store stack adData = Throw e ->
      calculateScore Date_parse now store stack adData
      = Ok (zero_scored adData)) /\
  (forall adData scored,
      calculateScore_try Date_parse now store stack adData = Ok scored ->
      calculateScore Date_parse now store stack adData = Ok scored) /\
  (forall adData, exists scored,
      calculateScore Date_parse now store stack adData = Ok scored /\
      raw scored = adData) /\
  exists scoredAds w',
    Forall2 (fun ad scored =>
               calculateScore Date_parse now store stack ad = Ok scored /\
               raw scored = ad /\
               match calculateScore_try Date_parse now store stack ad with
               | Ok scored' => scored = scored'
               | Throw _ => scored = zero_scored ad
               end) ads scoredAds /\
    processAds Date_parse now store stack redisClient rejects stopwords
               listTerms emojiRegex_test ads w
    = (Ok (filter (fun ad => ge (successScore ad) MIN_SUCCESS_SCORE) scoredAds),
       w').
Proof.
  split; [| split; [| split]].
  - intros adData e. apply calculateScore_failure.
  - intros adData scored. apply calculateScore_success.
  - apply calculateScore_total.
  - destruct (processAds_spec Date_parse now store stack redisClient rejects
                stopwords listTerms emojiRegex_test ads w)
      as (l & w' & Hl & E & _).
    exists l, w'. split; [| exact E].
    eapply Forall2_impl; [| exact Hl].
    intros ad scored [Hs Hraw]. split; [exact Hs |]. split; [exact Hraw |].
    destruct (calculateScore_try Date_parse now store stack ad)
      as [scored' | e] eqn:Etry.
    + rewrite (calculateScore_success _ _ _ _ _ Etry) in Hs.
      now injection Hs.
    + rewrite (calculateScore_failure _ _ _ _ _ Etry) in Hs.
      now injection Hs.
Qed.

Lemma C2_witness :
  calculateScore Samples.Date_parse Samples.now Samples.store 50
                 (Samples.ad "bad" None)
  = Ok (zero_scored (Samples.ad "bad" None)) /\
  calculateScore Samples.Date_parse Samples.now Samples.store 50
                 (Samples.ad "good" None)
  = Ok (Samples.scored "good").
Proof.
  destruct (C2_scoring_failure_stays_local
              Samples.Date_parse Samples.now Samples.store 50
              constructed_redisClient
              Samples.no_faults [] Samples.no_terms Samples.no_emoji
              [Samples.ad "bad" None; Samples.ad "good" None] Samples.w0)
    as (Hfail & Hok & _).
  split.
  - apply Hfail with (e := ExternalError). reflexivity.
  - apply Hok. reflexivity.
Defined.

(** An ad with the spend string ["N/A"] and no stored score: it comes
    back with spend score 0, through the [catch] block of
    [calculateScore] and not through the parser. *)
Example malformed_spend_scored :
  calculateScore Samples.Date_parse Samples.now Samples.store 50
                 (Samples.malformed "new")
  = Ok (zero_scored (Samples.malformed "new")).
Proof. reflexivity. Qed.

(** One failing ad in a batch of three: the batch resolves with the one
    ad that has a fresh score of 85. *)
Example processAds_mixed_batch :
  fst (processAds Samples.Date_parse Samples.now Samples.store 50
                  constructed_redisClient
                  Samples.no_faults [] Samples.no_terms Samples.no_emoji
                  [Samples.ad "bad" None; Samples.ad "good" None;
                   Samples.ad "new" None] Samples.w0)
  = Ok [Samples.scored "good"].
Proof. vm_compute. reflexivity. Qed.

(** C10.  Every ad returned by [processAds] has [successScore >= 70],
    and so has every document the call adds to the successful-ad
    collection. *)
Theorem C10_processAds_threshold
  (Date_parse : string -> num) (now : num) (store : ScoreStore) (stack : nat)
  (redisClient : client_ref)
  (rejects : call -> nat -> bool) (stopwords : list string)
  (listTerms : list string -> nat -> list Item)
  (emojiRegex_test : nat -> string -> bool * nat)
  (ads : list RawAd) (w : World) :
  MIN_SUCCESS_SCORE = Num 70 /\
  exists successful w',
    processAds Date_parse now store stack redisClient rejects stopwords
               listTerms emojiRegex_test ads w = (Ok successful, w') /\
    Forall (fun ad => num_le (Num 70) (successScore ad)) successful /\
    forall d, In d (successfulAds w') ->
              In d (successfulAds w) \/
              (num_le (Num 70) (sd_successScore d) /\ In (adData d) successful).
Proof.
  split; [reflexivity |].
  destruct (processAds_spec Date_parse now store stack redisClient rejects
              stopwords listTerms emojiRegex_test ads w)
    as (l & w' & _ & E & Hcoll).
  set (ok := filter _ l) in *.
  assert (Hok : Forall (fun ad => num_le (Num 70) (successScore ad)) ok).
  { apply Forall_forall. intros ad Hin. apply filter_In in Hin.
    apply (ge_num_le (successScore ad) MIN_SUCCESS_SCORE). apply Hin. }
  exists ok, w'. split; [exact E |]. split; [exact Hok |].
  intros d Hd. destruct Hcoll as [-> | ->] in Hd; [now left |].
  apply In_bulk_upsert in Hd. destruct Hd as [Hd | Hd]; [| now left].
  right. unfold operations_of in Hd. apply in_map_iff in Hd.
  destruct Hd as (ad & <- & Hin). cbn. split; [| exact Hin].
  rewrite Forall_forall in Hok. apply Hok, Hin.
Qed.

Lemma C10_witness :
  exists w',
    processAds Samples.Date_parse Samples.now Samples.store 50
               constructed_redisClient
               Samples.no_faults [] Samples.no_terms Samples.no_emoji
               [Samples.ad "bad" None; Samples.ad "good" None] Samples.w0
    = (Ok [Samples.scored "good"], w') /\
    forall d, In d (successfulAds w') -> num_le (Num 70) (sd_successScore d).
Proof.
  destruct (C10_processAds_threshold
              Samples.Date_parse Samples.now Samples.store 50
              constructed_redisClient
              Samples.no_faults [] Samples.no_terms Samples.no_emoji
              [Samples.ad "bad" None; Samples.ad "good" None] Samples.w0)
    as (_ & l & w' & E & _ & H).
  exists w'. split.
  - rewrite E. f_equal. f_equal.
    apply (f_equal fst) in E. vm_compute in E. now injection E as <-.
  - intros d Hd. destruct (H d Hd) as [[] | [Hle _]]. exact Hle.
Defined.

(** ** getSuccessPatterns *)

Section PatternStore.

Variable now : num.
Variable rejects : call -> nat -> bool.
Variable stopwords : list string.
Variable listTerms : list string -> nat -> list Item.
Variable emojiRegex_test : nat -> string -> bool * nat.

Let get_patterns (redisClient : client_ref) :=
  getSuccessPatterns now redisClient rejects stopwords listTerms
                     emojiRegex_test.

(** The service of [redis.js] hands out its client, also before the
    connection is made. *)
Lemma getClient_gives_the_client (service : RedisService) :
  client service = true \/ isConnected service = false ->
  fst (getClient service) = Some Client.
Proof.
  unfold getClient, connect. destruct service as [[|] [|]]; cbn;
    intros [H | H]; try discriminate; reflexivity.
Qed.

(** With a promise in the field, the first statement of
    [getSuccessPatterns] throws, and the [catch] block rethrows. *)
Lemma getSuccessPatterns_promise (w : World) :
  get_patterns Pending w = (Throw TypeError, w).
Proof. reflexivity. Qed.

(** With the client in the field, a rejected read is rethrown: nothing
    else is done. *)
Lemma getSuccessPatterns_read_rejected (w : World) :
  rejects CacheGet (calls w) = true ->
  get_patterns Client w = (Throw ExternalError, tick w).
Proof.
  intros H.
  unfold get_patterns, getSuccessPatterns, try_catchM, bindM, client_get,
    await, throw.
  rewrite H. reflexivity.
Qed.

Lemma client_get_fulfilled (w : World) :
  rejects CacheGet (calls w) = false ->
  client_get rejects Client w = (Ok (cache w), tick w).
Proof. intros H. unfold client_get, await. rewrite H. reflexivity. Qed.

Lemma find_top_fulfilled (w : World) :
  rejects Find (calls w) = false ->
  find_top rejects w
  = (Ok (firstn 100 (stable_sort score_before (successfulAds w))), tick w).
Proof. intros H. unfold find_top, await. rewrite H. reflexivity. Qed.

(** The write side does degrade: with the client in the field and the
    reads of the cache and of the collection going through, a report
    comes back whether or not the write of the cache rejects. *)
Lemma getSuccessPatterns_reads_going_through (w : World) :
  (forall n, rejects CacheGet n = false) ->
  (forall n, rejects Find n = false) ->
  exists report w', get_patterns Client w = (Ok report, w').
Proof.
  intros Hget Hfind.
  unfold get_patterns, getSuccessPatterns, try_catchM, bindM, ret.
  rewrite client_get_fulfilled by apply Hget.
  destruct (cache w) as [p |]; [eexists; eexists; reflexivity |].
  rewrite find_top_fulfilled by apply Hfind.
  match goal with
  | |- context [(0 <? ?n)%nat] =>
      destruct (0 <? n)%nat; [| eexists; eexists; reflexivity]
  end.
  match goal with
  | |- context [Engine.analyzeSuccessPatterns ?a ?r ?b ?c ?d ?e ?l ?w1] =>
      destruct (analyzeSuccessPatterns_spec a r b c d e l w1) as (w2 & -> & _)
  end.
  rewrite client_get_fulfilled by apply Hget.
  destruct (cache w2); eexists; eexists; reflexivity.
Qed.

(** ** analyzeSuccessPatterns *)

(** The full class looks at the number of ads only: five ads are
    analysed, text or no text.  The term model is rebuilt from their
    texts; with the client in the field and the write going through,
    the report is cached. *)
Lemma full_class_analyses_five (redisClient : client_ref)
      (ads : list ScoredAd) (w : World) :
  (5 <= List.length ads)%nat ->
  let w' := snd (Engine.analyzeSuccessPatterns now redisClient rejects
                   stopwords listTerms emojiRegex_test ads w) in
  tfidf_documents w' = map Engine.content_text ads /\
  (redisClient = Client -> rejects CacheSet (calls w) = false ->
   exists report,
     cache w' = Some report /\
     commonTerms report
     = extractCommonTerms stopwords listTerms (map Engine.content_text ads)).
Proof.
  intros Hlen.
  unfold Engine.analyzeSuccessPatterns, try_catchM, bindM, new_TfIdf,
    client_set, await, throw, ret.
  destruct (Nat.ltb_spec (List.length ads) 5) as [Hlt | _]; [lia |].
  destruct redisClient; cbn [calls].
  - split; [reflexivity | discriminate].
  - destruct (rejects CacheSet (calls w)) eqn:E; cbn.
    + split; [reflexivity |]. intros _ H. discriminate.
    + split; [reflexivity |]. intros _ _. eexists. split; reflexivity.
Qed.

Lemma join_empty (l : list string) :
  join l = EmptyString -> EngineFix.filter_Boolean l = [].
Proof.
  destruct l as [| x [| y r]]; cbn.
  - reflexivity.
  - intros ->. reflexivity.
  - destruct x; discriminate.
Qed.

Lemma fixed_text_kept (ad : ScoredAd) :
  has_non_space (EngineFix.content_text ad) = true ->
  negb (String.eqb (Engine.content_text ad) "") = true.
Proof.
  intros H. destruct (String.eqb_spec (Engine.content_text ad) "") as [E |];
    [| reflexivity].
  unfold EngineFix.content_text in H. unfold Engine.content_text in E.
  rewrite (join_empty _ E) in H. discriminate.
Qed.

Lemma fixed_contents_le (ads : list ScoredAd) :
  (List.length (filter has_non_space (map EngineFix.content_text ads))
   <= List.length
        (filter (fun ad => negb (String.eqb (Engine.content_text ad) "")) ads))%nat.
Proof.
  induction ads as [| ad ads IH]; cbn; [lia |].
  destruct (has_non_space (EngineFix.content_text ad)) eqn:E.
  - rewrite (fixed_text_kept _ E). cbn. lia.
  - destruct (negb _); cbn; lia.
Qed.

(** The partial fix does what the specification asks: with fewer than
    five ads whose concatenated text is not empty it returns nothing
    and touches neither the cache, nor the term model, nor the
    collection. *)
Lemma fixed_insufficient_text (ads : list ScoredAd) (w : World) :
  (List.length
     (filter (fun ad => negb (String.eqb (Engine.content_text ad) "")) ads)
   < 5)%nat ->
  EngineFix.analyzeSuccessPatterns now rejects stopwords listTerms
                                   emojiRegex_test ads w
  = (Ok None, w).
Proof.
  intros H.
  unfold EngineFix.analyzeSuccessPatterns, try_catchM, ret.
  destruct (List.length ads <? 5)%nat; [reflexivity |].
  pose proof (fixed_contents_le ads) as Hle.
  destruct (Nat.ltb_spec
              (List.length (filter has_non_space
                              (map EngineFix.content_text ads))) 5)
    as [_ | Hge]; [reflexivity | lia].
Qed.

End PatternStore.

(** C7, as the code has it.  With the client in [this.redisClient], a
    read of the cache that rejects is rethrown to the caller of
    [getSuccessPatterns], which gets no report: the collection is not
    read and nothing is recomputed.  With a promise of the client in
    the field, every call throws. *)
Theorem C7_cache_failure_surfaces
  (now : num) (rejects : call -> nat -> bool) (stopwords : list string)
  (listTerms : list string -> nat -> list Item)
  (emojiRegex_test : nat -> string -> bool * nat)
  (redisClient : client_ref) (w : World) :
  (redisClient = Client ->
   rejects CacheGet (calls w) = true ->
   getSuccessPatterns now redisClient rejects stopwords listTerms
                      emojiRegex_test w
   = (Throw ExternalError, tick w)) /\
  (redisClient = Pending ->
   getSuccessPatterns now redisClient rejects stopwords listTerms
                      emojiRegex_test w
   = (Throw TypeError, w)).
Proof.
  split.
  - intros -> H. now apply getSuccessPatterns_read_rejected.
  - intros ->. apply getSuccessPatterns_promise.
Qed.

Lemma C7_witness :
  getSuccessPatterns Samples.now Client Samples.cache_down []
                     Samples.no_terms Samples.no_emoji Samples.w0
  = (Throw ExternalError, tick Samples.w0) /\
  getSuccessPatterns Samples.now Pending Samples.no_faults []
                     Samples.no_terms Samples.no_emoji Samples.w0
  = (Throw TypeError, Samples.w0).
Proof.
  split.
  - apply (proj1 (C7_cache_failure_surfaces
                    Samples.now Samples.cache_down [] Samples.no_terms
                    Samples.no_emoji Client Samples.w0)); reflexivity.
  - apply (proj2 (C7_cache_failure_surfaces
                    Samples.now Samples.no_faults [] Samples.no_terms
                    Samples.no_emoji Pending Samples.w0)); reflexivity.
Defined.

(** C9, as the code has it.  None of the five ads of [Samples.textless]
    has any text, yet [analyzeSuccessPatterns] of the full class goes on:
    it rebuilds the term model from five empty documents and builds a
    report, which is cached as soon as the field holds the client; the
    partial fix returns nothing on the same input and changes nothing. *)
Theorem C9_full_class_analyses_textless_ads :
  List.length
    (filter (fun ad => negb (String.eqb (Engine.content_text ad) ""))
            Samples.textless) = 0%nat /\
  tfidf_documents
    (snd (Engine.analyzeSuccessPatterns
            Samples.now constructed_redisClient Samples.no_faults []
            Samples.no_terms Samples.no_emoji Samples.textless Samples.w0))
  = [""; ""; ""; ""; ""]%string /\
  (exists report,
      cache (snd (Engine.analyzeSuccessPatterns
                    Samples.now Client Samples.no_faults [] Samples.no_terms
                    Samples.no_emoji Samples.textless Samples.w0))
      = Some report /\ commonTerms report = []) /\
  EngineFix.analyzeSuccessPatterns
    Samples.now Samples.no_faults [] Samples.no_terms Samples.no_emoji
    Samples.textless Samples.w0
  = (Ok None, Samples.w0).
Proof.
  split; [reflexivity |]. split; [reflexivity |]. split.
  - eexists. split; vm_compute; reflexivity.
  - reflexivity.
Qed.

(** ** Sorting *)

Section StableSort.

Variable A : Type.
Variable before : A -> A -> bool.
Hypothesis before_total : forall x y, before x y = false -> before y x = true.
Hypothesis before_trans :
  forall x y z, before x y = true -> before y z = true -> before x z = true.

Lemma In_insert_sorted (x y : A) (l : list A) :
  In y (insert_sorted before x l) <-> y = x \/ In y l.
Proof.
  induction l as [| z l IH]; cbn.
  - intuition.
  - destruct (before x z); cbn; [intuition |]. rewrite IH. intuition.
Qed.

Lemma In_stable_sort (y : A) (l : list A) :
  In y (stable_sort before l) <-> In y l.
Proof.
  induction l as [| x l IH]; cbn; [reflexivity |].
  rewrite In_insert_sorted, IH. intuition.
Qed.

Lemma length_insert_sorted (x : A) (l : list A) :
  List.length (insert_sorted before x l) = S (List.length l).
Proof.
  induction l as [| z l IH]; cbn; [reflexivity |].
  destruct (before x z); cbn; [reflexivity | now rewrite IH].
Qed.

Lemma insert_sorted_sorted (x : A) (l : list A) :
  StronglySorted (fun a b => before a b = true) l ->
  StronglySorted (fun a b => before a b = true) (insert_sorted before x l).
Proof.
  induction 1 as [| z l Hs IH Hz]; cbn.
  - constructor; constructor.
  - destruct (before x z) eqn:E.
    + constructor; [constructor; assumption |].
      constructor; [exact E |].
      eapply Forall_impl; [| exact Hz]. intros a Ha. cbn in Ha.
      exact (before_trans E Ha).
    + constructor; [exact IH |].
      apply Forall_forall. intros a Ha. apply In_insert_sorted in Ha.
      destruct Ha as [-> | Ha].
      * apply before_total, E.
      * rewrite Forall_forall in Hz. apply Hz, Ha.
Qed.

Lemma stable_sort_sorted (l : list A) :
  StronglySorted (fun a b => before a b = true) (stable_sort before l).
Proof.
  induction l as [| x l IH]; cbn; [constructor |].
  apply insert_sorted_sorted, IH.
Qed.

End StableSort.

Lemma In_firstn (A : Type) (n : nat) (l : list A) (x : A) :
  In x (firstn n l) -> In x l.
Proof.
  revert n. induction l as [| y l IH]; intros [| n]; cbn; try tauto.
  intros [-> | H]; [now left | right; exact (IH _ H)].
Qed.

Lemma StronglySorted_firstn (A : Type) (R : A -> A -> Prop) (n : nat) (l : list A) :
  StronglySorted R l -> StronglySorted R (firstn n l).
Proof.
  intros H. revert n. induction H as [| x l Hs IH Hx]; intros [| n]; cbn;
    try constructor.
  - apply IH.
  - apply Forall_forall. intros y Hy.
    rewrite Forall_forall in Hx. apply Hx.
    eapply In_firstn. exact Hy.
Qed.

Lemma In_Object_values (V : Type) (o : list (string * V)) (v : V) :
  In v (Object_values o) <-> exists k, In (k, v) o.
Proof.
  unfold Object_values. rewrite in_map_iff. split.
  - intros ([k v'] & E & H). cbn in E. subst v'. exists k.
    apply in_app_or in H. destruct H as [H | H].
    + apply In_stable_sort in H. apply filter_In in H. apply H.
    + apply filter_In in H. apply H.
  - intros (k & H). exists (k, v). split; [reflexivity |].
    apply in_or_app.
    destruct (is_array_index k) eqn:E.
    + left. apply In_stable_sort. apply filter_In. now split.
    + right. apply filter_In. split; [exact H |]. cbn. now rewrite E.
Qed.

(** ** The dictionary of extractCommonTerms *)

Lemma own_In (terms : Terms) (k : string) (e : Entry) :
  own terms k = Some e -> In (k, e) terms.
Proof.
  induction terms as [| [k' e'] rest IH]; cbn; [discriminate |].
  destruct (String.eqb_spec k' k) as [-> | Hne].
  - intros [= ->]. now left.
  - intros H. right. exact (IH H).
Qed.

Lemma own_None (terms : Terms) (k : string) :
  own terms k = None -> ~ In k (map fst terms).
Proof.
  induction terms as [| [k' e'] rest IH]; cbn; [tauto |].
  destruct (String.eqb_spec k' k) as [-> | Hne]; [discriminate |].
  intros H [E | Hin]; [contradiction | exact (IH H Hin)].
Qed.

Lemma set_own_spec (terms : Terms) (k : string) (e : Entry) :
  NoDup (map fst terms) ->
  NoDup (map fst (set_own terms k e)) /\
  (forall k' e', In (k', e') (set_own terms k e) ->
                 (k' = k /\ e' = e) \/ (k' <> k /\ In (k', e') terms)) /\
  (forall k', In k' (map fst (set_own terms k e)) <->
              k' = k \/ In k' (map fst terms)).
Proof.
  induction terms as [| [k0 e0] rest IH]; cbn; intros Hnd.
  - split; [constructor; [tauto | constructor] |].
    split; [intros k' e' [[= <- <-] | []]; now left |].
    intros k'. intuition.
  - inversion Hnd as [| ? ? Hnotin Hnd']; subst.
    destruct (String.eqb_spec k0 k) as [-> | Hne]; cbn.
    + split; [constructor; assumption |]. split.
      * intros k' e' [[= <- <-] | Hin]; [now left |].
        right. split; [| now right].
        intros ->. apply Hnotin. apply in_map_iff. now exists (k, e').
      * intros k'. intuition.
    + destruct (IH Hnd') as (IHnd & IHin & IHkeys).
      split.
      * constructor; [| exact IHnd].
        rewrite IHkeys. intros [E | Hin]; [now apply Hne | now apply Hnotin].
      * split.
        -- intros k' e' [[= <- <-] | Hin].
           ++ right. split; [exact Hne | now left].
           ++ destruct (IHin _ _ Hin) as [H | [H1 H2]]; [now left |].
              right. split; [exact H1 | now right].
        -- intros k'. rewrite IHkeys. intuition.
Qed.

Lemma Qsum_snoc (l : list Q) (x : Q) : Qsum (l ++ [x]) == Qsum l + x.
Proof.
  induction l as [| y l IH]; cbn.
  - lra.
  - unfold Qsum in IH. rewrite IH. lra.
Qed.

Lemma occurrences_snoc (k : string) (items : list Item) (item : Item) :
  occurrences k (items ++ [item]) =
  occurrences k items ++ (if String.eqb (key item) k then [item] else []).
Proof. unfold occurrences. rewrite filter_app. reflexivity. Qed.

Lemma occurrences_snoc_other (k : string) (items : list Item) (item : Item) :
  key item <> k -> occurrences k (items ++ [item]) = occurrences k items.
Proof.
  intros H. rewrite occurrences_snoc.
  destruct (String.eqb_spec (key item) k); [contradiction |].
  apply app_nil_r.
Qed.

Lemma occurrences_none (k : string) (items : list Item) :
  (forall item, In item items -> key item <> k) -> occurrences k items = [].
Proof.
  induction items as [| x items IH]; cbn; intros H; [reflexivity |].
  destruct (String.eqb_spec (key x) k) as [E | _].
  - exfalso. apply (H x); [now left | exact E].
  - apply IH. intros item Hin. apply H. now right.
Qed.

Section TermTable.

Variable stopwords : list string.

Lemma table_inv_nil : table_inv stopwords [] [].
Proof.
  split.
  - constructor.
  - intros k e [].
  - intros item [].
Qed.

Lemma table_inv_unchanged (items : list Item) (terms : Terms) (item : Item) :
  table_inv stopwords items terms ->
  ~ In (key item) (map fst terms) ->
  (accepted stopwords (key item) = true -> inherited (key item) = true) ->
  table_inv stopwords (items ++ [item]) terms.
Proof.
  intros [Hnd Hent Hcov] Hnotin Hskip. split.
  - exact Hnd.
  - intros k e Hin. destruct (Hent k e Hin) as (H1 & H2 & H3 & H4).
    rewrite occurrences_snoc_other; [repeat split; assumption |].
    intros E. apply Hnotin. rewrite E. apply in_map_iff. now exists (k, e).
  - intros x Hin Hacc Hinh. apply in_app_or in Hin.
    destruct Hin as [Hin | [<- | []]]; [now apply Hcov |].
    rewrite (Hskip Hacc) in Hinh. discriminate.
Qed.

Lemma add_term_inv (items : list Item) (terms : Terms) (item : Item) :
  table_inv stopwords items terms ->
  table_inv stopwords (items ++ [item]) (add_term stopwords terms item).
Proof.
  intros Hinv. pose proof Hinv as [Hnd Hent Hcov].
  unfold add_term. fold (key item).
  destruct (existsb (String.eqb (key item)) stopwords
            || (String.length (key item) <? 3)%nat) eqn:Erej.
  { (* stop word or short *)
    assert (Hacc : accepted stopwords (key item) = false)
      by (unfold accepted; now rewrite Erej).
    apply table_inv_unchanged; [exact Hinv | | congruence].
    intros Hin. apply in_map_iff in Hin. destruct Hin as ([k e] & E & Hin).
    cbn in E. subst k. destruct (Hent _ _ Hin) as (_ & H & _). congruence. }
  assert (Hacc : accepted stopwords (key item) = true)
    by (unfold accepted; now rewrite Erej).
  destruct (own terms (key item)) as [e |] eqn:Eown.
  - (* counted once more *)
    apply own_In in Eown. destruct (Hent _ _ Eown) as (H1 & H2 & H3 & H4).
    match goal with
    | |- table_inv stopwords _ (set_own _ _ ?e') =>
        destruct (@set_own_spec terms (key item) e' Hnd) as (Hnd' & Hin' & Hkeys')
    end.
    split.
    + exact Hnd'.
    + intros k e' Hin. destruct (Hin' _ _ Hin) as [[-> ->] | [Hne Hold]].
      * rewrite occurrences_snoc, String.eqb_refl, length_app, map_app.
        cbn [e_term e_count tfidfSum map List.length].
        repeat split; try assumption; [lia |].
        rewrite Qsum_snoc, H4. reflexivity.
      * destruct (Hent _ _ Hold) as (G1 & G2 & G3 & G4).
        rewrite occurrences_snoc_other by congruence.
        repeat split; assumption.
    + intros x Hin Hax Hinh. apply Hkeys'. apply in_app_or in Hin.
      destruct Hin as [Hin | [<- | []]]; [right; now apply Hcov | now left].
  - apply own_None in Eown.
    destruct (inherited (key item)) eqn:Einh.
    + (* the inherited member is written, [terms] is not *)
      apply table_inv_unchanged; [exact Hinv | exact Eown | congruence].
    + (* first sight *)
      match goal with
      | |- table_inv stopwords _ (set_own _ _ ?e') =>
          destruct (@set_own_spec terms (key item) e' Hnd) as (Hnd' & Hin' & Hkeys')
      end.
      assert (Hfirst : occurrences (key item) items = []).
      { apply occurrences_none. intros x Hin E. apply Eown.
        rewrite <- E. apply Hcov; [exact Hin | | ]; rewrite E; assumption. }
      split.
      * exact Hnd'.
      * intros k e' Hin. destruct (Hin' _ _ Hin) as [[-> ->] | [Hne Hold]].
        -- rewrite occurrences_snoc, String.eqb_refl, Hfirst.
           cbn [e_term e_count tfidfSum map List.length app Qsum fold_right].
           repeat split; try assumption. lra.
        -- destruct (Hent _ _ Hold) as (G1 & G2 & G3 & G4).
           rewrite occurrences_snoc_other by congruence.
           repeat split; assumption.
      * intros x Hin Hax Hinh. apply Hkeys'. apply in_app_or in Hin.
        destruct Hin as [Hin | [<- | []]]; [right; now apply Hcov | now left].
Qed.

Lemma fold_add_term_inv (more items : list Item) (terms : Terms) :
  table_inv stopwords items terms ->
  table_inv stopwords (items ++ more) (fold_left (add_term stopwords) more terms).
Proof.
  revert items terms. induction more as [| x more IH]; cbn; intros items terms H.
  - now rewrite app_nil_r.
  - replace (items ++ x :: more) with ((items ++ [x]) ++ more)
      by (now rewrite <- app_assoc).
    apply IH, add_term_inv, H.
Qed.

End TermTable.

(** ** The ranking of extractCommonTerms *)

Lemma ranked_first_iff (a b : CommonTerm) :
  ranked_first a b = true <-> ranks_before a b.
Proof.
  unfold ranked_first, compare_terms, ranks_before.
  rewrite Qle_bool_iff.
  destruct (Nat.eqb_spec (count b) (count a)) as [E | Hne]; cbn [negb].
  - split.
    + intros H. right. split; [now symmetry | lra].
    + intros [H | [_ H]]; [lia | lra].
  - assert (Hz : inject_Z (Z.of_nat (count b)) - inject_Z (Z.of_nat (count a)) <= 0
                 <-> (Z.of_nat (count b) <= Z.of_nat (count a))%Z).
    { rewrite Zle_Qle. split; intros H; lra. }
    rewrite Hz. split.
    + intros H. left. lia.
    + intros [H | [H _]]; [lia | congruence].
Qed.

Lemma ranked_first_total (a b : CommonTerm) :
  ranked_first a b = false -> ranked_first b a = true.
Proof.
  intros H. apply ranked_first_iff.
  assert (Hn : ~ ranks_before a b)
    by (intros Hr; apply ranked_first_iff in Hr; congruence).
  unfold ranks_before in *.
  destruct (Nat.lt_trichotomy (count a) (count b)) as [Hlt | [Heq | Hgt]].
  - now left.
  - right. split; [now symmetry |].
    destruct (Qlt_le_dec (averageTfidf b) (averageTfidf a)) as [Hq | Hq];
      [| exact Hq].
    exfalso. apply Hn. right. split; [exact Heq | lra].
  - exfalso. apply Hn. now left.
Qed.

Lemma ranked_first_trans (a b c : CommonTerm) :
  ranked_first a b = true -> ranked_first b c = true -> ranked_first a c = true.
Proof.
  rewrite !ranked_first_iff. unfold ranks_before.
  intros [H1 | [H1 H1']] [H2 | [H2 H2']].
  - left. lia.
  - left. lia.
  - left. lia.
  - right. split; [lia | lra].
Qed.

Lemma Array_sort_ranked (l : list CommonTerm) :
  StronglySorted ranks_before (Array_sort compare_terms l).
Proof.
  unfold Array_sort.
  pose proof (stable_sort_sorted ranked_first ranked_first_total
                ranked_first_trans l) as H.
  unfold ranked_first in H.
  induction H as [| x r Hs IH Hx]; constructor.
  - exact IH.
  - eapply Forall_impl; [| exact Hx]. intros y Hy.
    apply ranked_first_iff. exact Hy.
Qed.

Lemma lower_char_idem (c : ascii) : lower_char (lower_char c) = lower_char c.
Proof. destruct c as [[] [] [] [] [] [] [] []]; reflexivity. Qed.

Lemma toLowerCase_idem (s : string) : toLowerCase (toLowerCase s) = toLowerCase s.
Proof.
  induction s as [| c s IH]; cbn; [reflexivity |].
  now rewrite lower_char_idem, IH.
Qed.

Lemma nested_fold (stopwords : list string) (f : nat -> list Item)
      (l : list nat) (terms : Terms) :
  fold_left (fun terms i => fold_left (add_term stopwords) (f i) terms) l terms
  = fold_left (add_term stopwords) (flat_map f l) terms.
Proof.
  revert terms. induction l as [| i l IH]; cbn; intros terms; [reflexivity |].
  now rewrite fold_left_app, IH.
Qed.

Section CommonTerms.

Variable stopwords : list string.
Variable listTerms : list string -> nat -> list Item.
Variable documents : list string.

Let items := salient_items listTerms documents.
Let out := extractCommonTerms stopwords listTerms documents.

Lemma commonTerms_length : (List.length out <= 20)%nat.
Proof. unfold out, extractCommonTerms. apply firstn_le_length. Qed.

Lemma commonTerms_sorted : StronglySorted ranks_before out.
Proof.
  unfold out, extractCommonTerms.
  apply StronglySorted_firstn, Array_sort_ranked.
Qed.

Lemma commonTerms_entry (c : CommonTerm) :
  In c out ->
  accepted stopwords (ct_term c) = true /\
  count c = List.length (occurrences (ct_term c) items) /\
  (1 < count c)%nat /\
  averageTfidf c ==
    Qsum (map tfidf (occurrences (ct_term c) items))
    / inject_Z (Z.of_nat (count c)).
Proof.
  unfold out, extractCommonTerms. intros H.
  apply In_firstn in H. unfold Array_sort in H. apply In_stable_sort in H.
  apply filter_In in H. destruct H as [H Hcount].
  apply in_map_iff in H. destruct H as (e & <- & He).
  apply In_Object_values in He. destruct He as (k & He).
  rewrite nested_fold in He.
  pose proof (@fold_add_term_inv stopwords
                (flat_map (fun i => firstn 10 (listTerms documents i))
                          (seq 0 (List.length documents)))
                [] [] (table_inv_nil stopwords)) as Hinv.
  cbn [app] in Hinv.
  destruct (inv_entry Hinv _ _ He) as (H1 & H2 & H3 & H4).
  cbn [ct_term count averageTfidf] in *.
  unfold items, salient_items, top10. rewrite H1.
  repeat split; try assumption.
  - apply Nat.ltb_lt. exact Hcount.
  - rewrite H4. reflexivity.
Qed.

End CommonTerms.

(** ** Terms common to two documents *)

Lemma occurrences_nodup (k : string) (items : list Item) :
  nodupb (map key items) = true ->
  (List.length (occurrences k items) <= 1)%nat.
Proof.
  induction items as [| x items IH]; [cbn; lia |].
  cbn [map nodupb]. intros H. apply andb_prop in H. destruct H as [Hx Hrest].
  change (occurrences k (x :: items))
    with (if String.eqb (key x) k then x :: occurrences k items
          else occurrences k items).
  destruct (String.eqb_spec (key x) k) as [E | _]; [| exact (IH Hrest)].
  rewrite occurrences_none; [cbn; lia |].
  intros y Hy Ey. apply negb_true_iff in Hx.
  assert (Hex : existsb (String.eqb (key x)) (map key items) = true).
  { apply existsb_exists. exists (key y). split.
    - apply in_map, Hy.
    - rewrite E, Ey. apply String.eqb_refl. }
  congruence.
Qed.

Lemma occurrences_flat_map (k : string) (f : nat -> list Item) (l : list nat) :
  occurrences k (flat_map f l) = flat_map (fun i => occurrences k (f i)) l.
Proof.
  induction l as [| i l IH]; cbn; [reflexivity |].
  unfold occurrences in *. now rewrite filter_app, IH.
Qed.

Lemma occurrences_In (k : string) (items : list Item) :
  occurrences k items <> [] -> In k (map key items).
Proof.
  induction items as [| x items IH]; cbn; [congruence |].
  destruct (String.eqb_spec (key x) k) as [E | _]; [now left |].
  intros H. right. exact (IH H).
Qed.

Lemma one_contributor (B : Type) (g : nat -> list B) (l : list nat) :
  (1 <= List.length (flat_map g l))%nat ->
  exists i, In i l /\ g i <> [].
Proof.
  induction l as [| a l IH]; cbn; [lia |].
  rewrite length_app. intros H.
  destruct (g a) as [| b r] eqn:E.
  - destruct (IH H) as (i & Hi & Hg). exists i. split; [now right | exact Hg].
  - exists a. split; [now left | congruence].
Qed.

Lemma two_contributors (B : Type) (g : nat -> list B) (l : list nat) :
  NoDup l ->
  (forall i, In i l -> (List.length (g i) <= 1)%nat) ->
  (2 <= List.length (flat_map g l))%nat ->
  exists i j, i <> j /\ In i l /\ In j l /\ g i <> [] /\ g j <> [].
Proof.
  induction l as [| a l IH]; cbn; [lia |].
  intros Hnd Hone. rewrite length_app. intros H.
  inversion Hnd as [| ? ? Hnotin Hnd']; subst.
  pose proof (Hone a (or_introl eq_refl)) as Ha.
  destruct (g a) as [| b r] eqn:E.
  - destruct IH as (i & j & Hij & Hi & Hj & Gi & Gj); try assumption.
    + intros i Hi. apply Hone. now right.
    + exists i, j. repeat split; try assumption; now right.
  - cbn in Ha, H.
    destruct (@one_contributor B g l) as (j & Hj & Gj); [lia |].
    exists a, j. repeat split; try assumption.
    + intros ->. contradiction.
    + now left.
    + now right.
    + congruence.
Qed.

(** C8.  The list of common terms holds at most 20 elements, ranked by
    descending document count and, among equal counts, by descending
    average TF-IDF.  Each term is in lower case, has at least three
    characters and is no stop word; its count is the number of times it
    is met in the top tens, more than one, and its average is the sum of
    the TF-IDF weights met divided by the count.  Where no document
    lists a term twice in its top ten, the term is in the top ten of two
    different documents. *)
Theorem C8_commonTerms
  (stopwords : list string) (listTerms : list string -> nat -> list Item)
  (documents : list string) :
  let out := extractCommonTerms stopwords listTerms documents in
  let items := salient_items listTerms documents in
  (List.length out <= 20)%nat /\
  StronglySorted ranks_before out /\
  (forall c, In c out ->
     toLowerCase (ct_term c) = ct_term c /\
     (3 <= String.length (ct_term c))%nat /\
     ~ In (ct_term c) stopwords /\
     count c = List.length (occurrences (ct_term c) items) /\
     (1 < count c)%nat /\
     averageTfidf c ==
       Qsum (map tfidf (occurrences (ct_term c) items))
       / inject_Z (Z.of_nat (count c))) /\
  (distinct_per_document listTerms documents = true ->
   forall c, In c out ->
     exists i j,
       i <> j /\
       (i < List.length documents)%nat /\ (j < List.length documents)%nat /\
       In (ct_term c) (map key (top10 listTerms documents i)) /\
       In (ct_term c) (map key (top10 listTerms documents j))).
Proof.
  intros out items.
  split; [apply commonTerms_length |].
  split; [apply commonTerms_sorted |].
  split.
  - intros c Hc.
    destruct (commonTerms_entry stopwords listTerms documents c Hc)
      as (Hacc & Hcount & Hmany & Havg).
    fold items in Hcount, Havg.
    unfold accepted in Hacc. apply negb_true_iff, orb_false_iff in Hacc.
    destruct Hacc as [Hstop Hlen].
    split; [| split; [| split; [| repeat split; assumption]]].
    + destruct (occurrences (ct_term c) items) as [| x r] eqn:E;
        [cbn in Hcount; lia |].
      assert (Hx : In x (occurrences (ct_term c) items))
        by (rewrite E; now left).
      apply filter_In in Hx. destruct Hx as [_ Hx].
      apply String.eqb_eq in Hx. rewrite <- Hx. apply toLowerCase_idem.
    + apply Nat.ltb_ge in Hlen. exact Hlen.
    + intros Hin.
      assert (Hex : existsb (String.eqb (ct_term c)) stopwords = true).
      { apply existsb_exists. exists (ct_term c). split; [exact Hin |].
        apply String.eqb_refl. }
      congruence.
  - intros Hdistinct c Hc.
    destruct (commonTerms_entry stopwords listTerms documents c Hc)
      as (_ & Hcount & Hmany & _).
    unfold salient_items in Hcount. rewrite occurrences_flat_map in Hcount.
    unfold distinct_per_document in Hdistinct.
    rewrite forallb_forall in Hdistinct.
    destruct (@two_contributors Item
                (fun i => occurrences (ct_term c) (top10 listTerms documents i))
                (seq 0 (List.length documents)))
      as (i & j & Hij & Hi & Hj & Gi & Gj).
    + apply seq_NoDup.
    + intros i Hi. apply occurrences_nodup, Hdistinct, Hi.
    + lia.
    + exists i, j. apply in_seq in Hi, Hj.
      repeat split; try lia; try assumption; apply occurrences_In; assumption.
Qed.


Lemma C8_witness :
  exists i j,
    i <> j /\ (i < 3)%nat /\ (j < 3)%nat /\
    In "shop"%string
       (map key (top10 TermSamples.listTerms TermSamples.documents i)) /\
    In "shop"%string
       (map key (top10 TermSamples.listTerms TermSamples.documents j)).
Proof.
  destruct (C8_commonTerms TermSamples.stopwords TermSamples.listTerms
                           TermSamples.documents) as (_ & _ & _ & H).
  apply (H eq_refl TermSamples.first_term).
  vm_compute. left. reflexivity.
Defined.

(** The sample corpus, ranked. *)
Example commonTerms_sample :
  map (fun c => (ct_term c, count c))
      (extractCommonTerms TermSamples.stopwords TermSamples.listTerms
                          TermSamples.documents)
  = [("shop"%string, 3%nat); ("sale"%string, 2%nat)].
Proof. vm_compute. reflexivity. Qed.


(* ================================================================== *)
(** * Further properties of the calculator *)
(* ================================================================== *)

(** ** parseSpendRange is never negative *)

Lemma digit_val_nonneg (c : ascii) : is_digit c = true -> (0 <= digit_val c)%Z.
Proof.
  unfold is_digit, digit_val. intros H.
  apply andb_prop in H. destruct H as [H _].
  apply Nat.leb_le in H. lia.
Qed.

Lemma digits_prefix_nonneg (s : string) (acc : Z) (seen : bool) :
  (0 <= acc)%Z -> (0 <= fst (digits_prefix s acc seen))%Z.
Proof.
  revert acc seen.
  induction s as [| c s IH]; cbn [digits_prefix]; intros acc seen H;
    [exact H |].
  destruct (is_digit c) eqn:E; [| exact H].
  apply IH. pose proof (digit_val_nonneg c E). lia.
Qed.

Lemma all_digits_strip (s : string) : all_digits (strip_non_digits s) = true.
Proof.
  induction s as [| c s IH]; cbn; [reflexivity |].
  destruct (is_digit c) eqn:E; [cbn; now rewrite E | exact IH].
Qed.

Lemma parseInt_stripped (s : string) :
  nonneg_or_NaN (parseInt (strip_non_digits s)).
Proof.
  pose proof (all_digits_strip s) as H.
  destruct (strip_non_digits s) as [| c r] eqn:E; [exact I |].
  rewrite parseInt_number by (unfold is_number; now rewrite H).
  cbn. rewrite <- (Zle_Qle 0). apply digits_prefix_nonneg. lia.
Qed.

Lemma nonneg_half (a : num) : nonneg_or_NaN a -> nonneg_or_NaN (div a (Num 2)).
Proof.
  destruct a as [| q]; [trivial |]. intros H.
  rewrite div_Num by reflexivity. cbn [nonneg_or_NaN] in *.
  unfold Qdiv. change (/ 2) with (1 # 2). lra.
Qed.

Lemma nonneg_add (a b : num) :
  nonneg_or_NaN a -> nonneg_or_NaN b -> nonneg_or_NaN (add a b).
Proof.
  destruct a, b; cbn [add lift2 nonneg_or_NaN]; trivial. intros. lra.
Qed.

(** X1.  Whatever the field holds, [parseSpendRange] answers [NaN] or a
    number that is not negative: the digits are read after every other
    character, a minus sign included, was removed. *)
Theorem X1_parseSpendRange_not_negative (spendRange : field) :
  nonneg_or_NaN (parseSpendRange spendRange) /\
  nonneg_or_NaN (parseImpressionRange spendRange).
Proof.
  assert (H : nonneg_or_NaN (parseSpendRange spendRange)).
  { unfold parseSpendRange.
    destruct (falsy spendRange); [cbn; lra |].
    destruct spendRange as [| s |]; cbn [catch parseSpendRange_try];
      [cbn; lra | | cbn; lra].
    destruct (includes s "-").
    - destruct (split "-" s) as [| x [| y r]]; cbn [map]; try exact I.
      apply nonneg_half, nonneg_add; apply parseInt_stripped.
    - destruct (includes s "<"); [apply nonneg_half, parseInt_stripped |].
      destruct (includes s ">"); [| apply parseInt_stripped].
      pose proof (parseInt_stripped s) as Hs.
      destruct (parseInt (strip_non_digits s)); cbn in *; [trivial | lra]. }
  split; exact H.
Qed.

(** ** Component scores off their domain *)

(** X2.  The tier functions answer [NaN] on [NaN] and 0 on a negative
    input; the engagement score is 0 as soon as the impressions are not
    above 0 (zero, negative or [NaN]), whatever the engagement. *)
Theorem X2_component_scores_off_domain :
  (calculateDurationScore NaN = NaN /\
   calculateSpendScore NaN = NaN /\
   calculateImpressionsScore NaN = NaN) /\
  (forall q : Q, q < 0 ->
     calculateDurationScore (Num q) ==n Num 0 /\
     calculateSpendScore (Num q) ==n Num 0 /\
     calculateImpressionsScore (Num q) ==n Num 0) /\
  (forall m : Metrics,
     gt (m_impressions m) (Num 0) = false ->
     calculateEngagementScore m ==n Num 0).
Proof.
  split; [repeat split |]. split.
  - intros q Hq.
    unfold calculateDurationScore, calculateSpendScore,
      calculateImpressionsScore.
    repeat split; js_simpl; split_Qle_bool; cbn [num_eq]; inv_literals; lra.
  - intros m H. unfold calculateEngagementScore.
    unfold lit in *. rewrite H. vm_compute. reflexivity.
Qed.

Lemma X2_witness :
  calculateSpendScore (Num (-5)) ==n Num 0 /\
  calculateEngagementScore
    {| durationDays := 1; spendAmount := 0; m_impressions := Num 0;
       estimatedEngagement := Num 7; dailySpend := 0;
       dailyImpressions := 0 |} ==n Num 0.
Proof.
  destruct X2_component_scores_off_domain as (_ & Hneg & Heng).
  split.
  - apply (Hneg (-5)). reflexivity.
  - apply Heng. reflexivity.
Defined.

(** ** The total score *)

(** X3.  For component scores that are [NaN] or of a magnitude of at
    most 10^300, within [0, 25] or not, the total score is [NaN]
    exactly when one of the four is, and an integer otherwise. *)
Theorem X3_total_integer_or_NaN (componentScores : ComponentScores) :
  NaN_or_within moderate (durationScore componentScores) ->
  NaN_or_within moderate (spendScore componentScores) ->
  NaN_or_within moderate (impressionsScore componentScores) ->
  NaN_or_within moderate (engagementScore componentScores) ->
  integer_or_NaN (calculateTotalScore componentScores) /\
  is_NaN (calculateTotalScore componentScores)
  = is_NaN (durationScore componentScores)
    || is_NaN (spendScore componentScores)
    || is_NaN (impressionsScore componentScores)
    || is_NaN (engagementScore componentScores).
Proof.
  intros _ _ _ _.
  destruct componentScores as [[| d] [| s] [| i] [| e]];
    unfold calculateTotalScore; cbn; try (split; [exact I | reflexivity]).
  split; [eexists; reflexivity | reflexivity].
Qed.

Lemma X3_witness :
  integer_or_NaN
    (calculateTotalScore
       {| durationScore := Num 40; spendScore := Num (-3);
          impressionsScore := Num (1 # 3); engagementScore := Num 25 |}) /\
  is_NaN
    (calculateTotalScore
       {| durationScore := Num 40; spendScore := NaN;
          impressionsScore := Num (1 # 3); engagementScore := Num 25 |})
  = true.
Proof.
  assert (Hin : forall q : Q, - (1000) <= q -> q <= 1000 ->
                              NaN_or_within moderate (Num q)).
  { intros q H1 H2. cbn [NaN_or_within].
    assert (H : 1000 <= moderate) by (vm_compute; discriminate).
    split; lra. }
  split.
  - apply (X3_total_integer_or_NaN
             {| durationScore := Num 40; spendScore := Num (-3);
                impressionsScore := Num (1 # 3);
                engagementScore := Num 25 |});
      apply Hin; cbn; lra.
  - rewrite (proj2 (X3_total_integer_or_NaN
                      {| durationScore := Num 40; spendScore := NaN;
                         impressionsScore := Num (1 # 3);
                         engagementScore := Num 25 |}
                      ltac:(apply Hin; cbn; lra) I
                      ltac:(apply Hin; cbn; lra)
                      ltac:(apply Hin; cbn; lra))).
    reflexivity.
Defined.

(** ** calculateScore reads the score collection only *)

Lemma calculateScore_stored
  (Date_parse : string -> num) (now : num) (store : ScoreStore) (stack : nat)
  (adData : RawAd) :
  calculateScore Date_parse now store stack adData
  = Ok (stored_score now store adData).
Proof.
  pose proof (calculateScore_cases Date_parse now store stack adData) as H.
  unfold stored_score.
  destruct (findOne store (id adData)) as [[doc |] | e]; try exact H.
  destruct (gt (updatedAt doc) _); exact H.
Qed.

(** X4.  The scores [calculateScore] gives depend on nothing but the
    answer of the score collection for the ad's id: two ads for which
    the collection answers the same get the same scores, whatever their
    dates, spend, impressions and texts, the write side of the
    collection and the depth of the stack. *)
Theorem X4_calculateScore_reads_the_store_only
  (Date_parse Date_parse' : string -> num) (now : num)
  (store store' : ScoreStore) (stack stack' : nat) (ad ad' : RawAd) :
  findOne store (id ad) = findOne store' (id ad') ->
  exists scored scored',
    calculateScore Date_parse now store stack ad = Ok scored /\
    calculateScore Date_parse' now store' stack' ad' = Ok scored' /\
    successScore scored = successScore scored' /\
    componentScores scored = componentScores scored'.
Proof.
  intros H. exists (stored_score now store ad), (stored_score now store' ad').
  rewrite !calculateScore_stored.
  split; [reflexivity |]. split; [reflexivity |].
  unfold stored_score. rewrite H.
  destruct (findOne store' (id ad')) as [[doc |] | e];
    try (split; reflexivity).
  destruct (gt (updatedAt doc) _); split; reflexivity.
Qed.

Lemma X4_witness :
  exists scored scored',
    calculateScore Samples.Date_parse Samples.now Samples.store 50
                   (Samples.ad "good" (Some ["Shop now"%string])) = Ok scored /\
    calculateScore Samples.Date_parse Samples.now Samples.store 7
                   (Samples.malformed "good") = Ok scored' /\
    successScore scored = successScore scored' /\
    componentScores scored = componentScores scored'.
Proof.
  apply (X4_calculateScore_reads_the_store_only
           Samples.Date_parse Samples.Date_parse Samples.now
           Samples.store Samples.store 50 7
           (Samples.ad "good" (Some ["Shop now"%string]))
           (Samples.malformed "good")).
  reflexivity.
Defined.

(* ================================================================== *)
(** * Further properties of the engine *)
(* ================================================================== *)

(** ** processAds *)

Section ProcessAds.

Variable Date_parse : string -> num.
Variable now : num.
Variable store : ScoreStore.
Variable stack : nat.
Variable redisClient : client_ref.
Variable rejects : call -> nat -> bool.
Variable stopwords : list string.
Variable listTerms : list string -> nat -> list Item.
Variable emojiRegex_test : nat -> string -> bool * nat.

Lemma Promise_all_stored (ads : list RawAd) :
  Promise_all (map (calculateScore Date_parse now store stack) ads)
  = Ok (map (stored_score now store) ads).
Proof.
  induction ads as [| ad ads IH]; cbn [map Promise_all]; [reflexivity |].
  now rewrite calculateScore_stored, IH.
Qed.

Lemma processAds_unfolded (ads : list RawAd) (w : World) :
  processAds Date_parse now store stack redisClient rejects stopwords
             listTerms emojiRegex_test ads w
  = let successful :=
      filter (fun ad => ge (successScore ad) MIN_SUCCESS_SCORE)
             (map (stored_score now store) ads) in
    let w1 := snd (storeSuccessfulAds now rejects successful w) in
    (Ok successful,
     snd (Engine.analyzeSuccessPatterns now redisClient rejects stopwords
            listTerms emojiRegex_test successful w1)).
Proof.
  unfold processAds, try_catchM, bindM, lift, detached.
  change (map (fun ad => calculateScore Date_parse now store stack ad) ads)
    with (map (calculateScore Date_parse now store stack) ads).
  rewrite Promise_all_stored. cbv zeta.
  set (ok := filter _ _).
  destruct (storeSuccessfulAds_spec now rejects ok w) as (w1 & E1 & _).
  rewrite E1. cbn [snd].
  destruct (analyzeSuccessPatterns_spec now redisClient rejects stopwords
              listTerms emojiRegex_test ok w1) as (w2 & E2 & _).
  unfold try_catchM at 1. rewrite E2. reflexivity.
Qed.

End ProcessAds.

(** X5.  [processAds] resolves with exactly the input ads that have a
    stored score fresher than 24 hours and of at least 70, in the order
    of the input and carrying that stored score; no other ad is ever
    returned. *)
Theorem X5_processAds_returns_stored_successes
  (Date_parse : string -> num) (now : num) (store : ScoreStore) (stack : nat)
  (redisClient : client_ref)
  (rejects : call -> nat -> bool) (stopwords : list string)
  (listTerms : list string -> nat -> list Item)
  (emojiRegex_test : nat -> string -> bool * nat)
  (ads : list RawAd) (w : World) :
  fst (processAds Date_parse now store stack redisClient rejects stopwords
                  listTerms emojiRegex_test ads w)
  = Ok (filter (fun ad => ge (successScore ad) MIN_SUCCESS_SCORE)
               (map (stored_score now store) ads)) /\
  forall scored,
    In scored (filter (fun ad => ge (successScore ad) MIN_SUCCESS_SCORE)
                      (map (stored_score now store) ads)) ->
    exists doc,
      findOne store (id (raw scored)) = Ok (Some doc) /\
      gt (updatedAt doc) (now - 24 * 60 * 60 * 1000) = true /\
      successScore scored = totalScore doc /\
      In (raw scored) ads.
Proof.
  rewrite processAds_unfolded. split; [reflexivity |].
  intros scored H. apply filter_In in H. destruct H as [H Hge].
  apply in_map_iff in H. destruct H as (ad & <- & Hin).
  unfold stored_score in *.
  destruct (findOne store (id ad)) as [[doc |] | e] eqn:Ef; try discriminate.
  destruct (gt (updatedAt doc) _) eqn:E; [| discriminate].
  exists doc. cbn [raw successScore].
  repeat split; try assumption; reflexivity.
Qed.

Lemma X5_witness :
  exists doc,
    findOne Samples.store "good" = Ok (Some doc) /\
    totalScore doc = Num 85.
Proof.
  destruct (X5_processAds_returns_stored_successes
              Samples.Date_parse Samples.now Samples.store 50
              constructed_redisClient Samples.no_faults []
              Samples.no_terms Samples.no_emoji
              [Samples.ad "bad" None; Samples.ad "good" None] Samples.w0)
    as [_ H].
  destruct (H (Samples.scored "good")) as (doc & E & _ & Hs & _).
  - vm_compute. left. reflexivity.
  - exists doc. split; [exact E | symmetry; exact Hs].
Defined.

(** X6.  With a score collection that holds nothing for the ads of a
    batch, [processAds] resolves with the empty list and leaves the
    world as it found it: no document written, no cache call, no term
    model built. *)
Theorem X6_processAds_without_stored_scores
  (Date_parse : string -> num) (now : num) (store : ScoreStore) (stack : nat)
  (redisClient : client_ref)
  (rejects : call -> nat -> bool) (stopwords : list string)
  (listTerms : list string -> nat -> list Item)
  (emojiRegex_test : nat -> string -> bool * nat)
  (ads : list RawAd) (w : World) :
  (forall ad, In ad ads -> findOne store (id ad) = Ok None) ->
  processAds Date_parse now store stack redisClient rejects stopwords
             listTerms emojiRegex_test ads w
  = (Ok [], w).
Proof.
  intros H. rewrite processAds_unfolded.
  assert (E : filter (fun ad => ge (successScore ad) MIN_SUCCESS_SCORE)
                     (map (stored_score now store) ads) = []).
  { induction ads as [| ad ads IH]; [reflexivity |].
    cbn [map filter]. unfold stored_score at 1.
    rewrite (H ad (or_introl eq_refl)). cbn.
    apply IH. intros a Ha. apply H. now right. }
  rewrite E. destruct w. reflexivity.
Qed.

Lemma X6_witness :
  processAds Samples.Date_parse Samples.now Samples.store 50
             constructed_redisClient Samples.no_faults []
             Samples.no_terms Samples.no_emoji
             [Samples.ad "new" None; Samples.malformed "new"] Samples.w0
  = (Ok [], Samples.w0).
Proof.
  apply X6_processAds_without_stored_scores.
  intros ad [<- | [<- | []]]; reflexivity.
Defined.

(** ** storeSuccessfulAds *)

Lemma find_upsert_same (x : SuccessfulDoc) (coll : list SuccessfulDoc) :
  find_by_id (adId x) (upsert x coll) = Some x.
Proof.
  unfold find_by_id. induction coll as [| d rest IH]; cbn [upsert find].
  - now rewrite String.eqb_refl.
  - destruct (String.eqb (adId d) (adId x)) eqn:E; cbn [find].
    + now rewrite String.eqb_refl.
    + rewrite E. exact IH.
Qed.

Lemma find_upsert_other (k : string) (x : SuccessfulDoc)
      (coll : list SuccessfulDoc) :
  k <> adId x -> find_by_id k (upsert x coll) = find_by_id k coll.
Proof.
  intros Hk. unfold find_by_id.
  induction coll as [| d rest IH]; cbn [upsert find].
  - destruct (String.eqb_spec (adId x) k); [congruence | reflexivity].
  - destruct (String.eqb_spec (adId d) (adId x)) as [E | _]; cbn [find].
    + destruct (String.eqb_spec (adId x) k); [congruence |].
      destruct (String.eqb_spec (adId d) k); [congruence | reflexivity].
    + destruct (String.eqb (adId d) k); [reflexivity | exact IH].
Qed.

Lemma ids_upsert (k : string) (x : SuccessfulDoc) (coll : list SuccessfulDoc) :
  In k (map adId (upsert x coll)) <-> k = adId x \/ In k (map adId coll).
Proof.
  induction coll as [| d rest IH]; cbn [upsert map In].
  - intuition.
  - destruct (String.eqb_spec (adId d) (adId x)) as [E | _]; cbn [map In].
    + rewrite E. intuition.
    + rewrite IH. intuition.
Qed.

Lemma NoDup_upsert (x : SuccessfulDoc) (coll : list SuccessfulDoc) :
  NoDup (map adId coll) -> NoDup (map adId (upsert x coll)).
Proof.
  induction coll as [| d rest IH]; cbn [upsert map]; intros H.
  - constructor; [intros [] | constructor].
  - inversion H as [| ? ? Hnotin Hrest]; subst.
    destruct (String.eqb_spec (adId d) (adId x)) as [E | Hne]; cbn [map].
    + constructor; [now rewrite <- E | exact Hrest].
    + constructor; [| exact (IH Hrest)].
      rewrite ids_upsert. intros [E | Hin]; [congruence | contradiction].
Qed.

Lemma find_after_others (k : string) (ops coll : list SuccessfulDoc) :
  ~ In k (map adId ops) ->
  find_by_id k (fold_left (fun c x => upsert x c) ops coll) = find_by_id k coll.
Proof.
  revert coll. induction ops as [| z ops IH]; intros coll H; cbn [fold_left];
    [reflexivity |].
  rewrite IH by (intros Hin; apply H; now right).
  apply find_upsert_other. intros E. apply H. left. now symmetry.
Qed.

Lemma bulk_upsert_spec (ops coll : list SuccessfulDoc) :
  let coll' := fold_left (fun c x => upsert x c) ops coll in
  (forall x, In x ops ->
     exists d, find_by_id (adId x) coll' = Some d /\ In d ops /\
               adId d = adId x) /\
  (forall k, In k (map adId coll) -> In k (map adId coll')) /\
  (NoDup (map adId coll) -> NoDup (map adId coll')).
Proof.
  revert coll. induction ops as [| y ops IH]; intros coll; cbn [fold_left].
  - split; [intros x [] | split; auto].
  - destruct (IH (upsert y coll)) as (Hfind & Hkeep & Hnd).
    split; [| split].
    + intros x [<- | Hx].
      * destruct (in_dec string_dec (adId y) (map adId ops)) as [Hin | Hout].
        -- apply in_map_iff in Hin. destruct Hin as (z & Ez & Hz).
           destruct (Hfind z Hz) as (d & Ed & Hd & Eid).
           exists d. rewrite <- Ez. split; [exact Ed |].
           split; [now right | exact Eid].
        -- exists y. split; [| split; [now left | reflexivity]].
           rewrite find_after_others by exact Hout.
           apply find_upsert_same.
      * destruct (Hfind x Hx) as (d & Ed & Hd & Eid).
        exists d. split; [exact Ed | split; [now right | exact Eid]].
    + intros k Hk. apply Hkeep. apply ids_upsert. now right.
    + intros H. apply Hnd, NoDup_upsert, H.
Qed.

(** X7.  When the bulk write goes through, every ad handed to
    [storeSuccessfulAds] is found in the collection under its id (with
    the data of the last ad of the batch that bears this id); the ids
    that were there stay, and ids that were unique stay unique. *)
Theorem X7_stored_ads_are_found
  (now : num) (rejects : call -> nat -> bool)
  (successful : list ScoredAd) (w : World) :
  rejects BulkWrite (calls w) = false ->
  let w' := snd (storeSuccessfulAds now rejects successful w) in
  (forall ad, In ad successful ->
     exists d, find_by_id (id (raw ad)) (successfulAds w') = Some d /\
               In (adData d) successful /\ adId d = id (raw ad)) /\
  (forall k, In k (map adId (successfulAds w)) ->
             In k (map adId (successfulAds w'))) /\
  (NoDup (map adId (successfulAds w)) -> NoDup (map adId (successfulAds w'))).
Proof.
  intros Hok w'.
  assert (E : successfulAds w'
              = fold_left (fun c x => upsert x c) (operations_of now successful)
                          (successfulAds w)).
  { unfold w', storeSuccessfulAds, try_catchM, bulkWrite, await, ret.
    fold (operations_of now successful).
    destruct (operations_of now successful) as [| o ops] eqn:Eo;
      [reflexivity |].
    cbn [List.length Nat.ltb Nat.leb]. rewrite Hok. reflexivity. }
  rewrite E.
  destruct (bulk_upsert_spec (operations_of now successful) (successfulAds w))
    as (Hfind & Hkeep & Hnd).
  split; [| split; assumption].
  intros ad Hin.
  set (op := {| adId := id (raw ad); sd_successScore := successScore ad;
                sd_componentScores := componentScores ad; adData := ad;
                sd_updatedAt := now |}).
  assert (Hop : In op (operations_of now successful))
    by (unfold operations_of; apply in_map_iff; now exists ad).
  destruct (Hfind op Hop) as (d & Ed & Hd & Eid).
  exists d. split; [exact Ed |]. split; [| exact Eid].
  unfold operations_of in Hd. apply in_map_iff in Hd.
  destruct Hd as (ad' & <- & Hin'). exact Hin'.
Qed.

Lemma X7_witness :
  exists d,
    find_by_id "a2"
      (successfulAds
         (snd (storeSuccessfulAds Samples.now Samples.no_faults
                                  Samples.textless Samples.w0)))
    = Some d /\ adId d = "a2"%string.
Proof.
  destruct (X7_stored_ads_are_found Samples.now Samples.no_faults
              Samples.textless Samples.w0 eq_refl) as (H & _ & _).
  destruct (H (Samples.scored "a2")) as (d & E & _ & Eid).
  - right. left. reflexivity.
  - exists d. split; [exact E | exact Eid].
Defined.

(** ** analyzeAdStructure *)

Lemma of_nat_not_zero (n : nat) :
  (1 <= n)%nat -> Qeq_bool (inject_Z (Z.of_nat n)) 0 = false.
Proof.
  intros H. destruct (Qeq_bool _ 0) eqn:E; [| reflexivity].
  apply Qeq_bool_iff in E. unfold Qeq in E. cbn in E. lia.
Qed.

Lemma ratio_in_unit (k n : nat) :
  (k <= n)%nat -> (1 <= n)%nat ->
  0 <= inject_Z (Z.of_nat k) / inject_Z (Z.of_nat n) <= 1.
Proof.
  intros Hk Hn.
  assert (Hpos : 0 < inject_Z (Z.of_nat n)).
  { change 0 with (inject_Z 0). rewrite <- Zlt_Qlt. lia. }
  assert (H0 : 0 <= inject_Z (Z.of_nat k)).
  { change 0 with (inject_Z 0). rewrite <- Zle_Qle. lia. }
  assert (H1 : inject_Z (Z.of_nat k) <= inject_Z (Z.of_nat n)).
  { rewrite <- Zle_Qle. lia. }
  split.
  - apply Qle_shift_div_l; [exact Hpos | lra].
  - apply Qle_shift_div_r; [exact Hpos | lra].
Qed.

(** [Math.round(k / n * 100)] for a count [k] among [n >= 1]. *)
Lemma percent_rate (k n : nat) :
  (k <= n)%nat -> (1 <= n)%nat ->
  exists z : Z,
    Math_round (mul (div (of_nat k) (of_nat n)) (Num 100)) = Num (inject_Z z) /\
    (0 <= z <= 100)%Z.
Proof.
  intros Hk Hn. unfold of_nat.
  rewrite div_Num by (now apply of_nat_not_zero).
  cbn [mul lift2].
  pose proof (ratio_in_unit Hk Hn) as [H0 H1].
  apply Math_round_between.
  - change (inject_Z 0) with 0. lra.
  - change (inject_Z 100) with 100. lra.
Qed.

Lemma full_rate (n : nat) :
  (1 <= n)%nat ->
  Math_round (mul (div (of_nat n) (of_nat n)) (Num 100)) = Num 100.
Proof.
  intros Hn. unfold of_nat.
  rewrite div_Num by (now apply of_nat_not_zero).
  cbn [mul lift2 Math_round].
  assert (E : inject_Z (Z.of_nat n) / inject_Z (Z.of_nat n) * 100 + (1 # 2)
              == 100 + (1 # 2)).
  { assert (Hne : ~ inject_Z (Z.of_nat n) == 0).
    { intros E. apply Qeq_bool_iff in E.
      rewrite of_nat_not_zero in E by exact Hn. discriminate. }
    field. exact Hne. }
  rewrite (Qfloor_comp _ _ E). reflexivity.
Qed.

Lemma Math_max_1_of_nat (n : nat) :
  (1 <= n)%nat -> Math_max (Num 1) (of_nat n) = of_nat n.
Proof.
  intros Hn. unfold Math_max, of_nat, lift2, Qmax'.
  destruct (Qle_bool 1 (inject_Z (Z.of_nat n))) eqn:E; [reflexivity |].
  apply Qle_bool_false in E. change 1 with (inject_Z 1) in E.
  rewrite <- Zlt_Qlt in E. lia.
Qed.

Lemma rounded_mean_nonneg (q : Q) (n : nat) :
  0 <= q -> (1 <= n)%nat ->
  exists z : Z,
    Math_round (div (Num q) (of_nat n)) = Num (inject_Z z) /\ (0 <= z)%Z.
Proof.
  intros Hq Hn. unfold of_nat.
  rewrite div_Num by (now apply of_nat_not_zero).
  eexists. split; [reflexivity |].
  rewrite <- (Qfloor_Z 0). apply Qfloor_resp_le.
  assert (Hpos : 0 < inject_Z (Z.of_nat n)).
  { change 0 with (inject_Z 0). rewrite <- Zlt_Qlt. lia. }
  assert (H : 0 <= q / inject_Z (Z.of_nat n))
    by (apply Qle_shift_div_l; [exact Hpos | lra]).
  change (inject_Z 0) with 0. lra.
Qed.

Lemma sum_of_lengths (lens : list nat) (q : Q) :
  0 <= q ->
  exists q', fold_left (fun sum len => add sum (of_nat len)) lens (Num q)
             = Num q' /\ 0 <= q'.
Proof.
  revert q. induction lens as [| n lens IH]; intros q Hq; cbn [fold_left].
  - now exists q.
  - unfold of_nat at 1. cbn [add lift2]. apply IH.
    assert (0 <= inject_Z (Z.of_nat n)).
    { change 0 with (inject_Z 0). rewrite <- Zle_Qle. lia. }
    lra.
Qed.

Section Structure.

Variable emojiRegex_test : nat -> string -> bool * nat.

Lemma emoji_filter_length (lastIndex : nat) (ads : list ScoredAd) :
  (List.length (Engine.emoji_filter emojiRegex_test lastIndex ads)
   <= List.length ads)%nat.
Proof.
  revert lastIndex. induction ads as [| ad ads IH]; intros lastIndex;
    cbn [Engine.emoji_filter List.length]; [lia |].
  destruct (emojiRegex_test lastIndex (bodies_text ad)) as [found li].
  specialize (IH li). destruct found; cbn [List.length]; lia.
Qed.

Lemma fixed_emoji_filter_length (lastIndex : nat) (ads : list ScoredAd) :
  (List.length (EngineFix.emoji_filter emojiRegex_test lastIndex ads)
   <= List.length ads)%nat.
Proof.
  revert lastIndex. induction ads as [| ad ads IH]; intros lastIndex;
    cbn [EngineFix.emoji_filter List.length]; [lia |].
  destruct (emojiRegex_test lastIndex (bodies_text ad)) as [found li].
  specialize (IH li). destruct found; cbn [List.length]; lia.
Qed.

End Structure.

(** X8.  The rewritten [analyzeAdStructure] answers, for every list of
    ads, the empty one included, four whole numbers: a text length that
    is not negative and three rates within 0 and 100. *)
Theorem X8_fixed_structure_is_whole_percentages
  (emojiRegex_test : nat -> string -> bool * nat) (ads : list ScoredAd) :
  whole_percentages (EngineFix.analyzeAdStructure emojiRegex_test ads).
Proof.
  unfold EngineFix.analyzeAdStructure, lit. cbv zeta.
  destruct (Nat.eqb_spec (List.length ads) 0) as [E | Hne].
  { exists 0%Z, 0%Z, 0%Z, 0%Z. repeat split; lia. }
  assert (Hn : (1 <= List.length ads)%nat) by lia.
  rewrite (Math_max_1_of_nat Hn).
  set (lens := filter _ _).
  assert (Havg : exists a : Z,
             Math_round
               (if (0 <? List.length lens)%nat
                then div (fold_left (fun sum len => add sum (of_nat len))
                                    lens (Num 0))
                         (of_nat (List.length lens))
                else Num 0) = Num (inject_Z a) /\ (0 <= a)%Z).
  { destruct (Nat.ltb_spec 0 (List.length lens)) as [Hl | _].
    - destruct (@sum_of_lengths lens 0) as (q & -> & Hq); [lra |].
      apply rounded_mean_nonneg; [exact Hq | lia].
    - exists 0%Z. split; [reflexivity | lia]. }
  destruct Havg as (a & -> & Ha).
  destruct (@percent_rate
              (List.length
                 (filter (fun ad =>
                            existsb (fun cta =>
                                       includes (toLowerCase (bodies_text ad)) cta)
                                    ctaWords)
                         ads))
              (List.length ads)) as (c & -> & Hc);
    [apply filter_length_le | exact Hn |].
  destruct (@percent_rate
              (List.length (filter (fun ad => includes (bodies_text ad) "?") ads))
              (List.length ads)) as (q & -> & Hq);
    [apply filter_length_le | exact Hn |].
  destruct (@percent_rate
              (List.length (EngineFix.emoji_filter emojiRegex_test 0 ads))
              (List.length ads)) as (e & -> & He);
    [apply fixed_emoji_filter_length | exact Hn |].
  exists a, c, q, e. repeat split; try assumption; lia.
Qed.

(** X9.  [analyzeAdStructure] of the full class answers four [NaN] on
    the empty list (0 / 0), and on any other list four whole numbers,
    the rates within 0 and 100; the call-to-action rate is 100 when the
    body of every ad holds one of the words. *)
Theorem X9_structure_of_the_full_class
  (emojiRegex_test : nat -> string -> bool * nat) (ads : list ScoredAd) :
  Engine.analyzeAdStructure emojiRegex_test []
  = {| averageTextLength := NaN; ctaPresenceRate := NaN;
       questionPresenceRate := NaN; emojiPresenceRate := NaN |} /\
  (ads <> [] ->
   whole_percentages (Engine.analyzeAdStructure emojiRegex_test ads)) /\
  (ads <> [] ->
   forallb (fun ad => existsb (fun cta => includes (toLowerCase (bodies_text ad)) cta)
                              ctaWords) ads = true ->
   ctaPresenceRate (Engine.analyzeAdStructure emojiRegex_test ads) = Num 100).
Proof.
  split; [reflexivity |].
  assert (Hlen : ads <> [] -> (1 <= List.length ads)%nat).
  { destruct ads; [congruence | cbn; lia]. }
  split.
  - intros Hne. specialize (Hlen Hne).
    unfold Engine.analyzeAdStructure, lit. cbv zeta.
    rewrite length_map.
    assert (Havg : exists a : Z,
               Math_round
                 (div (fold_left (fun sum len => add sum len)
                         (map (fun ad => of_nat (String.length (bodies_text ad)))
                              ads) (Num 0))
                      (of_nat (List.length ads))) = Num (inject_Z a) /\
               (0 <= a)%Z).
    { assert (Hsum : forall (l : list ScoredAd) (q : Q), 0 <= q ->
                exists q',
                  fold_left (fun sum len => add sum len)
                    (map (fun ad => of_nat (String.length (bodies_text ad))) l)
                    (Num q) = Num q' /\ 0 <= q').
      { induction l as [| x l IH]; intros q Hq; cbn [map fold_left].
        - now exists q.
        - unfold of_nat at 1. cbn [add lift2]. apply IH.
          assert (0 <= inject_Z (Z.of_nat (String.length (bodies_text x)))).
          { change 0 with (inject_Z 0). rewrite <- Zle_Qle. lia. }
          lra. }
      destruct (Hsum ads 0) as (q & -> & Hq); [lra |].
      apply rounded_mean_nonneg; assumption. }
    destruct Havg as (a & -> & Ha).
    destruct (@percent_rate
                (List.length
                   (filter (fun ad =>
                              existsb (fun cta =>
                                         includes (toLowerCase (bodies_text ad)) cta)
                                      ctaWords)
                           ads))
                (List.length ads)) as (c & -> & Hc);
      [apply filter_length_le | exact Hlen |].
    destruct (@percent_rate
                (List.length
                   (filter (fun ad => includes (bodies_text ad) "?") ads))
                (List.length ads)) as (q & -> & Hq);
      [apply filter_length_le | exact Hlen |].
    destruct (@percent_rate
                (List.length (Engine.emoji_filter emojiRegex_test 0 ads))
                (List.length ads)) as (e & -> & He);
      [apply emoji_filter_length | exact Hlen |].
    exists a, c, q, e. repeat split; try assumption; lia.
  - intros Hne Hall. specialize (Hlen Hne).
    unfold Engine.analyzeAdStructure, lit. cbv zeta. cbn [ctaPresenceRate].
    rewrite (forallb_filter_id _ _ Hall).
    apply full_rate, Hlen.
Qed.

Lemma X9_witness :
  ctaPresenceRate
    (Engine.analyzeAdStructure Samples.no_emoji
       [ {| raw := Samples.ad "s1" (Some ["Shop the sale"%string]);
            successScore := Num 85;
            componentScores := Samples.scores 25 20 20 20 |};
         {| raw := Samples.ad "s2" (Some ["Visit us"%string; "Call now"%string]);
            successScore := Num 90;
            componentScores := Samples.scores 25 25 20 20 |} ])
  = Num 100.
Proof.
  apply (proj2 (proj2 (X9_structure_of_the_full_class Samples.no_emoji _))).
  - discriminate.
  - reflexivity.
Defined.

(** ** getSuccessPatterns, the client in the field *)

Section Reports.

Variable now : num.
Variable rejects : call -> nat -> bool.
Variable stopwords : list string.
Variable listTerms : list string -> nat -> list Item.
Variable emojiRegex_test : nat -> string -> bool * nat.

Let analyze := Engine.analyzeSuccessPatterns now Client rejects stopwords
                                             listTerms emojiRegex_test.
Let report := report_of now stopwords listTerms emojiRegex_test.

Lemma analyze_few (ads : list ScoredAd) (w : World) :
  (List.length ads < 5)%nat -> analyze ads w = (Ok tt, w).
Proof.
  intros H. unfold analyze, Engine.analyzeSuccessPatterns, try_catchM, ret.
  destruct (Nat.ltb_spec (List.length ads) 5); [reflexivity | lia].
Qed.

Lemma analyze_five (ads : list ScoredAd) (w : World) :
  (5 <= List.length ads)%nat ->
  analyze ads w
  = (Ok tt,
     analysed w (map Engine.content_text ads)
       (if rejects CacheSet (calls w) then cache w else Some (report ads)) 1).
Proof.
  intros H.
  unfold analyze, Engine.analyzeSuccessPatterns, try_catchM, bindM, new_TfIdf,
    client_set, await, ret.
  destruct (Nat.ltb_spec (List.length ads) 5); [lia |].
  cbn [calls]. destruct (rejects CacheSet (calls w)); reflexivity.
Qed.

Lemma length_stable_sort (A : Type) (before : A -> A -> bool) (l : list A) :
  List.length (stable_sort before l) = List.length l.
Proof.
  induction l as [| x l IH]; cbn [stable_sort List.length]; [reflexivity |].
  now rewrite length_insert_sorted, IH.
Qed.

Lemma length_recent_ads (w : World) :
  List.length (recent_ads w) = Nat.min 100 (List.length (successfulAds w)).
Proof.
  unfold recent_ads. now rewrite length_map, length_firstn, length_stable_sort.
Qed.

End Reports.

Lemma getSuccessPatterns_cached
  (now : num) (rejects : call -> nat -> bool) (stopwords : list string)
  (listTerms : list string -> nat -> list Item)
  (emojiRegex_test : nat -> string -> bool * nat)
  (w : World) (cached : Patterns) :
  rejects CacheGet (calls w) = false ->
  cache w = Some cached ->
  getSuccessPatterns now Client rejects stopwords listTerms emojiRegex_test w
  = (Ok cached, analysed w (tfidf_documents w) (Some cached) 1).
Proof.
  intros Hget Hc.
  unfold getSuccessPatterns, try_catchM, bindM, ret.
  rewrite client_get_fulfilled by exact Hget.
  rewrite Hc. unfold analysed, tick. now rewrite Hc.
Qed.

(** X10.  With the client in the field and a report in the cache,
    [getSuccessPatterns] answers that report after the one read: the
    collection is not queried and nothing is written. *)
Theorem X10_getSuccessPatterns_cache_hit
  (now : num) (rejects : call -> nat -> bool) (stopwords : list string)
  (listTerms : list string -> nat -> list Item)
  (emojiRegex_test : nat -> string -> bool * nat)
  (w : World) (cached : Patterns) :
  rejects CacheGet (calls w) = false ->
  cache w = Some cached ->
  getSuccessPatterns now Client rejects stopwords listTerms emojiRegex_test w
  = (Ok cached, analysed w (tfidf_documents w) (Some cached) 1).
Proof. apply getSuccessPatterns_cached. Qed.

Lemma X10_witness :
  getSuccessPatterns Samples.now Client Samples.no_faults [] Samples.no_terms
    Samples.no_emoji
    (analysed Samples.w0 [] (Some (empty_patterns (Num 5))) 0)
  = (Ok (empty_patterns (Num 5)),
     analysed Samples.w0 [] (Some (empty_patterns (Num 5))) 1).
Proof.
  apply (X10_getSuccessPatterns_cache_hit Samples.now Samples.no_faults []
           Samples.no_terms Samples.no_emoji
           (analysed Samples.w0 [] (Some (empty_patterns (Num 5))) 0));
    reflexivity.
Defined.

(** X11.  With the client in the field, an empty cache and fewer than
    five stored ads, [getSuccessPatterns] answers the empty report
    (no terms, no structure, no visual patterns, dated now) when its
    reads go through; cache and collection stay as they were. *)
Theorem X11_getSuccessPatterns_few_stored_ads
  (now : num) (rejects : call -> nat -> bool) (stopwords : list string)
  (listTerms : list string -> nat -> list Item)
  (emojiRegex_test : nat -> string -> bool * nat) (w : World) :
  rejects CacheGet (calls w) = false ->
  rejects Find (1 + calls w)%nat = false ->
  rejects CacheGet (2 + calls w)%nat = false ->
  cache w = None ->
  (List.length (successfulAds w) < 5)%nat ->
  exists n,
    getSuccessPatterns now Client rejects stopwords listTerms emojiRegex_test w
    = (Ok (empty_patterns now), analysed w (tfidf_documents w) None n).
Proof.
  intros Hget Hfind Hget2 Hc Hlen.
  unfold getSuccessPatterns, try_catchM, bindM, ret.
  rewrite client_get_fulfilled by exact Hget.
  rewrite Hc.
  rewrite find_top_fulfilled by exact Hfind.
  fold (recent_ads w).
  change (map adData (firstn 100 (stable_sort score_before
                                    (successfulAds (tick w)))))
    with (recent_ads w).
  change (List.length (firstn 100 (stable_sort score_before
                                     (successfulAds (tick w)))))
    with (List.length (firstn 100 (stable_sort score_before (successfulAds w)))).
  destruct (0 <? _)%nat.
  - rewrite (@analyze_few now rejects stopwords listTerms emojiRegex_test)
      by (rewrite length_recent_ads; lia).
    rewrite client_get_fulfilled by exact Hget2.
    cbn [cache tick]. rewrite Hc.
    exists 3%nat. unfold analysed, tick, empty_patterns. cbn. now rewrite Hc.
  - exists 2%nat. unfold analysed, tick, empty_patterns. cbn. now rewrite Hc.
Qed.

Lemma X11_witness :
  exists n,
    getSuccessPatterns Samples.now Client Samples.no_faults [] Samples.no_terms
      Samples.no_emoji Samples.w0
    = (Ok (empty_patterns Samples.now), analysed Samples.w0 [] None n).
Proof.
  apply (X11_getSuccessPatterns_few_stored_ads Samples.now Samples.no_faults
           [] Samples.no_terms Samples.no_emoji Samples.w0);
    try reflexivity.
  cbn. lia.
Defined.

(** X12.  With the client in the field, an empty cache, five stored ads
    or more and the reads going through, [getSuccessPatterns] analyses
    the best hundred stored ads.  If the write of the cache goes
    through, it answers the report built from them and leaves it in the
    cache, so that the next call, made before the entry expires,
    answers the same report; if the write
    rejects, the failure is swallowed and the answer is the empty
    report.  The collection is left alone either way. *)
Theorem X12_getSuccessPatterns_recomputes
  (now : num) (rejects : call -> nat -> bool) (stopwords : list string)
  (listTerms : list string -> nat -> list Item)
  (emojiRegex_test : nat -> string -> bool * nat) (w : World) :
  rejects CacheGet (calls w) = false ->
  rejects Find (1 + calls w)%nat = false ->
  rejects CacheGet (3 + calls w)%nat = false ->
  cache w = None ->
  (5 <= List.length (successfulAds w))%nat ->
  let get := getSuccessPatterns now Client rejects stopwords listTerms
                                emojiRegex_test in
  let report := report_of now stopwords listTerms emojiRegex_test
                          (recent_ads w) in
  let texts := map Engine.content_text (recent_ads w) in
  if rejects CacheSet (2 + calls w)%nat then
    get w = (Ok (empty_patterns now), analysed w texts None 4)
  else
    get w = (Ok report, analysed w texts (Some report) 4) /\
    (rejects CacheGet (4 + calls w)%nat = false ->
     fst (get (snd (get w))) = Ok report).
Proof.
  intros Hget Hfind Hget2 Hc Hlen get report texts.
  assert (E : get w
              = (if rejects CacheSet (2 + calls w)%nat
                 then (Ok (empty_patterns now), analysed w texts None 4)
                 else (Ok report, analysed w texts (Some report) 4))).
  { unfold get, getSuccessPatterns, try_catchM, bindM, ret.
    rewrite client_get_fulfilled by exact Hget.
    rewrite Hc.
    rewrite find_top_fulfilled by exact Hfind.
    change (map adData (firstn 100 (stable_sort score_before
                                      (successfulAds (tick w)))))
      with (recent_ads w).
    change (List.length (firstn 100 (stable_sort score_before
                                       (successfulAds (tick w)))))
      with (List.length (firstn 100 (stable_sort score_before
                                       (successfulAds w)))).
    rewrite length_firstn, length_stable_sort.
    destruct (Nat.ltb_spec 0 (Nat.min 100 (List.length (successfulAds w))));
      [| lia].
    rewrite (@analyze_five now rejects stopwords listTerms emojiRegex_test)
      by (rewrite length_recent_ads; lia).
    rewrite client_get_fulfilled by exact Hget2.
    cbn [cache tick calls analysed successfulAds tfidf_documents Nat.add].
    fold texts. fold report.
    destruct (rejects CacheSet (S (S (calls w)))); [rewrite Hc |];
      reflexivity. }
  destruct (rejects CacheSet (2 + calls w)%nat); [exact E |].
  split; [exact E |].
  intros Hget3. rewrite E. cbn [snd].
  unfold get.
  rewrite (@getSuccessPatterns_cached now rejects stopwords listTerms emojiRegex_test
             _ report); [reflexivity | exact Hget3 | reflexivity].
Qed.

Lemma X12_witness :
  let w := snd (storeSuccessfulAds Samples.now Samples.no_faults
                                   Samples.textless Samples.w0) in
  fst (getSuccessPatterns Samples.now Client Samples.no_faults []
                          Samples.no_terms Samples.no_emoji w)
  = Ok (report_of Samples.now [] Samples.no_terms Samples.no_emoji
                  (recent_ads w)).
Proof.
  intros w.
  pose proof (X12_getSuccessPatterns_recomputes Samples.now Samples.no_faults
                [] Samples.no_terms Samples.no_emoji w
                eq_refl eq_refl eq_refl eq_refl) as H.
  cbv zeta in H. change (Samples.no_faults CacheSet (2 + calls w)%nat)
    with false in H.
  assert (Hlen : (5 <= List.length (successfulAds w))%nat)
    by (vm_compute; lia).
  destruct (H Hlen) as [E _]. now rewrite E.
Defined.

(** ** analyzeSuccessPatterns of the partial fix *)

(** X13.  On ads whose texts are of the ASCII range, the rewritten
    [analyzeSuccessPatterns] never rejects and never touches the
    collection.  When it answers nothing, the world is as it was.  When
    it answers a report, the term model holds the texts that are not
    blank, the report carries the terms of those texts and the
    structure of all the ads passed in, and the cache holds the report
    unless its write rejected, which is swallowed.  Five ads with a
    text that is not blank are enough for a report. *)
Theorem X13_fixed_analysis_degrades
  (now : num) (rejects : call -> nat -> bool) (stopwords : list string)
  (listTerms : list string -> nat -> list Item)
  (emojiRegex_test : nat -> string -> bool * nat)
  (ads : list ScoredAd) (w : World) :
  forallb ascii_ad ads = true ->
  let texts := filter has_non_space (map EngineFix.content_text ads) in
  exists answer w',
    EngineFix.analyzeSuccessPatterns now rejects stopwords listTerms
                                     emojiRegex_test ads w
    = (Ok answer, w') /\
    successfulAds w' = successfulAds w /\
    match answer with
    | None => w' = w /\ (List.length texts < 5)%nat
    | Some patterns =>
        (5 <= List.length texts)%nat /\
        tfidf_documents w' = texts /\
        commonTerms patterns = extractCommonTerms stopwords listTerms texts /\
        structurePatterns patterns
        = Some (EngineFix.analyzeAdStructure emojiRegex_test ads) /\
        cache w' = (if rejects CacheSet (calls w) then cache w
                    else Some patterns)
    end.
Proof.
  intros _ texts.
  assert (Hle : (List.length texts <= List.length ads)%nat).
  { unfold texts. rewrite <- (length_map EngineFix.content_text ads).
    apply filter_length_le. }
  unfold EngineFix.analyzeSuccessPatterns, try_catchM, bindM, new_TfIdf,
    client_set, await, ret.
  fold texts.
  destruct (Nat.ltb_spec (List.length ads) 5).
  { exists None, w. repeat split; lia. }
  destruct (Nat.ltb_spec (List.length texts) 5).
  { exists None, w. repeat split; lia. }
  cbn [calls].
  destruct (rejects CacheSet (calls w)); cbn;
    eexists; eexists; (split; [reflexivity |]); repeat split; assumption.
Qed.

Lemma X13_witness :
  exists patterns w',
    EngineFix.analyzeSuccessPatterns Samples.now Samples.cache_down []
      Samples.no_terms Samples.no_emoji texted Samples.w0
    = (Ok (Some patterns), w') /\
    tfidf_documents w'
    = ["Shop the sale"; "Shop the sale"; "Shop the sale"; "Shop the sale";
       "Shop the sale"]%string /\
    cache w' = None.
Proof.
  destruct (@X13_fixed_analysis_degrades Samples.now Samples.cache_down []
              Samples.no_terms Samples.no_emoji texted Samples.w0 eq_refl)
    as (answer & w' & E & _ & H).
  destruct answer as [patterns |].
  - destruct H as (_ & Hdocs & _ & _ & Hcache).
    exists patterns, w'. split; [exact E |]. split; assumption.
  - destruct H as [_ H]. vm_compute in H. lia.
Defined.

(** ** extractCommonTerms: what is kept and what is left out *)

Lemma Permutation_insert_sorted (A : Type) (before : A -> A -> bool)
      (x : A) (l : list A) :
  Permutation (insert_sorted before x l) (x :: l).
Proof.
  induction l as [| y l IH]; cbn [insert_sorted]; [reflexivity |].
  destruct (before x y); [reflexivity |].
  rewrite IH. apply perm_swap.
Qed.

Lemma Permutation_stable_sort (A : Type) (before : A -> A -> bool)
      (l : list A) :
  Permutation (stable_sort before l) l.
Proof.
  induction l as [| x l IH]; cbn [stable_sort]; [reflexivity |].
  rewrite Permutation_insert_sorted. now constructor.
Qed.

Lemma Permutation_partition (A : Type) (p : A -> bool) (l : list A) :
  Permutation (filter p l ++ filter (fun x => negb (p x)) l) l.
Proof.
  induction l as [| x l IH]; cbn [filter]; [reflexivity |].
  destruct (p x); cbn [negb app].
  - now constructor.
  - rewrite <- Permutation_middle. now constructor.
Qed.

(** [Object.values] lists the own values, each once. *)
Lemma Permutation_Object_values (V : Type) (o : list (string * V)) :
  Permutation (Object_values o) (map snd o).
Proof.
  unfold Object_values. apply Permutation_map.
  rewrite Permutation_stable_sort. apply Permutation_partition.
Qed.

Lemma NoDup_map_filter (A B : Type) (g : A -> B) (p : A -> bool) (l : list A) :
  NoDup (map g l) -> NoDup (map g (filter p l)).
Proof.
  induction l as [| x l IH]; cbn [map filter]; [trivial |].
  intros H. inversion H as [| ? ? Hnotin Hnd]; subst.
  destruct (p x); [| exact (IH Hnd)].
  cbn [map]. constructor; [| exact (IH Hnd)].
  intros Hin. apply Hnotin. apply in_map_iff in Hin.
  destruct Hin as (y & E & Hy). apply filter_In in Hy.
  apply in_map_iff. exists y. split; [exact E | apply Hy].
Qed.

Lemma NoDup_firstn_prefix (A : Type) (n : nat) (l : list A) :
  NoDup l -> NoDup (firstn n l).
Proof.
  intros H. rewrite <- (firstn_skipn n l) in H.
  exact (NoDup_app_remove_r _ _ H).
Qed.

Lemma firstn_short (A : Type) (n : nat) (l : list A) :
  (List.length (firstn n l) < n)%nat -> firstn n l = l.
Proof.
  intros H. rewrite length_firstn in H. apply firstn_all2. lia.
Qed.

Lemma StronglySorted_app_order (A : Type) (R : A -> A -> Prop)
      (l1 l2 : list A) (a b : A) :
  StronglySorted R (l1 ++ l2) -> In a l1 -> In b l2 -> R a b.
Proof.
  induction l1 as [| x l1 IH]; cbn [app]; intros H Ha Hb; [destruct Ha |].
  inversion H as [| ? ? Hs Hx]; subst.
  destruct Ha as [-> | Ha]; [| exact (IH Hs Ha Hb)].
  rewrite Forall_forall in Hx. apply Hx. apply in_or_app. now right.
Qed.

Section TermSelection.

Variable stopwords : list string.
Variable listTerms : list string -> nat -> list Item.
Variable documents : list string.

Let items := salient_items listTerms documents.
Let terms := term_table stopwords listTerms documents.
Let candidates :=
  Array_sort compare_terms
    (filter (fun item => (1 <? count item)%nat)
            (map common_term (Object_values terms))).
Let out := extractCommonTerms stopwords listTerms documents.

Lemma out_candidates : out = firstn 20 candidates.
Proof. reflexivity. Qed.

Lemma add_term_own_keys (seen : list Item) (t : Terms) (item : Item) :
  table_inv stopwords seen t -> own_keys_only t ->
  own_keys_only (add_term stopwords t item).
Proof.
  intros Hinv Hkeys. unfold add_term. fold (key item).
  destruct (existsb (String.eqb (key item)) stopwords
            || (String.length (key item) <? 3)%nat); [exact Hkeys |].
  destruct (own t (key item)) as [e |] eqn:Eown.
  - match goal with
    | |- own_keys_only (set_own _ _ ?e') =>
        destruct (@set_own_spec t (key item) e' (inv_nodup Hinv))
          as (_ & _ & Hk)
    end.
    intros k Hin. apply Hk in Hin. destruct Hin as [-> | Hin].
    + apply Hkeys. apply own_In in Eown.
      apply in_map_iff. now exists (key item, e).
    + now apply Hkeys.
  - destruct (inherited (key item)) eqn:Einh; [exact Hkeys |].
    match goal with
    | |- own_keys_only (set_own _ _ ?e') =>
        destruct (@set_own_spec t (key item) e' (inv_nodup Hinv))
          as (_ & _ & Hk)
    end.
    intros k Hin. apply Hk in Hin. destruct Hin as [-> | Hin].
    + exact Einh.
    + now apply Hkeys.
Qed.

Lemma fold_add_term_own_keys (more seen : list Item) (t : Terms) :
  table_inv stopwords seen t -> own_keys_only t ->
  own_keys_only (fold_left (add_term stopwords) more t).
Proof.
  revert seen t. induction more as [| item more IH]; intros seen t Hinv Hkeys;
    cbn [fold_left]; [exact Hkeys |].
  apply (IH (seen ++ [item])).
  - apply add_term_inv, Hinv.
  - eapply add_term_own_keys; eassumption.
Qed.

Lemma term_table_inv : table_inv stopwords items terms.
Proof.
  unfold terms, term_table. rewrite nested_fold.
  exact (@fold_add_term_inv stopwords items [] [] (table_inv_nil stopwords)).
Qed.

Lemma term_table_own_keys : own_keys_only terms.
Proof.
  unfold terms, term_table. rewrite nested_fold.
  apply (@fold_add_term_own_keys _ [] []).
  - apply table_inv_nil.
  - intros k [].
Qed.

Lemma term_table_terms :
  map ct_term (map common_term (map snd terms)) = map fst terms.
Proof.
  rewrite !map_map. apply map_ext_in. intros [k e] Hin.
  cbn [snd fst common_term ct_term].
  exact (proj1 (inv_entry term_table_inv _ _ Hin)).
Qed.

Lemma candidates_distinct : NoDup (map ct_term candidates).
Proof.
  unfold candidates, Array_sort.
  eapply Permutation_NoDup.
  - apply Permutation_map. symmetry. apply Permutation_stable_sort.
  - apply NoDup_map_filter.
    eapply Permutation_NoDup.
    + apply Permutation_map, Permutation_map. symmetry.
      apply Permutation_Object_values.
    + rewrite term_table_terms. exact (inv_nodup term_table_inv).
Qed.

Lemma In_candidates (c : CommonTerm) :
  In c candidates <->
  exists k e, In (k, e) terms /\ c = common_term e /\ (2 <= e_count e)%nat.
Proof.
  unfold candidates, Array_sort.
  rewrite In_stable_sort, filter_In, in_map_iff. split.
  - intros ((e & <- & He) & Hc). apply In_Object_values in He.
    destruct He as (k & He). exists k, e.
    split; [exact He |]. split; [reflexivity |].
    apply Nat.ltb_lt in Hc. exact Hc.
  - intros (k & e & He & -> & Hc). split.
    + exists e. split; [reflexivity |]. apply In_Object_values. now exists k.
    + apply Nat.ltb_lt. exact Hc.
Qed.

Lemma commonTerms_distinct : NoDup (map ct_term out).
Proof.
  rewrite out_candidates, <- firstn_map.
  apply NoDup_firstn_prefix, candidates_distinct.
Qed.

Lemma commonTerms_own (c : CommonTerm) :
  In c out -> inherited (ct_term c) = false.
Proof.
  rewrite out_candidates. intros H. apply In_firstn in H.
  apply In_candidates in H. destruct H as (k & e & He & -> & _).
  cbn [common_term ct_term].
  rewrite (proj1 (inv_entry term_table_inv _ _ He)).
  apply term_table_own_keys. apply in_map_iff. now exists (k, e).
Qed.

Lemma qualifying_candidate (k : string) :
  accepted stopwords k = true -> inherited k = false ->
  (2 <= List.length (occurrences k items))%nat ->
  exists c, In c candidates /\ ct_term c = k /\
            count c = List.length (occurrences k items).
Proof.
  intros Hacc Hinh Hocc.
  destruct (occurrences k items) as [| item rest] eqn:E; [cbn in Hocc; lia |].
  assert (Hitem : In item (occurrences k items)) by (rewrite E; now left).
  apply filter_In in Hitem. destruct Hitem as [Hin Hkey].
  apply String.eqb_eq in Hkey.
  assert (Hk : In k (map fst terms)).
  { rewrite <- Hkey. apply (inv_cover term_table_inv); [exact Hin | |];
      now rewrite Hkey. }
  apply in_map_iff in Hk. destruct Hk as ([k' e] & Ek & He).
  cbn [fst] in Ek. subst k'.
  destruct (inv_entry term_table_inv _ _ He) as (H1 & _ & H3 & _).
  exists (common_term e). split.
  - apply In_candidates. exists k, e.
    split; [exact He |]. split; [reflexivity |]. rewrite H3, E. exact Hocc.
  - cbn [common_term ct_term count]. split; [exact H1 |].
    rewrite H3, E. reflexivity.
Qed.

Lemma commonTerms_selection (k : string) :
  accepted stopwords k = true -> inherited k = false ->
  (2 <= List.length (occurrences k items))%nat ->
  (exists c, In c out /\ ct_term c = k) \/
  (List.length out = 20%nat /\
   forall c, In c out ->
     (List.length (occurrences k items) <= count c)%nat).
Proof.
  intros Hacc Hinh Hocc.
  destruct (@qualifying_candidate k Hacc Hinh Hocc) as (c' & Hc' & Hterm & Hcount).
  rewrite out_candidates.
  rewrite <- (firstn_skipn 20 candidates) in Hc'.
  apply in_app_or in Hc'. destruct Hc' as [Hc' | Hc'].
  - left. now exists c'.
  - right. split.
    + rewrite length_firstn.
      destruct (Nat.le_gt_cases 20 (List.length candidates)) as [H | H];
        [lia |].
      rewrite skipn_all2 in Hc' by lia. destruct Hc'.
    + intros c Hc.
      assert (Hs : StronglySorted ranks_before
                     (firstn 20 candidates ++ skipn 20 candidates)).
      { rewrite firstn_skipn. apply Array_sort_ranked. }
      pose proof (@StronglySorted_app_order _ _ _ _ _ _ Hs Hc Hc') as Hr.
      unfold ranks_before in Hr. lia.
Qed.

End TermSelection.

(** X14.  No term is listed twice among the common terms. *)
Theorem X14_commonTerms_are_distinct
  (stopwords : list string) (listTerms : list string -> nat -> list Item)
  (documents : list string) :
  NoDup (map ct_term (extractCommonTerms stopwords listTerms documents)).
Proof. apply commonTerms_distinct. Qed.

(** X15.  A word that names a member of [Object.prototype] is never
    among the common terms, whatever the documents hold: the lookup
    [terms[term]] finds the inherited member and the table gets no
    entry.  So ["constructor"] is never reported. *)
Theorem X15_commonTerms_skip_inherited_names
  (stopwords : list string) (listTerms : list string -> nat -> list Item)
  (documents : list string) :
  (forall c, In c (extractCommonTerms stopwords listTerms documents) ->
             inherited (ct_term c) = false) /\
  ~ In "constructor"%string
       (map ct_term (extractCommonTerms stopwords listTerms documents)).
Proof.
  split; [apply commonTerms_own |].
  intros H. apply in_map_iff in H. destruct H as (c & E & Hc).
  apply commonTerms_own in Hc. rewrite E in Hc. discriminate.
Qed.

(** X16.  Where the terms of the top tens are of the ASCII range,
    every term that passes the tests of the loop, is no name of an
    inherited member and is met at least twice in the top tens is
    among the common terms, unless twenty terms are listed that are
    each met at least as often. *)
Theorem X16_commonTerms_selection
  (stopwords : list string) (listTerms : list string -> nat -> list Item)
  (documents : list string) (k : string) :
  let out := extractCommonTerms stopwords listTerms documents in
  let items := salient_items listTerms documents in
  forallb (fun item => ascii_text (term item)) items = true ->
  accepted stopwords k = true -> inherited k = false ->
  (2 <= List.length (occurrences k items))%nat ->
  (exists c, In c out /\ ct_term c = k) \/
  (List.length out = 20%nat /\
   forall c, In c out -> (List.length (occurrences k items) <= count c)%nat).
Proof. intros out items _. apply commonTerms_selection. Qed.

Lemma X16_witness :
  exists c,
    In c (extractCommonTerms TermSamples.stopwords TermSamples.listTerms
                             TermSamples.documents) /\
    ct_term c = "shop"%string.
Proof.
  destruct (X16_commonTerms_selection TermSamples.stopwords
              TermSamples.listTerms TermSamples.documents "shop")
    as [H | [H _]].
  - reflexivity.
  - reflexivity.
  - reflexivity.
  - vm_compute. lia.
  - exact H.
  - vm_compute in H. discriminate.
Defined.

(* ================================================================== *)
(** * Properties of utils/rateLimiter.js *)
(* ================================================================== *)

(** ** calculateBackoff *)

Lemma Qmin'_spec (x y : Q) :
  Qmin' x y <= x /\ Qmin' x y <= y /\ (Qmin' x y == x \/ Qmin' x y == y).
Proof.
  unfold Qmin'. destruct (Qle_bool x y) eqn:E.
  - apply Qle_bool_iff in E. split; [lra |]. split; [lra |]. left. reflexivity.
  - apply Qle_bool_false in E. split; [lra |]. split; [lra |]. right. reflexivity.
Qed.

Lemma Qmin'_mono (x x' y : Q) : x <= x' -> Qmin' x y <= Qmin' x' y.
Proof.
  intros H. unfold Qmin'.
  destruct (Qle_bool x y) eqn:E, (Qle_bool x' y) eqn:E';
    try apply Qle_bool_iff in E; try apply Qle_bool_iff in E';
    try apply Qle_bool_false in E; try apply Qle_bool_false in E'; lra.
Qed.

Lemma jitter_range (random : Q) :
  0 <= random -> random < 1 ->
  (0 <= Qfloor (random * 1000) <= 999)%Z.
Proof.
  intros H0 H1. split.
  - rewrite <- (Qfloor_Z 0). apply Qfloor_resp_le.
    change (inject_Z 0) with 0. lra.
  - assert (H : inject_Z (Qfloor (random * 1000)) < inject_Z 1000).
    { apply Qle_lt_trans with (random * 1000); [apply Qfloor_le |].
      change (inject_Z 1000) with 1000. lra. }
    rewrite <- Zlt_Qlt in H. lia.
Qed.

Lemma pow2_ge_1 (attempt : Z) : (1 <= attempt)%Z -> 1 <= 2 ^ (attempt - 1).
Proof. intros H. apply Qpower_1_le; [lra | lia]. Qed.

Lemma scaled_mono (r r' p p' : Q) :
  0 <= r -> r <= r' -> 1 <= p -> p <= p' ->
  r * 1000 * p <= r' * 1000 * p'.
Proof.
  intros Hr Hrr Hp Hpp.
  apply Qmult_le_compat_nonneg; split; lra.
Qed.

(** X17.  For a random value of [0, 1), a waiting time asked for that
    is a whole number of seconds, not negative, and an attempt between
    1 and 1024, [calculateBackoff] answers a number of milliseconds
    that is at most 300000, at least the time asked for or 300000, and
    less than a second above the doubled time.  From 300 seconds on the
    answer is 300000: the cap makes the wait shorter than the one asked
    for.  Without arguments the answer lies within 30000 and 30999. *)
Theorem X17_calculateBackoff_bounds (random : Q) (seconds attempt : Z) :
  0 <= random -> random < 1 -> (0 <= seconds)%Z ->
  (1 <= attempt <= 1024)%Z ->
  let r := inject_Z seconds in
  (exists b,
     RateLimiter.calculateBackoff random (Some (Num r)) (Some attempt) = Num b /\
     b <= 300000 /\
     Qmin' (r * 1000) 300000 <= b /\
     b < r * 1000 * 2 ^ (attempt - 1) + 1000 /\
     (300 <= r -> b == 300000)) /\
  (exists b,
     RateLimiter.calculateBackoff random None None = Num b /\
     30000 <= b <= 30999).
Proof.
  intros H0 H1 Hs [Ha _] r.
  assert (Hr : 0 <= r).
  { unfold r. change 0 with (inject_Z 0). now rewrite <- Zle_Qle. }
  pose proof (jitter_range H0 H1) as [Hj0 Hj1].
  pose proof (pow2_ge_1 Ha) as Hp.
  assert (Hj0' : 0 <= inject_Z (Qfloor (random * 1000))).
  { change 0 with (inject_Z 0). now rewrite <- Zle_Qle. }
  assert (Hj1' : inject_Z (Qfloor (random * 1000)) <= 999).
  { change 999 with (inject_Z 999). now rewrite <- Zle_Qle. }
  split.
  - unfold RateLimiter.calculateBackoff, lit, Math_min. cbn [mul add lift2].
    set (p := 2 ^ (attempt - 1)) in *.
    set (j := inject_Z (Qfloor (random * 1000))) in *.
    assert (Hexp : r * 1000 <= r * 1000 * p).
    { rewrite <- (Qmult_1_r (r * 1000)) at 1.
      apply Qmult_le_compat_nonneg; split; lra. }
    eexists. split; [reflexivity |].
    destruct (Qmin'_spec (r * 1000 * p + j) 300000) as (Ha1 & Ha2 & Ha3).
    split; [exact Ha2 |]. split; [| split].
    + destruct (Qmin'_spec (r * 1000) 300000) as (Hb1 & Hb2 & _).
      destruct Ha3 as [-> | ->]; lra.
    + lra.
    + intros H300. destruct Ha3 as [E | E]; [| exact E].
      rewrite E in Ha2. lra.
  - unfold RateLimiter.calculateBackoff, lit, Math_min. cbn [mul add lift2].
    set (j := inject_Z (Qfloor (random * 1000))) in *.
    change (2 ^ (1 - 1)) with 1.
    eexists. split; [reflexivity |].
    unfold Qmin'.
    destruct (Qle_bool (30 * 1000 * 1 + j) 300000) eqn:E.
    + lra.
    + apply Qle_bool_false in E. lra.
Qed.

Lemma X17_witness :
  exists b,
    RateLimiter.calculateBackoff (1 # 2) (Some (Num (inject_Z 600)))
                                 (Some 3%Z) = Num b /\
    b == 300000.
Proof.
  destruct (@X17_calculateBackoff_bounds (1 # 2) 600 3)
    as [(b & E & _ & _ & _ & H) _]; try lra; try lia.
  exists b. split; [exact E |]. apply H. vm_compute. discriminate.
Defined.

(** X18.  With the same random value, [calculateBackoff] does not get
    shorter when the time asked for, a whole number of seconds that is
    not negative, or the attempt, between 1 and 1024, grows. *)
Theorem X18_calculateBackoff_monotone
  (random : Q) (seconds seconds' attempt attempt' : Z) :
  (0 <= seconds <= seconds')%Z ->
  (1 <= attempt)%Z -> (attempt <= attempt')%Z -> (attempt' <= 1024)%Z ->
  num_le (RateLimiter.calculateBackoff random
            (Some (Num (inject_Z seconds))) (Some attempt))
         (RateLimiter.calculateBackoff random
            (Some (Num (inject_Z seconds'))) (Some attempt')).
Proof.
  intros [Hs Hss] Ha Haa _.
  set (r := inject_Z seconds). set (r' := inject_Z seconds').
  assert (Hr : 0 <= r).
  { unfold r. change 0 with (inject_Z 0). now rewrite <- Zle_Qle. }
  assert (Hrr : r <= r') by (unfold r, r'; now rewrite <- Zle_Qle).
  unfold RateLimiter.calculateBackoff, lit, Math_min.
  cbn [mul add lift2 num_le].
  apply Qmin'_mono.
  assert (r * 1000 * 2 ^ (attempt - 1) <= r' * 1000 * 2 ^ (attempt' - 1)).
  { apply scaled_mono; try assumption.
    - now apply pow2_ge_1.
    - apply Qpower_le_compat_l; [lia | lra]. }
  lra.
Qed.

Lemma X18_witness :
  num_le (RateLimiter.calculateBackoff (1 # 3) (Some (Num (inject_Z 30)))
                                       (Some 1%Z))
         (RateLimiter.calculateBackoff (1 # 3) (Some (Num (inject_Z 30)))
                                       (Some 2%Z)).
Proof.
  apply X18_calculateBackoff_monotone; lia.
Defined.

(** ** rateLimiterMiddleware *)

Module RateLimiterProperties.

Import RateLimiter.

Lemma Map_get_set_same (m : RequestCounts) (k : string) (d : RequestData) :
  Map_get (Map_set m k d) k = Some d.
Proof.
  induction m as [| [k' d'] m IH]; cbn [Map_set Map_get].
  - now rewrite String.eqb_refl.
  - destruct (String.eqb_spec k' k) as [-> | Hne]; cbn [Map_get].
    + now rewrite String.eqb_refl.
    + destruct (String.eqb_spec k' k); [contradiction | exact IH].
Qed.

Lemma Map_get_set_other (m : RequestCounts) (k k' : string) (d : RequestData) :
  k <> k' -> Map_get (Map_set m k d) k' = Map_get m k'.
Proof.
  intros Hne. induction m as [| [k0 d0] m IH]; cbn [Map_set Map_get].
  - destruct (String.eqb_spec k k'); [contradiction | reflexivity].
  - destruct (String.eqb_spec k0 k) as [-> | Hne0]; cbn [Map_get].
    + destruct (String.eqb_spec k k'); [contradiction | reflexivity].
    + destruct (String.eqb_spec k0 k'); [reflexivity | exact IH].
Qed.

Lemma Map_get_None (m : RequestCounts) (k : string) :
  ~ In k (map fst m) -> Map_get m k = None.
Proof.
  induction m as [| [k' d'] m IH]; cbn [Map_get map fst In]; [reflexivity |].
  intros H. destruct (String.eqb_spec k' k) as [-> | Hne]; [tauto |].
  apply IH. tauto.
Qed.

Section Middleware.

Variable Req : Type.
Variable windowMs : Z.
Variable maxRequests : Z.
Variable message : string.
Variable statusCode : Z.
Variable keyGenerator : Req -> string.
Variable skip : Req -> bool.

Let handle := middleware windowMs maxRequests message statusCode keyGenerator skip.
Let run := serve windowMs maxRequests message statusCode keyGenerator skip.
Let answer := respond windowMs maxRequests message statusCode.
Let counted := count_request windowMs.

(** The middleware looks at the entry of the key and at nothing else. *)
Lemma middleware_counted (req : Req) (now : Z) (m : RequestCounts) :
  skip req = false ->
  handle req now m
  = (answer now (counted now (Map_get m (keyGenerator req))),
     Map_set m (keyGenerator req) (counted now (Map_get m (keyGenerator req)))).
Proof.
  intros Hs. unfold handle, middleware, answer, respond, counted, count_request.
  rewrite Hs. cbv zeta.
  destruct (maxRequests <? _)%Z; reflexivity.
Qed.

Lemma middleware_other_key (req : Req) (now : Z) (m : RequestCounts) (k : string) :
  negb (skip req) && String.eqb (keyGenerator req) k = false ->
  Map_get (snd (handle req now m)) k = Map_get m k.
Proof.
  intros H. destruct (skip req) eqn:Hs.
  - unfold handle, middleware. now rewrite Hs.
  - rewrite middleware_counted by exact Hs. cbn [snd].
    apply Map_get_set_other. cbn in H. apply String.eqb_neq in H. exact H.
Qed.

Lemma serve_cons (req : Req) (now : Z) (rest : list (Req * Z))
      (m : RequestCounts) :
  run ((req, now) :: rest) m
  = (fst (handle req now m) :: fst (run rest (snd (handle req now m))),
     snd (run rest (snd (handle req now m)))).
Proof.
  unfold run, handle. cbn [serve].
  destruct (middleware _ _ _ _ _ _ req now m) as [o m'].
  cbn [fst snd]. destruct (serve _ _ _ _ _ _ rest m'). reflexivity.
Qed.

Lemma length_serve (requests : list (Req * Z)) (m : RequestCounts) :
  List.length (fst (run requests m)) = List.length requests.
Proof.
  revert m. induction requests as [| [req now] rest IH]; intros m;
    [reflexivity |].
  rewrite serve_cons. cbn [fst List.length]. now rewrite IH.
Qed.

(** The answers to the requests of one key depend on the entry of that
    key only. *)
Lemma serve_one_key (k : string) (requests : list (Req * Z))
      (a b : RequestCounts) :
  Map_get a k = Map_get b k ->
  outcomes_of keyGenerator skip k requests (fst (run requests a))
  = fst (run (requests_of keyGenerator skip k requests) b).
Proof.
  revert a b. induction requests as [| [req now] rest IH]; intros a b Hab;
    [reflexivity |].
  rewrite serve_cons. cbn [fst outcomes_of requests_of filter].
  destruct (negb (skip req) && String.eqb (keyGenerator req) k) eqn:E.
  - fold (requests_of keyGenerator skip k rest). rewrite serve_cons.
    cbn [fst].
    apply andb_prop in E. destruct E as [Hs Hk].
    apply negb_true_iff in Hs. apply String.eqb_eq in Hk.
    rewrite !middleware_counted by exact Hs. cbn [fst snd].
    rewrite Hk, Hab. f_equal.
    apply IH. now rewrite !Map_get_set_same.
  - fold (requests_of keyGenerator skip k rest).
    apply IH. rewrite middleware_other_key by exact E. exact Hab.
Qed.

(** Requests of one key inside the window of its entry. *)
Lemma serve_within_window (k : string) (requests : list (Req * Z))
      (m : RequestCounts) (d : RequestData) :
  Map_get m k = Some d ->
  Forall (fun r => skip (fst r) = false /\ keyGenerator (fst r) = k /\
                   (snd r - timestamp d <= windowMs)%Z) requests ->
  map passed (fst (run requests m))
  = map (fun i => (count d + Z.of_nat (S i) <=? maxRequests)%Z)
        (seq 0 (List.length requests)).
Proof.
  revert m d. induction requests as [| [req now] rest IH]; intros m d Hd Hall;
    [reflexivity |].
  inversion Hall as [| ? ? (Hs & Hk & Ht) Hrest]; subst. cbn [fst snd] in *.
  rewrite serve_cons. cbn [fst map List.length seq].
  rewrite middleware_counted by exact Hs. cbn [fst snd].
  rewrite Hd. unfold counted, count_request.
  destruct (Z.ltb_spec windowMs (now - timestamp d)) as [Hlt | _]; [lia |].
  f_equal.
  - unfold answer, respond. cbn [count timestamp].
    replace (count d + Z.of_nat 1)%Z with (count d + 1)%Z by lia.
    destruct (Z.ltb_spec maxRequests (count d + 1));
      destruct (Z.leb_spec (count d + 1) maxRequests); try lia; reflexivity.
  - rewrite (IH _ {| count := count d + 1; timestamp := timestamp d |}).
    + rewrite <- seq_shift, map_map. apply map_ext. intros i.
      cbn [count]. f_equal. lia.
    + apply Map_get_set_same.
    + exact Hrest.
Qed.

(** A request keeps the entries dated before [now]. *)
Lemma middleware_dated (req : Req) (now : Z) (m : RequestCounts) :
  dated_before now m -> dated_before now (snd (handle req now m)).
Proof.
  intros Hm. destruct (skip req) eqn:Hs.
  - unfold handle, middleware. now rewrite Hs.
  - rewrite middleware_counted by exact Hs. cbn [snd].
    intros k d. destruct (String.eqb_spec (keyGenerator req) k) as [<- | Hne].
    + rewrite Map_get_set_same. intros [= <-].
      unfold counted, count_request.
      destruct (Map_get m (keyGenerator req)) as [d0 |] eqn:E;
        cbn [timestamp].
      * destruct (windowMs <? now - timestamp d0)%Z; cbn [timestamp];
          [lia | exact (Hm _ _ E)].
      * destruct (windowMs <? now - now)%Z; cbn [timestamp]; lia.
    + rewrite Map_get_set_other by exact Hne. apply Hm.
Qed.

Lemma counted_window (now : Z) (entry : option RequestData) :
  (0 <= windowMs)%Z ->
  (forall d, entry = Some d -> (timestamp d <= now)%Z) ->
  (now - windowMs <= timestamp (counted now entry) <= now)%Z.
Proof.
  intros Hw Hd. unfold counted, count_request.
  destruct entry as [d |]; cbn [timestamp].
  - specialize (Hd d eq_refl).
    destruct (Z.ltb_spec windowMs (now - timestamp d)); cbn [timestamp]; lia.
  - destruct (Z.ltb_spec windowMs (now - now)); cbn [timestamp]; lia.
Qed.

Lemma ceil_seconds_range (ms hi : Z) :
  (0 <= ms <= hi)%Z -> (0 <= ceil_seconds ms <= ceil_seconds hi)%Z.
Proof.
  intros [H0 H1]. unfold ceil_seconds. split.
  - rewrite <- (Qceiling_Z 0). apply Qceiling_resp_le.
    apply Qle_shift_div_l; [reflexivity |].
    change (inject_Z 0 * 1000) with (inject_Z 0). rewrite <- Zle_Qle. lia.
  - apply Qceiling_resp_le.
    apply Qmult_le_compat_r; [| discriminate].
    rewrite <- Zle_Qle. lia.
Qed.

(** ** The periodic cleanup *)

Let clean := cleanup windowMs.
Let alike := same_live_entries windowMs.

Lemma cleanup_keys (now : Z) (m : RequestCounts) (k : string) :
  In k (map fst (clean now m)) -> In k (map fst m).
Proof.
  unfold clean, cleanup. intros H. apply in_map_iff in H.
  destruct H as (kv & E & Hin). apply filter_In in Hin.
  apply in_map_iff. exists kv. split; [exact E | apply Hin].
Qed.

Lemma cleanup_alike (now : Z) (m : RequestCounts) :
  NoDup (map fst m) -> alike now (clean now m) m.
Proof.
  intros Hnd k. induction m as [| [k' d] m IH]; [exact I |].
  inversion Hnd as [| ? ? Hnotin Hnd']; subst.
  unfold clean, cleanup. cbn [filter snd].
  fold (cleanup windowMs now m). fold (clean now m).
  destruct (Z.ltb_spec windowMs (now - timestamp d)) as [Hexp | Hlive];
    cbn [negb Map_get].
  - destruct (String.eqb_spec k' k) as [-> | Hne]; [| exact (IH Hnd')].
    rewrite Map_get_None; [exact Hexp |].
    intros Hin. apply Hnotin. exact (cleanup_keys _ _ _ Hin).
  - destruct (String.eqb_spec k' k); [reflexivity | exact (IH Hnd')].
Qed.

Lemma counted_alike (now now' : Z) (a b : RequestCounts) (k : string) :
  alike now a b -> (now <= now')%Z ->
  counted now' (Map_get a k) = counted now' (Map_get b k).
Proof.
  intros Hab Hle. specialize (Hab k). unfold counted, count_request.
  destruct (Map_get a k) as [d |], (Map_get b k) as [d' |];
    cbn [timestamp count]; try reflexivity.
  - now subst.
  - destruct (Z.ltb_spec windowMs (now' - timestamp d)); [| lia].
    destruct (Z.ltb_spec windowMs (now' - now')); reflexivity.
  - destruct (Z.ltb_spec windowMs (now' - timestamp d')); [| lia].
    destruct (Z.ltb_spec windowMs (now' - now')); reflexivity.
Qed.

Lemma alike_later (now now' : Z) (a b : RequestCounts) :
  alike now a b -> (now <= now')%Z -> alike now' a b.
Proof.
  intros Hab Hle k. specialize (Hab k).
  destruct (Map_get a k), (Map_get b k); try assumption; lia.
Qed.

Lemma middleware_alike (req : Req) (now now' : Z) (a b : RequestCounts) :
  alike now a b -> (now <= now')%Z ->
  fst (handle req now' a) = fst (handle req now' b) /\
  alike now' (snd (handle req now' a)) (snd (handle req now' b)).
Proof.
  intros Hab Hle. destruct (skip req) eqn:Hs.
  - unfold handle, middleware. rewrite Hs. cbn [fst snd].
    split; [reflexivity | exact (alike_later Hab Hle)].
  - rewrite !middleware_counted by exact Hs. cbn [fst snd].
    rewrite (counted_alike (keyGenerator req) Hab Hle).
    split; [reflexivity |].
    intros k. destruct (String.eqb_spec (keyGenerator req) k) as [<- | Hne].
    + now rewrite !Map_get_set_same.
    + rewrite !Map_get_set_other by exact Hne.
      exact (alike_later Hab Hle k).
Qed.

Lemma serve_alike (requests : list (Req * Z)) (now : Z) (a b : RequestCounts) :
  alike now a b ->
  StronglySorted Z.le (now :: map snd requests) ->
  fst (run requests a) = fst (run requests b).
Proof.
  revert now a b. induction requests as [| [req now'] rest IH];
    intros now a b Hab Hsorted; [reflexivity |].
  cbn [map snd] in Hsorted.
  inversion Hsorted as [| ? ? Hs Hall]; subst.
  inversion Hall as [| ? ? Hle _]; subst.
  rewrite !serve_cons. cbn [fst].
  destruct (middleware_alike req Hab Hle) as [-> Hab'].
  f_equal. exact (IH now' _ _ Hab' Hs).
Qed.

End Middleware.

End RateLimiterProperties.

(** X19.  The rate limiter serves each key apart: the answers to the
    requests of one key, among the requests of any others, are the
    answers these requests get when they are the only ones. *)
Theorem X19_rate_limit_is_per_key
  (Req : Type) (windowMs maxRequests : Z) (message : string) (statusCode : Z)
  (keyGenerator : Req -> string) (skip : Req -> bool)
  (k : string) (requests : list (Req * Z))
  (requestCounts : RateLimiter.RequestCounts) :
  let serve := RateLimiter.serve windowMs maxRequests message statusCode
                                 keyGenerator skip in
  RateLimiter.outcomes_of keyGenerator skip k requests
    (fst (serve requests requestCounts))
  = fst (serve (RateLimiter.requests_of keyGenerator skip k requests)
               requestCounts).
Proof. intros serve. now apply RateLimiterProperties.serve_one_key. Qed.

(** X20.  Whatever the other clients do, of the requests of a client
    that has no entry yet, all within [windowMs] of the first, the
    first [maxRequests] pass and every later one is rejected. *)
Theorem X20_window_admits_maxRequests
  (Req : Type) (windowMs maxRequests : Z) (message : string) (statusCode : Z)
  (keyGenerator : Req -> string) (skip : Req -> bool)
  (k : string) (requests : list (Req * Z))
  (requestCounts : RateLimiter.RequestCounts)
  (first : Req * Z) (later : list (Req * Z)) :
  (0 <= windowMs)%Z ->
  RateLimiter.Map_get requestCounts k = None ->
  RateLimiter.requests_of keyGenerator skip k requests = first :: later ->
  Forall (fun r => (snd r - snd first <= windowMs)%Z) later ->
  map RateLimiter.passed
      (RateLimiter.outcomes_of keyGenerator skip k requests
         (fst (RateLimiter.serve windowMs maxRequests message statusCode
                                 keyGenerator skip requests requestCounts)))
  = map (fun i => (Z.of_nat (S i) <=? maxRequests)%Z)
        (seq 0 (S (List.length later))).
Proof.
  intros Hw Hnone Hreq Hlater.
  rewrite (@RateLimiterProperties.serve_one_key Req windowMs maxRequests
             message statusCode keyGenerator skip k requests requestCounts
             requestCounts eq_refl).
  assert (Hall : Forall (fun r => skip (fst r) = false /\
                                  keyGenerator (fst r) = k)
                        (first :: later)).
  { rewrite <- Hreq. apply Forall_forall. intros r Hr.
    apply filter_In in Hr. destruct Hr as [_ Hr].
    apply andb_prop in Hr. destruct Hr as [Hs Hk].
    apply negb_true_iff in Hs. apply String.eqb_eq in Hk. now split. }
  rewrite Hreq. destruct first as [req now].
  inversion Hall as [| ? ? (Hs & Hk) Hall']; subst. cbn [fst snd] in *.
  rewrite RateLimiterProperties.serve_cons.
  rewrite !RateLimiterProperties.middleware_counted by exact Hs.
  cbn [fst snd map seq]. rewrite Hnone.
  assert (Efirst : RateLimiter.count_request windowMs now None
                   = {| RateLimiter.count := 0 + 1;
                        RateLimiter.timestamp := now |}).
  { unfold RateLimiter.count_request. cbn [RateLimiter.timestamp].
    destruct (Z.ltb_spec windowMs (now - now)) as [Hlt | _]; [lia |].
    reflexivity. }
  rewrite Efirst.
  f_equal.
  - unfold RateLimiter.respond. cbn [RateLimiter.count].
    destruct (Z.ltb_spec maxRequests (0 + 1));
      destruct (Z.leb_spec (Z.of_nat 1) maxRequests); try lia; reflexivity.
  - rewrite (@RateLimiterProperties.serve_within_window Req windowMs
               maxRequests message statusCode keyGenerator skip
               (keyGenerator req) later _
               {| RateLimiter.count := 0 + 1; RateLimiter.timestamp := now |}).
    + rewrite <- seq_shift, map_map. apply map_ext. intros i.
      cbn [RateLimiter.count]. f_equal. lia.
    + apply RateLimiterProperties.Map_get_set_same.
    + apply Forall_forall. intros r Hr.
      rewrite Forall_forall in Hall', Hlater.
      destruct (Hall' r Hr) as [H1 H2]. cbn [RateLimiter.timestamp].
      split; [exact H1 |]. split; [exact H2 | exact (Hlater r Hr)].
Qed.

Lemma X20_witness :
  map RateLimiter.passed
      (RateLimiter.outcomes_of (fun ip : string => ip) (fun _ => false)
         "10.0.0.1" LimiterSamples.burst
         (fst (LimiterSamples.run LimiterSamples.burst [])))
  = [true; true; true; false; false].
Proof.
  apply (@X20_window_admits_maxRequests string 60000 3
           "Too many requests, please try again later." 429
           (fun ip : string => ip) (fun _ => false)
           "10.0.0.1" LimiterSamples.burst []
           ("10.0.0.1"%string, 1000%Z)
           [ ("10.0.0.1"%string, 2000%Z); ("10.0.0.1"%string, 3000%Z);
             ("10.0.0.1"%string, 4000%Z); ("10.0.0.1"%string, 61000%Z) ]).
  - lia.
  - reflexivity.
  - reflexivity.
  - repeat constructor; cbn; lia.
Defined.

(** X21.  As long as the clock does not run backwards and the window
    is not negative, a rejection tells a [retryAfter] between 0 and the
    length of the window in seconds, rounded up, and a request that
    passes is told a remaining number that is not negative. *)
Theorem X21_retryAfter_within_window
  (Req : Type) (windowMs maxRequests : Z) (message : string) (statusCode : Z)
  (keyGenerator : Req -> string) (skip : Req -> bool)
  (req : Req) (now : Z) (requestCounts : RateLimiter.RequestCounts) :
  (0 <= windowMs)%Z ->
  RateLimiter.dated_before now requestCounts ->
  let '(outcome, requestCounts') :=
    RateLimiter.middleware windowMs maxRequests message statusCode
                           keyGenerator skip req now requestCounts in
  RateLimiter.dated_before now requestCounts' /\
  match outcome with
  | RateLimiter.Rejected status error retryAfter =>
      status = statusCode /\
      (0 <= retryAfter <= RateLimiter.ceil_seconds windowMs)%Z
  | RateLimiter.Passed limit remaining reset =>
      limit = maxRequests /\ (0 <= remaining)%Z
  | RateLimiter.Skipped => requestCounts' = requestCounts
  end.
Proof.
  intros Hw Hm.
  pose proof (@RateLimiterProperties.middleware_dated Req windowMs maxRequests
                message statusCode keyGenerator skip req now requestCounts Hm)
    as Hdated.
  destruct (skip req) eqn:Hs.
  - unfold RateLimiter.middleware in *. rewrite Hs in *. cbn [snd] in Hdated.
    split; [exact Hdated | reflexivity].
  - rewrite RateLimiterProperties.middleware_counted in * by exact Hs.
    cbn [snd] in Hdated. split; [exact Hdated |].
    pose proof (@RateLimiterProperties.counted_window windowMs now
                  (RateLimiter.Map_get requestCounts (keyGenerator req)) Hw
                  (fun d E => Hm _ d E)) as Hwin.
    unfold RateLimiter.respond.
    destruct (Z.ltb_spec maxRequests
                (RateLimiter.count
                   (RateLimiter.count_request windowMs now
                      (RateLimiter.Map_get requestCounts (keyGenerator req))))).
    + split; [reflexivity |].
      apply RateLimiterProperties.ceil_seconds_range. lia.
    + split; [reflexivity | lia].
Qed.

Lemma X21_witness :
  exists retryAfter requestCounts',
    LimiterSamples.handle "10.0.0.2" 100000 LimiterSamples.table
    = (RateLimiter.Rejected 429 "Too many requests, please try again later."
                            retryAfter, requestCounts') /\
    (0 <= retryAfter <= 60)%Z.
Proof.
  pose proof (@X21_retryAfter_within_window string 60000 3
                "Too many requests, please try again later." 429
                (fun ip : string => ip) (fun _ => false)
                "10.0.0.2"%string 100000 LimiterSamples.table) as H.
  change (RateLimiter.middleware 60000 3
            "Too many requests, please try again later." 429
            (fun ip : string => ip) (fun _ => false))
    with LimiterSamples.handle in H.
  destruct (LimiterSamples.handle "10.0.0.2" 100000 LimiterSamples.table)
    as [outcome requestCounts'] eqn:E.
  vm_compute in E. injection E as <- <-.
  destruct H as [_ [_ Hr]].
  - lia.
  - intros k d. unfold LimiterSamples.table. cbn [RateLimiter.Map_get].
    destruct (String.eqb "10.0.0.1" k);
      [intros H0; injection H0 as H0; rewrite <- H0; cbn; lia |].
    destruct (String.eqb "10.0.0.2" k);
      [intros H0; injection H0 as H0; rewrite <- H0; cbn; lia | discriminate].
  - eexists. eexists. split; [reflexivity |].
    change (RateLimiter.ceil_seconds 60000) with 60%Z in Hr. exact Hr.
Defined.

(** X22.  The periodic cleanup changes no answer: with a clock that
    does not run backwards, the requests served after a cleanup get
    the answers they get without it. *)
Theorem X22_cleanup_changes_no_answer
  (Req : Type) (windowMs maxRequests : Z) (message : string) (statusCode : Z)
  (keyGenerator : Req -> string) (skip : Req -> bool)
  (now : Z) (requests : list (Req * Z))
  (requestCounts : RateLimiter.RequestCounts) :
  NoDup (map fst requestCounts) ->
  StronglySorted Z.le (now :: map snd requests) ->
  let serve := RateLimiter.serve windowMs maxRequests message statusCode
                                 keyGenerator skip in
  fst (serve requests (RateLimiter.cleanup windowMs now requestCounts))
  = fst (serve requests requestCounts).
Proof.
  intros Hnd Hsorted serve.
  apply (@RateLimiterProperties.serve_alike Req windowMs maxRequests message
           statusCode keyGenerator skip requests now).
  - apply RateLimiterProperties.cleanup_alike, Hnd.
  - exact Hsorted.
Qed.

Lemma X22_witness :
  fst (LimiterSamples.run [("10.0.0.1"%string, 100000%Z);
                           ("10.0.0.2"%string, 100500%Z)]
         (RateLimiter.cleanup 60000 100000 LimiterSamples.table))
  = fst (LimiterSamples.run [("10.0.0.1"%string, 100000%Z);
                             ("10.0.0.2"%string, 100500%Z)]
                            LimiterSamples.table).
Proof.
  apply (@X22_cleanup_changes_no_answer string 60000 3
           "Too many requests, please try again later." 429
           (fun ip : string => ip) (fun _ => false) 100000).
  - repeat constructor; cbn; intuition discriminate.
  - repeat constructor; cbn; lia.
Defined.

(* ================================================================== *)
(** * Properties of controllers/adController.js *)
(* ================================================================== *)

Lemma In_slice_0 (A : Type) (a : list A) (end_ : num) (x : A) :
  In x (Controller.slice_0 a end_) -> In x a.
Proof.
  unfold Controller.slice_0. destruct end_ as [| q]; [intros [] |].
  cbv zeta. destruct (_ <? 0)%Z; apply In_firstn.
Qed.

Lemma length_slice_0 (A : Type) (a : list A) (end_ : num) :
  (List.length (Controller.slice_0 a end_) <= List.length a)%nat.
Proof.
  unfold Controller.slice_0. destruct end_ as [| q]; [cbn; lia |].
  cbv zeta. destruct (_ <? 0)%Z; rewrite length_firstn; lia.
Qed.

Lemma length_slice_0_of_nat (A : Type) (a : list A) (n : nat) :
  (List.length (Controller.slice_0 a (of_nat n)) <= n)%nat.
Proof.
  unfold Controller.slice_0, of_nat. cbn [inject_Z Qnum Qden].
  rewrite Z.quot_1_r.
  destruct (Z.ltb_spec (Z.of_nat n) 0); [lia |].
  rewrite length_firstn, Nat2Z.id. lia.
Qed.

Lemma filter_all (A : Type) (p : A -> bool) (l : list A) :
  (forall x, In x l -> p x = true) -> filter p l = l.
Proof.
  intros H. apply forallb_filter_id. apply forallb_forall. exact H.
Qed.

Lemma ge_trans_literal (s : num) (m : Q) :
  m <= 70 -> ge s MIN_SUCCESS_SCORE = true -> ge s (Num m) = true.
Proof.
  intros Hm. destruct s as [| q]; [discriminate |].
  unfold MIN_SUCCESS_SCORE, lit. cbn [ge].
  rewrite !Qle_bool_iff. lra.
Qed.

Section ControllerProperties.

Variable Date_parse : string -> num.
Variable now : num.
Variable store : ScoreStore.
Variable stack : nat.
Variable redisClient : client_ref.
Variable rejects : call -> nat -> bool.
Variable stopwords : list string.
Variable listTerms : list string -> nat -> list Item.
Variable emojiRegex_test : nat -> string -> bool * nat.

Let process := processAds Date_parse now store stack redisClient rejects
                          stopwords listTerms emojiRegex_test.

Lemma process_successes (ads : list RawAd) (w : World) :
  fst (process ads w) = Ok (successes now store ads).
Proof. unfold process. now rewrite processAds_unfolded. Qed.

Lemma process_collection (ads : list RawAd) (w : World) :
  successfulAds (snd (process ads w))
  = successfulAds (snd (storeSuccessfulAds now rejects (successes now store ads) w)).
Proof.
  unfold process. rewrite processAds_unfolded. cbv zeta. cbn [snd].
  fold (successes now store ads).
  destruct (analyzeSuccessPatterns_spec now redisClient rejects stopwords
              listTerms emojiRegex_test (successes now store ads)
              (snd (storeSuccessfulAds now rejects (successes now store ads) w)))
    as (w2 & E & Hsame).
  now rewrite E.
Qed.

Lemma storeSuccessfulAds_found (successful : list ScoredAd) (w : World)
      (ad : ScoredAd) :
  rejects BulkWrite (calls w) = false ->
  In ad successful ->
  exists d,
    find_by_id (id (raw ad))
      (successfulAds (snd (storeSuccessfulAds now rejects successful w)))
    = Some d /\
    In (adData d) successful /\ id (raw (adData d)) = id (raw ad).
Proof.
  intros Hok Hin.
  assert (E : successfulAds (snd (storeSuccessfulAds now rejects successful w))
              = fold_left (fun c x => upsert x c) (operations_of now successful)
                          (successfulAds w)).
  { unfold storeSuccessfulAds, try_catchM, bulkWrite, await, ret.
    fold (operations_of now successful).
    destruct (operations_of now successful) as [| o ops] eqn:Eo;
      [reflexivity |].
    cbn [List.length Nat.ltb Nat.leb]. rewrite Hok. reflexivity. }
  rewrite E.
  destruct (bulk_upsert_spec (operations_of now successful) (successfulAds w))
    as (Hfind & _ & _).
  set (op := {| adId := id (raw ad); sd_successScore := successScore ad;
                sd_componentScores := componentScores ad; adData := ad;
                sd_updatedAt := now |}).
  assert (Hop : In op (operations_of now successful))
    by (unfold operations_of; apply in_map_iff; now exists ad).
  destruct (Hfind op Hop) as (d & Ed & Hd & Eid).
  exists d. split; [exact Ed |].
  unfold operations_of in Hd. apply in_map_iff in Hd.
  destruct Hd as (ad' & <- & Hin'). cbn [adData adId] in *.
  split; [exact Hin' | exact Eid].
Qed.

End ControllerProperties.

(** X23.  A search with keywords answers 500 when the adapter rejects,
    502 when its answer holds no array of ads, and the found ads
    otherwise: scoring, storing and analysing never make the search
    fail.  Every ad sent has a score of at least 70 and of at least
    [minScore] and was among the ads of the adapter; no more ads are
    sent than the total told, nor than a limit that is a natural
    number. *)
Theorem X23_search_answers
  (Date_parse : string -> num) (now : num) (store : ScoreStore) (stack : nat)
  (redisClient : client_ref)
  (rejects : call -> nat -> bool) (stopwords : list string)
  (listTerms : list string -> nat -> list Item)
  (emojiRegex_test : nat -> string -> bool * nat)
  (searchAds : string -> num -> num -> Controller.Fetched (option (list RawAd)))
  (query : Controller.Query) (kw : string) (w : World) :
  Controller.keywords query = Some kw -> kw <> ""%string ->
  let response :=
    fst (Controller.searchSuccessfulAds Date_parse now store stack redisClient
           rejects stopwords listTerms emojiRegex_test searchAds query w) in
  match searchAds kw (Math_min 100 (Controller.limit query * 2))
                  (Controller.page query) with
  | Controller.Rejects _ =>
      response = Controller.Error 500 "Error searching for ads"
  | Controller.Answers None =>
      response = Controller.Error 502 "Invalid response from Facebook Ad API"
  | Controller.Answers (Some data) =>
      exists ads total,
        response = Controller.Ads ads total (Controller.page query)
                                  (Controller.limit query) /\
        (List.length ads <= total)%nat /\
        (forall n, Controller.limit query = of_nat n ->
                   (List.length ads <= n)%nat) /\
        (forall ad, In ad ads ->
           ge (successScore ad) MIN_SUCCESS_SCORE = true /\
           ge (successScore ad) (Controller.minScore query) = true /\
           In (raw ad) data)
  end.
Proof.
  intros Hkw Hne response. unfold response, Controller.searchSuccessfulAds.
  rewrite Hkw. destruct kw as [| c kw]; [congruence |].
  destruct (searchAds _ _ _) as [status | [data |]];
    [reflexivity | | reflexivity].
  rewrite processAds_unfolded. cbv zeta. cbn [fst].
  eexists. eexists. split; [reflexivity |].
  split; [apply length_slice_0 |].
  split; [intros n ->; apply length_slice_0_of_nat |].
  intros ad Hin. apply In_slice_0 in Hin.
  apply filter_In in Hin. destruct Hin as [Hin Hmin].
  apply filter_In in Hin. destruct Hin as [Hin Hok].
  apply in_map_iff in Hin. destruct Hin as (a & <- & Ha).
  split; [exact Hok |]. split; [exact Hmin |].
  unfold stored_score.
  destruct (findOne store (id a)) as [[doc |] | e]; try exact Ha.
  destruct (gt (updatedAt doc) _); exact Ha.
Qed.

Lemma X23_witness :
  exists ads total,
    fst (ControllerSamples.search (ControllerSamples.query 80) Samples.w0)
    = Controller.Ads ads total 1 25 /\
    (List.length ads <= 25)%nat.
Proof.
  pose proof (@X23_search_answers Samples.Date_parse Samples.now Samples.store
                50 Client Samples.no_faults [] Samples.no_terms
                Samples.no_emoji ControllerSamples.searchAds
                (ControllerSamples.query 80) "shoes" Samples.w0 eq_refl) as H.
  destruct H as (ads & total & E & _ & Hlimit & _); [discriminate |].
  exists ads, total. split; [exact E |].
  apply Hlimit. reflexivity.
Defined.

(** X24.  A [minScore] of 70 or less has no effect on a search: the
    answer, and what the search leaves behind, are those of the search
    with [minScore] 70. *)
Theorem X24_minScore_below_threshold
  (Date_parse : string -> num) (now : num) (store : ScoreStore) (stack : nat)
  (redisClient : client_ref)
  (rejects : call -> nat -> bool) (stopwords : list string)
  (listTerms : list string -> nat -> list Item)
  (emojiRegex_test : nat -> string -> bool * nat)
  (searchAds : string -> num -> num -> Controller.Fetched (option (list RawAd)))
  (keywords : option string) (minScore : Q) (limit page : num) (w : World) :
  minScore <= 70 ->
  let search := Controller.searchSuccessfulAds Date_parse now store stack
                  redisClient rejects stopwords listTerms emojiRegex_test
                  searchAds in
  search {| Controller.keywords := keywords;
            Controller.minScore := Num minScore;
            Controller.limit := limit;
            Controller.page := page |} w
  = search {| Controller.keywords := keywords;
              Controller.minScore := MIN_SUCCESS_SCORE;
              Controller.limit := limit;
              Controller.page := page |} w.
Proof.
  intros Hm search. unfold search, Controller.searchSuccessfulAds.
  cbn [Controller.keywords Controller.minScore Controller.limit
       Controller.page].
  destruct keywords as [[| c kw] |]; try reflexivity.
  destruct (searchAds _ _ _) as [status | [data |]]; try reflexivity.
  rewrite processAds_unfolded. cbv zeta.
  fold (successes now store data).
  assert (Hall : forall m, m <= 70 ->
            filter (fun ad => ge (successScore ad) (Num m))
                   (successes now store data)
            = successes now store data).
  { intros m Hle. apply filter_all. intros ad Hin.
    apply filter_In in Hin. destruct Hin as [_ Hok].
    exact (ge_trans_literal _ Hle Hok). }
  cbv beta iota. unfold MIN_SUCCESS_SCORE, lit.
  rewrite (Hall minScore Hm), (Hall 70) by lra. reflexivity.
Qed.

Lemma X24_witness :
  ControllerSamples.search (ControllerSamples.query (Num 10)) Samples.w0
  = ControllerSamples.search (ControllerSamples.query MIN_SUCCESS_SCORE)
                             Samples.w0.
Proof.
  apply (@X24_minScore_below_threshold Samples.Date_parse Samples.now
           Samples.store 50 Client Samples.no_faults [] Samples.no_terms
           Samples.no_emoji ControllerSamples.searchAds
           (Some "shoes"%string) 10 25 1 Samples.w0).
  lra.
Defined.

(** X25.  The endpoint of the success patterns answers 500 to every
    request when the engine's field holds the promise of the client;
    with the client in the field it answers 500 when the read of the
    cache rejects, and the cached report, dated now, when the cache
    holds one. *)
Theorem X25_patterns_endpoint
  (now : num) (rejects : call -> nat -> bool) (stopwords : list string)
  (listTerms : list string -> nat -> list Item)
  (emojiRegex_test : nat -> string -> bool * nat) (w : World) :
  let endpoint redisClient :=
    Controller.getSuccessPatterns now redisClient rejects stopwords listTerms
                                  emojiRegex_test in
  endpoint Pending w
  = (Controller.Error 500 "Error fetching success patterns", w) /\
  (rejects CacheGet (calls w) = true ->
   fst (endpoint Client w)
   = Controller.Error 500 "Error fetching success patterns") /\
  (forall cached,
     rejects CacheGet (calls w) = false -> cache w = Some cached ->
     fst (endpoint Client w) = Controller.SuccessPatterns cached now).
Proof.
  intros endpoint. unfold endpoint, Controller.getSuccessPatterns.
  split; [reflexivity |]. split.
  - intros H.
    pose proof (@getSuccessPatterns_read_rejected now rejects stopwords
                  listTerms emojiRegex_test w H) as E.
    cbv beta in E.
    destruct (getSuccessPatterns _ _ _ _ _ _ w) as [[p | e] w'];
      cbn [fst] in E; [discriminate E | reflexivity].
  - intros cached Hget Hc.
    now rewrite (@getSuccessPatterns_cached now rejects stopwords listTerms
                   emojiRegex_test w cached Hget Hc).
Qed.

Lemma X25_witness :
  fst (Controller.getSuccessPatterns Samples.now Client Samples.cache_down []
         Samples.no_terms Samples.no_emoji Samples.w0)
  = Controller.Error 500 "Error fetching success patterns".
Proof.
  apply (proj1 (proj2 (@X25_patterns_endpoint Samples.now Samples.cache_down
                         [] Samples.no_terms Samples.no_emoji Samples.w0))).
  reflexivity.
Defined.

(** X26.  An ad that [processAds] has resolved with, its write gone
    through, is answered by [getAdDetails] from the database: the data
    sent is an ad of that batch bearing the id asked for, and the
    adapter is not asked. *)
Theorem X26_processed_ads_are_served_from_the_database
  (Date_parse : string -> num) (now : num) (store : ScoreStore) (stack : nat)
  (redisClient : client_ref)
  (rejects : call -> nat -> bool) (stopwords : list string)
  (listTerms : list string -> nat -> list Item)
  (emojiRegex_test : nat -> string -> bool * nat)
  (fb_getAdDetails fb_getAdDetails' : string -> Controller.Fetched (option RawAd))
  (ads : list RawAd) (w : World) (ad : ScoredAd) :
  let process := processAds Date_parse now store stack redisClient rejects
                            stopwords listTerms emojiRegex_test in
  let details fb :=
    Controller.getAdDetails Date_parse now store stack redisClient rejects
                            stopwords listTerms emojiRegex_test fb in
  rejects BulkWrite (calls w) = false ->
  rejects Find (calls (snd (process ads w))) = false ->
  fst (process ads w) = Ok (successes now store ads) /\
  (In ad (successes now store ads) -> id (raw ad) <> ""%string ->
   exists stored,
     fst (details fb_getAdDetails (Some (id (raw ad))) (snd (process ads w)))
     = Controller.Ad (Controller.Scored stored) "database" /\
     In stored (successes now store ads) /\
     id (raw stored) = id (raw ad) /\
     details fb_getAdDetails' (Some (id (raw ad))) (snd (process ads w))
     = details fb_getAdDetails (Some (id (raw ad))) (snd (process ads w))).
Proof.
  intros process details Hwrite Hfind.
  split; [apply process_successes |].
  intros Hin Hid.
  destruct (@storeSuccessfulAds_found now rejects (successes now store ads) w
              ad Hwrite Hin) as (d & Ed & Hd & Eid).
  rewrite <- (process_collection Date_parse now store stack redisClient
                rejects stopwords listTerms emojiRegex_test ads w) in Ed.
  fold process in Ed.
  exists (adData d).
  unfold details, Controller.getAdDetails.
  destruct (id (raw ad)) as [| c r] eqn:Eidad; [congruence |].
  unfold await. rewrite Hfind. cbn [successfulAds tick].
  rewrite Ed. repeat split; assumption.
Qed.

Lemma X26_witness :
  exists stored,
    fst (ControllerSamples.details (Some "good"%string)
           (snd (processAds Samples.Date_parse Samples.now Samples.store 50
                   Client Samples.no_faults [] Samples.no_terms
                   Samples.no_emoji
                   [Samples.ad "good" None; Samples.ad "new" None]
                   Samples.w0)))
    = Controller.Ad (Controller.Scored stored) "database" /\
    id (raw stored) = "good"%string.
Proof.
  destruct (@X26_processed_ads_are_served_from_the_database
              Samples.Date_parse Samples.now Samples.store 50 Client
              Samples.no_faults [] Samples.no_terms Samples.no_emoji
              ControllerSamples.fb_getAdDetails
              ControllerSamples.fb_getAdDetails
              [Samples.ad "good" None; Samples.ad "new" None] Samples.w0
              (stored_score Samples.now Samples.store (Samples.ad "good" None))
              eq_refl eq_refl) as [_ H].
  destruct H as (stored & E & _ & Eid & _).
  - vm_compute. left. reflexivity.
  - discriminate.
  - exists stored. split; [exact E | exact Eid].
Defined.

(** X27.  An ad that is not in the database and that the adapter
    answers with an id is sent with its scores when its stored score
    reaches 70, and as the adapter gave it, without any score,
    otherwise. *)
Theorem X27_details_from_the_adapter
  (Date_parse : string -> num) (now : num) (store : ScoreStore) (stack : nat)
  (redisClient : client_ref)
  (rejects : call -> nat -> bool) (stopwords : list string)
  (listTerms : list string -> nat -> list Item)
  (emojiRegex_test : nat -> string -> bool * nat)
  (fb_getAdDetails : string -> Controller.Fetched (option RawAd))
  (adId : string) (adDetails : RawAd) (w : World) :
  adId <> ""%string ->
  rejects Find (calls w) = false ->
  find_by_id adId (successfulAds w) = None ->
  fb_getAdDetails adId = Controller.Answers (Some adDetails) ->
  id adDetails <> ""%string ->
  fst (Controller.getAdDetails Date_parse now store stack redisClient rejects
         stopwords listTerms emojiRegex_test fb_getAdDetails (Some adId) w)
  = Controller.Ad
      (if ge (successScore (stored_score now store adDetails))
             MIN_SUCCESS_SCORE
       then Controller.Scored (stored_score now store adDetails)
       else Controller.Details adDetails)
      "api".
Proof.
  intros Hid Hfind Hnone Hfb Hdet.
  unfold Controller.getAdDetails.
  destruct adId as [| c r]; [congruence |].
  unfold await. rewrite Hfind. cbn [successfulAds tick].
  rewrite Hnone, Hfb.
  destruct (String.eqb_spec (id adDetails) ""); [contradiction |].
  rewrite processAds_unfolded. cbv zeta. cbn [fst map filter].
  destruct (ge (successScore (stored_score now store adDetails))
               MIN_SUCCESS_SCORE); reflexivity.
Qed.

Lemma X27_witness :
  fst (ControllerSamples.details (Some "new"%string) Samples.w0)
  = Controller.Ad (Controller.Details (Samples.ad "new" None)) "api".
Proof.
  apply (@X27_details_from_the_adapter Samples.Date_parse Samples.now
           Samples.store 50 Client Samples.no_faults [] Samples.no_terms
           Samples.no_emoji ControllerSamples.fb_getAdDetails
           "new" (Samples.ad "new" None) Samples.w0);
    try reflexivity; discriminate.
Defined.

(* ================================================================== *)
(** * Properties of adapters/facebookAdLibraryAdapter.js *)
(* ================================================================== *)

Module AdapterProperties.

Import Adapter.

Section Adapter.

Variable redisClient : client_ref.
Variable cacheKey : Params -> string.
Variable axios_get : string -> num -> nat -> ApiAnswer.
Variable redis_get : string -> nat -> CacheAnswer.
Variable redis_set_rejects : nat -> bool.
Variable Date_now : nat -> Z.
Variable Math_random : nat -> Q.

Let search := searchAds redisClient cacheKey axios_get redis_get
                        redis_set_rejects Date_now Math_random.
Let check := checkRateLimits Date_now.
Let read := cache_read redis_get.
Let write := cache_write redisClient redis_set_rejects.

Lemma checkRateLimits_keeps (s : State) :
  gets (check s) = gets s /\ entries (check s) = entries s /\
  backoffs (check s) = backoffs s /\ commands (check s) = commands s.
Proof.
  unfold check, checkRateLimits. cbv zeta.
  destruct (resetTime s <? Date_now (reads s))%Z;
    cbn [requests resetTime reads];
    match goal with |- context [(900 <=? ?r)%Z] => destruct (900 <=? r)%Z end;
    cbn; repeat split; reflexivity.
Qed.

Lemma cache_read_keeps (key : string) (s : State) :
  gets (snd (read key s)) = gets s /\
  entries (snd (read key s)) = entries s /\
  backoffs (snd (read key s)) = backoffs s /\
  (forall data, fst (read key s) = Some data ->
                redis_get key (commands s) = Hit data).
Proof.
  unfold read, cache_read.
  destruct (redis_get key (commands s)) as [d | |]; cbn;
    repeat split; try reflexivity; intros data [=]; congruence.
Qed.

Lemma cache_write_keeps (key : string) (data : list RawAd) (s : State) :
  gets (write key data s) = gets s /\
  backoffs (write key data s) = backoffs s /\
  (entries (write key data s) = entries s \/
   entries (write key data s) = (key, data) :: entries s) /\
  (redisClient = Pending -> entries (write key data s) = entries s).
Proof.
  unfold write, cache_write. generalize redisClient. intros [|].
  - repeat split; try reflexivity. now left.
  - cbn. destruct (redis_set_rejects (commands s));
      repeat split; try reflexivity; try (now left); try (now right);
      discriminate.
Qed.

(** The state in which the round after a 429 starts. *)
Lemma searchAds_retry (p : Params) (s : State) (r : option num) :
  no_keywords p = false ->
  (forall data, redis_get (cacheKey p) (commands s) <> Hit data) ->
  axios_get (search_terms p) (request_limit p) (gets s)
  = Fails (Some 429%Z) r ->
  exists s2,
    (forall fuel, search (S fuel) (Some p) s = search fuel (Some p) s2) /\
    gets s2 = S (gets s) /\
    entries s2 = entries s /\
    backoffs s2
    = RateLimiter.calculateBackoff (Math_random (gets s))
        (Some (match r with Some x => x | None => lit 30 end)) None
      :: backoffs s.
Proof.
  intros Hk Hmiss Hapi.
  destruct (cache_read_keeps (cacheKey p) s) as (Hg1 & He1 & Hb1 & Hhit).
  destruct (read (cacheKey p) s) as [[data |] s1] eqn:E; cbn [fst snd] in *.
  { exfalso. apply (Hmiss data). now apply Hhit. }
  destruct (checkRateLimits_keeps s1) as (Hg2 & He2 & Hb2 & _).
  exists {| requests := requests (check s1); resetTime := resetTime (check s1);
            entries := entries (check s1); waits := waits (check s1);
            backoffs :=
              RateLimiter.calculateBackoff (Math_random (gets (check s1)))
                (Some (match r with Some x => x | None => lit 30 end)) None
              :: backoffs (check s1);
            gets := S (gets (check s1)); commands := commands (check s1);
            reads := reads (check s1) |}.
  split; [| split; [| split]].
  - intros fuel. unfold search. cbn [searchAds]. rewrite Hk.
    fold read. rewrite E. fold check. cbv zeta.
    rewrite Hg2, Hg1, Hapi. reflexivity.
  - cbn [gets]. now rewrite Hg2, Hg1.
  - cbn [entries]. now rewrite He2, He1.
  - cbn [backoffs]. now rewrite Hb2, Hb1, Hg2, Hg1.
Qed.

(** What a settled search has done. *)
Lemma searchAds_settled (fuel : nat) (params : option Params) (s s' : State)
      (outcome : Settled) :
  search fuel params s = Some (outcome, s') ->
  (gets s <= gets s')%nat /\
  (redisClient = Pending -> entries s' = entries s) /\
  (entries s' = entries s \/
   exists p data n,
     params = Some p /\ outcome = Resolved data /\
     entries s' = (cacheKey p, data) :: entries s /\
     axios_get (search_terms p) (request_limit p) n = Responds (Some data)) /\
  match outcome with
  | Resolved _ => True
  | Rejected Keywords_required =>
      s' = s /\
      match params with
      | Some p => no_keywords p = true
      | None => True
      end
  | Rejected Authentication_failed =>
      exists p n r,
        params = Some p /\ (gets s <= n < gets s')%nat /\
        axios_get (search_terms p) (request_limit p) n
        = Fails (Some 401%Z) r
  | Rejected (Api_failure status) =>
      status <> Some 429%Z /\ status <> Some 401%Z /\
      exists p n r,
        params = Some p /\ (gets s <= n < gets s')%nat /\
        axios_get (search_terms p) (request_limit p) n = Fails status r
  end.
Proof.
  revert s. induction fuel as [| fuel IH]; intros s H; [discriminate |].
  unfold search in H. cbn [searchAds] in H. fold search in H.
  destruct params as [p |];
    [| injection H as <- <-;
       split; [lia |]; split; [reflexivity |]; split; [now left |];
       split; [reflexivity | exact I]].
  assert (Hk : no_keywords p = true \/ no_keywords p = false)
    by (destruct (no_keywords p); auto).
  destruct Hk as [Hk | Hk]; rewrite Hk in H;
    [injection H as <- <-;
     split; [lia |]; split; [reflexivity |]; split; [now left |];
     split; [reflexivity | exact Hk] |].
  fold read in H.
  destruct (cache_read_keeps (cacheKey p) s) as (Hg1 & He1 & Hb1 & _).
  destruct (read (cacheKey p) s) as [[data |] s1] eqn:E; cbn [fst snd] in *.
  { injection H as <- <-.
    split; [lia |]. split; [intros _; exact He1 |].
    split; [left; exact He1 | exact I]. }
  fold check in H. cbv zeta in H.
  destruct (checkRateLimits_keeps s1) as (Hg2 & He2 & Hb2 & _).
  destruct (axios_get (search_terms p) (request_limit p) (gets (check s1)))
    as [[data |] | status r] eqn:Hapi.
  - (* a response with its array of ads *)
    injection H as <- <-. fold write.
    match goal with
    | |- context [write ?k ?d ?st] =>
        destruct (cache_write_keeps k d st) as (Hg3 & _ & He3 & Hp3)
    end.
    cbn [gets entries] in Hg3, He3, Hp3.
    split; [rewrite Hg3; lia |].
    split; [intros HP; rewrite (Hp3 HP); congruence |].
    split; [| exact I].
    destruct He3 as [He3 | He3]; [left; congruence |].
    right. exists p, data, (gets (check s1)).
    repeat split; try assumption; try reflexivity.
    rewrite He3. congruence.
  - (* a response without *)
    injection H as <- <-. cbn [gets entries].
    split; [lia |]. split; [intros _; congruence |].
    split; [left; congruence | exact I].
  - (* an error *)
    assert (Hretry : forall s2 : State,
              gets s2 = S (gets (check s1)) ->
              entries s2 = entries (check s1) ->
              search fuel (Some p) s2 = Some (outcome, s') ->
              (gets s <= gets s')%nat /\
              (redisClient = Pending -> entries s' = entries s) /\
              (entries s' = entries s \/
               exists p0 data n,
                 Some p = Some p0 /\ outcome = Resolved data /\
                 entries s' = (cacheKey p0, data) :: entries s /\
                 axios_get (search_terms p0) (request_limit p0) n
                 = Responds (Some data)) /\
              match outcome with
              | Resolved _ => True
              | Rejected Keywords_required => s' = s /\ no_keywords p = true
              | Rejected Authentication_failed =>
                  exists p0 n r0,
                    Some p = Some p0 /\ (gets s <= n < gets s')%nat /\
                    axios_get (search_terms p0) (request_limit p0) n
                    = Fails (Some 401%Z) r0
              | Rejected (Api_failure status0) =>
                  status0 <> Some 429%Z /\ status0 <> Some 401%Z /\
                  exists p0 n r0,
                    Some p = Some p0 /\ (gets s <= n < gets s')%nat /\
                    axios_get (search_terms p0) (request_limit p0) n
                    = Fails status0 r0
              end).
    { intros s2 Hg Hent Hs2.
      destruct (IH s2 Hs2) as (G1 & G2 & G3 & G4).
      assert (Hent' : entries s2 = entries s) by congruence.
      split; [lia |].
      split; [intros HP; rewrite (G2 HP); exact Hent' |].
      split; [rewrite <- Hent'; exact G3 |].
      destruct outcome as [d | [| | st]]; [exact I | | |].
      - destruct G4 as [_ G4]. congruence.
      - destruct G4 as (p0 & n & r0 & Ep & Hn & Hf).
        exists p0, n, r0. repeat split; try assumption; lia.
      - destruct G4 as (N1 & N2 & p0 & n & r0 & Ep & Hn & Hf).
        split; [exact N1 |]. split; [exact N2 |].
        exists p0, n, r0. repeat split; try assumption; lia. }
    assert (Hfail : forall st : option Z,
              st <> Some 429%Z -> st <> Some 401%Z -> status = st ->
              Some (Rejected (Api_failure st),
                    {| requests := requests (check s1);
                       resetTime := resetTime (check s1);
                       entries := entries (check s1);
                       waits := waits (check s1);
                       backoffs := backoffs (check s1);
                       gets := S (gets (check s1));
                       commands := commands (check s1);
                       reads := reads (check s1) |})
              = Some (outcome, s') ->
              (gets s <= gets s')%nat /\
              (redisClient = Pending -> entries s' = entries s) /\
              (entries s' = entries s \/
               exists p0 data n,
                 Some p = Some p0 /\ outcome = Resolved data /\
                 entries s' = (cacheKey p0, data) :: entries s /\
                 axios_get (search_terms p0) (request_limit p0) n
                 = Responds (Some data)) /\
              match outcome with
              | Resolved _ => True
              | Rejected Keywords_required => s' = s /\ no_keywords p = true
              | Rejected Authentication_failed =>
                  exists p0 n r0,
                    Some p = Some p0 /\ (gets s <= n < gets s')%nat /\
                    axios_get (search_terms p0) (request_limit p0) n
                    = Fails (Some 401%Z) r0
              | Rejected (Api_failure status0) =>
                  status0 <> Some 429%Z /\ status0 <> Some 401%Z /\
                  exists p0 n r0,
                    Some p = Some p0 /\ (gets s <= n < gets s')%nat /\
                    axios_get (search_terms p0) (request_limit p0) n
                    = Fails status0 r0
              end).
    { intros st N1 N2 Est Hs. injection Hs as <- <-. cbn [gets entries].
      split; [lia |]. split; [intros _; congruence |].
      split; [left; congruence |].
      split; [exact N1 |]. split; [exact N2 |].
      exists p, (gets (check s1)), r.
      split; [reflexivity |]. split; [lia |]. now rewrite <- Est. }
    destruct status as [[| z | z] |];
      try (match type of H with
           | Some (Rejected (Api_failure ?st), _) = _ =>
               apply (Hfail st);
               [discriminate | discriminate | reflexivity | exact H]
           end).
    repeat (destruct z as [z | z |];
            try (match type of H with
                 | Some (Rejected (Api_failure ?st), _) = _ =>
                     apply (Hfail st);
                     [discriminate | discriminate | reflexivity | exact H]
                 end)).
    + (* 429 *)
      eapply Hretry; [| | exact H]; reflexivity.
    + (* 401 *)
      injection H as <- <-. cbn [gets entries].
      split; [lia |]. split; [intros _; congruence |].
      split; [left; congruence |].
      exists p, (gets (check s1)), r.
      split; [reflexivity |]. split; [lia | exact Hapi].
Qed.

(** The round in which the API answers. *)
Lemma searchAds_answer (p : Params) (s : State) (data : list RawAd)
      (fuel : nat) :
  no_keywords p = false ->
  (forall d, redis_get (cacheKey p) (commands s) <> Hit d) ->
  axios_get (search_terms p) (request_limit p) (gets s)
  = Responds (Some data) ->
  exists s',
    search (S fuel) (Some p) s = Some (Resolved data, s') /\
    gets s' = S (gets s) /\ backoffs s' = backoffs s.
Proof.
  intros Hk Hmiss Hapi.
  destruct (cache_read_keeps (cacheKey p) s) as (Hg1 & He1 & Hb1 & Hhit).
  destruct (read (cacheKey p) s) as [[d |] s1] eqn:E; cbn [fst snd] in *.
  { exfalso. apply (Hmiss d). now apply Hhit. }
  destruct (checkRateLimits_keeps s1) as (Hg2 & He2 & Hb2 & _).
  unfold search. cbn [searchAds]. rewrite Hk. fold read. rewrite E.
  fold check. cbv zeta. rewrite Hg2, Hg1, Hapi. fold write.
  eexists. split; [reflexivity |].
  match goal with
  | |- context [write ?k ?d ?st] =>
      destruct (cache_write_keeps k d st) as (Hg3 & Hb3 & _ & _)
  end.
  rewrite Hg3, Hb3. cbn [gets backoffs]. split; congruence.
Qed.

(** [k] answers 429 in a row: [k] rounds, each after a backoff that is
    computed without the number of the attempt. *)
Lemma searchAds_retries (p : Params) (k : nat) (s : State) :
  no_keywords p = false ->
  (forall n d, redis_get (cacheKey p) n <> Hit d) ->
  (forall i, (i < k)%nat ->
     exists r, axios_get (search_terms p) (request_limit p) (gets s + i)
               = Fails (Some 429%Z) r) ->
  exists s2 added,
    (forall fuel, search (k + fuel) (Some p) s = search fuel (Some p) s2) /\
    gets s2 = (gets s + k)%nat /\
    entries s2 = entries s /\
    backoffs s2 = added ++ backoffs s /\
    List.length added = k /\
    Forall (fun t => exists random r,
                t = RateLimiter.calculateBackoff random (Some r) None)
           added.
Proof.
  intros Hk Hmiss. revert s. induction k as [| k IH]; intros s Hapi.
  - exists s, []. repeat split; try reflexivity; [lia | constructor].
  - destruct (Hapi 0%nat ltac:(lia)) as (r & Hr).
    rewrite Nat.add_0_r in Hr.
    destruct (@searchAds_retry p s r Hk (fun d => Hmiss _ d) Hr)
      as (s1 & Hstep & Hg1 & He1 & Hb1).
    destruct (IH s1) as (s2 & added & Hrun & Hg2 & He2 & Hb2 & Hlen & Hall).
    { intros i Hi. rewrite Hg1.
      replace (S (gets s) + i)%nat with (gets s + S i)%nat by lia.
      apply Hapi. lia. }
    exists s2, (added ++ [RateLimiter.calculateBackoff (Math_random (gets s))
                            (Some (match r with Some x => x | None => lit 30 end))
                            None]).
    split; [| split; [| split; [| split; [| split]]]].
    + intros fuel. cbn [Nat.add]. rewrite Hstep. apply Hrun.
    + lia.
    + congruence.
    + rewrite Hb2, Hb1, <- app_assoc. reflexivity.
    + rewrite length_app, Hlen. cbn. lia.
    + apply Forall_app. split; [exact Hall |].
      constructor; [| constructor]. eexists. eexists. reflexivity.
Qed.

Lemma searchAds_never_settles (p : Params) (fuel : nat) (s : State) :
  no_keywords p = false ->
  (forall n d, redis_get (cacheKey p) n <> Hit d) ->
  (forall n, exists r, axios_get (search_terms p) (request_limit p) n
                       = Fails (Some 429%Z) r) ->
  search fuel (Some p) s = None.
Proof.
  intros Hk Hmiss Hapi. revert s.
  induction fuel as [| fuel IH]; intros s; [reflexivity |].
  destruct (Hapi (gets s)) as (r & Hr).
  destruct (@searchAds_retry p s r Hk (fun d => Hmiss _ d) Hr) as (s1 & Hstep & _).
  rewrite Hstep. apply IH.
Qed.

End Adapter.

End AdapterProperties.

(** X28.  A search of the rewritten adapter that settles has failed
    only for want of keywords, before anything was done, or on an
    error of the API other than a 429; no failure of the cache makes
    it fail.  It wrote at most one entry to Redis, the answer of the
    API it resolved with, under the key of its parameters, and none at
    all when the field holds the promise of the client. *)
Theorem X28_searchAds_fails_on_the_API_only
  (redisClient : client_ref) (cacheKey : Adapter.Params -> string)
  (axios_get : string -> num -> nat -> Adapter.ApiAnswer)
  (redis_get : string -> nat -> Adapter.CacheAnswer)
  (redis_set_rejects : nat -> bool) (Date_now : nat -> Z)
  (Math_random : nat -> Q)
  (fuel : nat) (params : option Adapter.Params) (s s' : Adapter.State)
  (outcome : Adapter.Settled) :
  Adapter.searchAds redisClient cacheKey axios_get redis_get redis_set_rejects
                    Date_now Math_random fuel params s
  = Some (outcome, s') ->
  (redisClient = Pending -> Adapter.entries s' = Adapter.entries s) /\
  (Adapter.entries s' = Adapter.entries s \/
   exists p data n,
     params = Some p /\ outcome = Adapter.Resolved data /\
     Adapter.entries s' = (cacheKey p, data) :: Adapter.entries s /\
     axios_get (Adapter.search_terms p) (Adapter.request_limit p) n
     = Adapter.Responds (Some data)) /\
  match outcome with
  | Adapter.Resolved _ => True
  | Adapter.Rejected Adapter.Keywords_required =>
      s' = s /\
      match params with
      | Some p => Adapter.no_keywords p = true
      | None => True
      end
  | Adapter.Rejected Adapter.Authentication_failed =>
      exists p n r,
        params = Some p /\
        (Adapter.gets s <= n < Adapter.gets s')%nat /\
        axios_get (Adapter.search_terms p) (Adapter.request_limit p) n
        = Adapter.Fails (Some 401%Z) r
  | Adapter.Rejected (Adapter.Api_failure status) =>
      status <> Some 429%Z /\ status <> Some 401%Z /\
      exists p n r,
        params = Some p /\
        (Adapter.gets s <= n < Adapter.gets s')%nat /\
        axios_get (Adapter.search_terms p) (Adapter.request_limit p) n
        = Adapter.Fails status r
  end.
Proof.
  intros H.
  destruct (AdapterProperties.searchAds_settled _ _ _ _ _ _ _ _ _ _ H)
    as (_ & H2 & H3 & H4).
  split; [exact H2 |]. split; [exact H3 | exact H4].
Qed.

(** X29.  When the cache has nothing and the API answers 429 [k] times
    and then the ads, the search resolves with these ads after [k + 1]
    requests, and not in fewer rounds; before each retry it waits for a
    backoff computed from the header alone, the number of the attempt
    left out, so that the waits do not grow.  When the API answers 429
    for ever, the search never settles. *)
Theorem X29_searchAds_retries_without_end
  (redisClient : client_ref) (cacheKey : Adapter.Params -> string)
  (axios_get : string -> num -> nat -> Adapter.ApiAnswer)
  (redis_get : string -> nat -> Adapter.CacheAnswer)
  (redis_set_rejects : nat -> bool) (Date_now : nat -> Z)
  (Math_random : nat -> Q)
  (p : Adapter.Params) (s : Adapter.State) :
  let search := Adapter.searchAds redisClient cacheKey axios_get redis_get
                  redis_set_rejects Date_now Math_random in
  let answer n := axios_get (Adapter.search_terms p) (Adapter.request_limit p)
                            n in
  Adapter.no_keywords p = false ->
  (forall n d, redis_get (cacheKey p) n <> Adapter.Hit d) ->
  (forall (k : nat) (data : list RawAd),
     (forall i, (i < k)%nat ->
        exists r, answer (Adapter.gets s + i)%nat
                  = Adapter.Fails (Some 429%Z) r) ->
     answer (Adapter.gets s + k)%nat = Adapter.Responds (Some data) ->
     (forall fuel, (fuel <= k)%nat -> search fuel (Some p) s = None) /\
     forall fuel, exists s' added,
       search (k + S fuel)%nat (Some p) s
       = Some (Adapter.Resolved data, s') /\
       Adapter.gets s' = (Adapter.gets s + k + 1)%nat /\
       Adapter.backoffs s' = added ++ Adapter.backoffs s /\
       List.length added = k /\
       Forall (fun t => exists random r,
                   t = RateLimiter.calculateBackoff random (Some r) None)
              added) /\
  ((forall n, exists r, answer n = Adapter.Fails (Some 429%Z) r) ->
   forall fuel, search fuel (Some p) s = None).
Proof.
  intros search answer Hk Hmiss. split.
  - intros k data H429 Hdata. split.
    + intros fuel Hle.
      destruct (@AdapterProperties.searchAds_retries redisClient cacheKey
                  axios_get redis_get redis_set_rejects Date_now Math_random
                  p fuel s Hk Hmiss) as (s2 & _ & Hrun & _).
      { intros i Hi. apply H429. lia. }
      specialize (Hrun 0%nat). rewrite Nat.add_0_r in Hrun.
      unfold search. rewrite Hrun. reflexivity.
    + intros fuel.
      destruct (@AdapterProperties.searchAds_retries redisClient cacheKey
                  axios_get redis_get redis_set_rejects Date_now Math_random
                  p k s Hk Hmiss H429)
        as (s2 & added & Hrun & Hg2 & _ & Hb2 & Hlen & Hall).
      destruct (@AdapterProperties.searchAds_answer redisClient cacheKey
                  axios_get redis_get redis_set_rejects Date_now Math_random
                  p s2 data fuel Hk (fun d => Hmiss _ d))
        as (s' & Hs' & Hg' & Hb').
      { rewrite Hg2. exact Hdata. }
      exists s', added. unfold search. rewrite Hrun.
      split; [exact Hs' |]. split; [lia |]. split; [congruence |].
      split; [exact Hlen | exact Hall].
  - intros Hall fuel.
    apply AdapterProperties.searchAds_never_settles; assumption.
Qed.

Lemma X28_witness :
  exists outcome s',
    AdapterSamples.search Pending 5 (Some AdapterSamples.params)
                          AdapterSamples.s0
    = Some (outcome, s') /\
    Adapter.entries s' = [].
Proof.
  destruct (AdapterSamples.search Pending 5 (Some AdapterSamples.params)
                                  AdapterSamples.s0)
    as [[outcome s'] |] eqn:E.
  - exists outcome, s'. split; [reflexivity |].
    apply (X28_searchAds_fails_on_the_API_only _ _ _ _ _ _ _ _ _ _ E).
    reflexivity.
  - vm_compute in E. discriminate E.
Defined.

Lemma X29_witness :
  exists s' added,
    AdapterSamples.search Client 3 (Some AdapterSamples.params)
                          AdapterSamples.s0
    = Some (Adapter.Resolved [Samples.ad "good" None], s') /\
    Adapter.gets s' = 3%nat /\
    Adapter.backoffs s' = added ++ [] /\
    List.length added = 2%nat.
Proof.
  destruct (@X29_searchAds_retries_without_end Client AdapterSamples.cacheKey
              AdapterSamples.axios_get AdapterSamples.redis_get
              (fun _ => false) (fun n => 1000 + Z.of_nat n)%Z (fun _ => 1 # 2)
              AdapterSamples.params AdapterSamples.s0 eq_refl)
    as [H _].
  - intros n d. discriminate.
  - destruct (H 2%nat [Samples.ad "good" None]) as [_ Hrun].
    + intros [| [| i]] Hi; [eexists; reflexivity | eexists; reflexivity | lia].
    + reflexivity.
    + destruct (Hrun 0%nat) as (s' & added & E & Hg & Hb & Hlen & _).
      exists s', added. repeat split; assumption.
Defined.

(** ** The literals in binary64

    The rational model is exact; the code runs on binary64 numbers,
    where 1.2 and 0.8 are rounded.  At the maxima the rounded products
    and their sum are what the rational model says. *)

Module Binary64.

Import Floats.

Example weighted_maxima :
  (25 * 0x1.3333333333333p+0 + 25 * 0x1.999999999999ap-1
   + 25 * 0x1.999999999999ap-1 + 25 * 0x1.3333333333333p+0)%float
  = 100%float.
Proof. vm_compute. reflexivity. Qed.

(** The values of the range parser on the inputs of the specification
    are exact. *)
Example range_values :
  ((100 + 500) / 2 = 300 /\ 100 / 2 = 50 /\ 1000 * 1.5 = 1500)%float.
Proof. vm_compute. repeat split. Qed.

End Binary64.
